(** * personal-taskmanager: the undoable state store and the task mutations

    A shallow embedding of the state-management core of the application:

    - [useUndoableState] of [src/hooks/useLocalStorage.ts]: a bounded linear
      undo/redo history with a cursor;
    - the handlers of [src/App.tsx] that create, edit, move, delete and
      reorder tasks, each an updater [AppState -> AppState] handed to
      [setState];
    - the load-time migration and the import normalisation of [src/App.tsx],
      which work on raw parsed JSON.

    Part I holds the definitions, Part II the theorems. *)

From Stdlib Require Import Ascii.
From stdpp Require Import gmap strings list fin_maps sorting pretty.

Open Scope Z_scope.
Set Warnings "-clear-no-such-hyp".

(* ===================================================================== *)
(** * Part I: definitions                                                *)
(* ===================================================================== *)

(** ** The undoable store ([useUndoableState])

    The hook keeps two pieces of React state, [history : T[]] and
    [currentIndex : number]; every callback reads both and writes new
    values. Here the pair is a record that each operation maps to the next
    one. [T] is generic in the source; the only thing the hook asks of it is
    [JSON.stringify], which is a parameter here ([None] is JavaScript's
    [undefined], the result of stringifying [undefined]). *)

Section UndoableState.
Context {T : Type}.
Variable stringify : T -> option string.

Record Undoable := mkUndoable {
  history : list T;
  currentIndex : nat
}.

(** [useState<T[]>([initialState])], [useState(0)]. *)
Definition useUndoableState (initialState : T) : Undoable :=
  {| history := [initialState]; currentIndex := 0 |}.

(** [const state = history[currentIndex]]; out of range an array read is
    [undefined]. *)
Definition state (u : Undoable) : option T :=
  history u !! currentIndex u.

(** [JSON.stringify] of a value that may be [undefined]. *)
Definition stringify_opt (o : option T) : option string :=
  match o with
  | Some x => stringify x
  | None => None
  end.

(** [JSON.stringify(resolvedState) === JSON.stringify(state)]. *)
Definition same_serialization (resolvedState : T) (u : Undoable) : bool :=
  bool_decide (stringify resolvedState = stringify_opt (state u)).

(** [setState] with an already resolved value. *)
Definition setState (resolvedState : T) (u : Undoable) : Undoable :=
  if same_serialization resolvedState u then u
  else
    let newHistory := take (currentIndex u + 1) (history u) ++ [resolvedState] in
    if bool_decide (50 < length newHistory)%nat then
      let shifted := drop 1 newHistory in
      {| history := shifted; currentIndex := (length shifted - 1)%nat |}
    else
      {| history := newHistory; currentIndex := (length newHistory - 1)%nat |}.

(** [setState] with an updater: the updater is applied to [state]. Every
    store reachable from [useUndoableState] has a defined [state]
    (lemma [reachable_wf]), so the last branch is never taken. *)
Definition setStateWith (updater : T -> T) (u : Undoable) : Undoable :=
  match state u with
  | Some s => setState (updater s) u
  | None => u
  end.

Definition undo (u : Undoable) : Undoable :=
  if bool_decide (0 < currentIndex u)%nat
  then {| history := history u; currentIndex := (currentIndex u - 1)%nat |}
  else u.

(** [currentIndex < history.length - 1], over the integers. *)
Definition canRedo (u : Undoable) : bool :=
  bool_decide (Z.of_nat (currentIndex u) < Z.of_nat (length (history u)) - 1).

Definition canUndo (u : Undoable) : bool :=
  bool_decide (0 < currentIndex u)%nat.

Definition redo (u : Undoable) : Undoable :=
  if canRedo u
  then {| history := history u; currentIndex := (currentIndex u + 1)%nat |}
  else u.

Definition resetState (newState : T) (_ : Undoable) : Undoable :=
  {| history := [newState]; currentIndex := 0 |}.

(** The calls a client can make, and the stores they lead to. *)
Inductive Call :=
| CallSet (newState : T)
| CallSetWith (updater : T -> T)
| CallUndo
| CallRedo
| CallReset (newState : T).

Definition call (c : Call) (u : Undoable) : Undoable :=
  match c with
  | CallSet s => setState s u
  | CallSetWith f => setStateWith f u
  | CallUndo => undo u
  | CallRedo => redo u
  | CallReset s => resetState s u
  end.

Definition run (cs : list Call) (u : Undoable) : Undoable :=
  foldl (fun v c => call c v) u cs.

(** A [setState] is accepted when it is not skipped as a duplicate. *)
Definition accepted (resolvedState : T) (u : Undoable) : Prop :=
  stringify resolvedState <> stringify_opt (state u).

(** The cursor is inside the history and the history is within the cap. *)
Definition wf (u : Undoable) : Prop :=
  (currentIndex u < length (history u))%nat /\ (length (history u) <= 50)%nat.

End UndoableState.

Arguments Undoable T : clear implicits.
Arguments Call T : clear implicits.

(** ** JavaScript values

    What [JSON.parse] returns and what the migration and import code
    builds from it. An object is the list of its own properties in
    enumeration order, each key once. [VUndef] is [undefined]: it is never
    in parsed JSON but [{...t, startDate: t.startDate || t.createdAt}] can
    store it. Numbers are the integers (the only numbers the application
    writes are [order] and goal counters); strings are byte strings. *)

#[warnings="-register-all"]
Inductive value :=
| VUndef
| VNull
| VBool (b : bool)
| VNum (n : Z)
| VStr (s : string)
| VArr (items : list value)
| VObj (props : list (string * value)).

Definition dquote : string := String "034"%char EmptyString.

(** A property read [o[k]] on the property list of an object. *)
Fixpoint prop_lookup (k : string) (props : list (string * value)) : option value :=
  match props with
  | [] => None
  | (k', v) :: rest => if String.eqb k k' then Some v else prop_lookup k rest
  end.

(** ** [JSON.stringify]

    Characters are escaped the way ECMAScript's [QuoteJSONString] does it:
    the quote and the backslash, the five short escapes, and [\u00xx] for
    the other control characters. *)

Definition hex_digit (n : N) : ascii :=
  if (n <? 10)%N then ascii_of_N (48 + n) else ascii_of_N (87 + n).

Definition escape_char (c : ascii) : string :=
  let n := N_of_ascii c in
  if (n =? 34)%N then String "\" dquote
  else if (n =? 92)%N then "\\"
  else if (n =? 8)%N then "\b"
  else if (n =? 12)%N then "\f"
  else if (n =? 10)%N then "\n"
  else if (n =? 13)%N then "\r"
  else if (n =? 9)%N then "\t"
  else if (n <? 32)%N then
    "\u00" +:+ String (hex_digit (n / 16)) (String (hex_digit (n mod 16)) EmptyString)
  else String c EmptyString.

Fixpoint escape_string (s : string) : string :=
  match s with
  | EmptyString => EmptyString
  | String c rest => escape_char c +:+ escape_string rest
  end.

Definition quote_json (s : string) : string :=
  dquote +:+ escape_string s +:+ dquote.

Fixpoint join_comma (parts : list string) : string :=
  match parts with
  | [] => EmptyString
  | [x] => x
  | x :: rest => x +:+ "," +:+ join_comma rest
  end.

(** Serialisation below the top level: [undefined] in an array prints as
    [null], a property whose value is [undefined] is left out. *)
Fixpoint serialize (v : value) : string :=
  match v with
  | VUndef => "null"
  | VNull => "null"
  | VBool true => "true"
  | VBool false => "false"
  | VNum n => pretty n
  | VStr s => quote_json s
  | VArr items => "[" +:+ join_comma (List.map serialize items) +:+ "]"
  | VObj props =>
      "{" +:+
      join_comma
        ((fix members (ps : list (string * value)) : list string :=
            match ps with
            | [] => []
            | (k, VUndef) :: rest => members rest
            | (k, w) :: rest => (quote_json k +:+ ":" +:+ serialize w) :: members rest
            end) props)
      +:+ "}"
  end.

(** [JSON.stringify(v)]: [undefined] for [undefined], a string otherwise. *)
Definition JSON_stringify (v : value) : option string :=
  match v with
  | VUndef => None
  | _ => Some (serialize v)
  end.

(** ** Deep value equality

    Two values are deep-equal when they are the same primitive, arrays with
    deep-equal items in the same positions, or objects with the same keys
    and deep-equal values under each key, in whatever order the keys are
    listed. *)
Fixpoint deep_equal (a b : value) : bool :=
  match a, b with
  | VUndef, VUndef => true
  | VNull, VNull => true
  | VBool x, VBool y => Bool.eqb x y
  | VNum x, VNum y => (x =? y)
  | VStr x, VStr y => String.eqb x y
  | VArr xs, VArr ys =>
      (fix items (xs ys : list value) : bool :=
         match xs, ys with
         | [], [] => true
         | x :: xs', y :: ys' => deep_equal x y && items xs' ys'
         | _, _ => false
         end) xs ys
  | VObj pa, VObj pb =>
      (length pa =? length pb)%nat &&
      (fix props (ps : list (string * value)) : bool :=
         match ps with
         | [] => true
         | (k, v) :: rest =>
             match prop_lookup k pb with
             | Some w => deep_equal v w
             | None => false
             end && props rest
         end) pa
  | _, _ => false
  end.

(** ** Operations on values used by the migration and the import *)

(** [v[k]] for the property names the code reads ([comments],
    [activityLog], [projects], [tasks], [priority], [isArchived], [color],
    [members], [goals], [links], [startDate], [createdAt]). Reading a
    property of [null] or [undefined] throws a [TypeError] ([None]); none of
    these names is a property of an array, a string, a number or a boolean,
    so there the read gives [undefined]. *)
Definition get (v : value) (k : string) : option value :=
  match v with
  | VUndef | VNull => None
  | VObj props => Some (default VUndef (prop_lookup k props))
  | VBool _ | VNum _ | VStr _ | VArr _ => Some VUndef
  end.

Definition truthy (v : value) : bool :=
  match v with
  | VUndef | VNull => false
  | VBool b => b
  | VNum n => negb (n =? 0)
  | VStr s => negb (String.eqb s EmptyString)
  | VArr _ | VObj _ => true
  end.

(** [a || b]. *)
Definition or_else (a b : value) : value := if truthy a then a else b.

(** [v === undefined]. *)
Definition is_undefined (v : value) : bool :=
  match v with
  | VUndef => true
  | _ => false
  end.

(** A key is an array index when it is the decimal text of an integer below
    [2^32 - 1]; such keys are enumerated first, in ascending order, the
    others after them in the order they were added. *)
Fixpoint digits_value (s : string) (acc : N) : option N :=
  match s with
  | EmptyString => Some acc
  | String c rest =>
      let n := N_of_ascii c in
      if ((48 <=? n) && (n <=? 57))%N
      then digits_value rest (acc * 10 + (n - 48))%N
      else None
  end.

Definition array_index (k : string) : option N :=
  match digits_value k 0%N with
  | Some n => if (n <? 4294967295)%N && String.eqb (pretty n) k then Some n else None
  | None => None
  end.

Fixpoint obj_replace (k : string) (v : value) (props : list (string * value))
  : list (string * value) :=
  match props with
  | [] => []
  | (k', v') :: rest =>
      if String.eqb k k' then (k, v) :: rest else (k', v') :: obj_replace k v rest
  end.

Fixpoint insert_index (n : N) (k : string) (v : value) (props : list (string * value))
  : list (string * value) :=
  match props with
  | [] => [(k, v)]
  | (k', v') :: rest =>
      match array_index k' with
      | Some m => if (m <? n)%N then (k', v') :: insert_index n k v rest
                  else (k, v) :: props
      | None => (k, v) :: props
      end
  end.

(** Defining the property [k] with value [v]: an existing property keeps
    its place, a new one goes where the enumeration order puts it. *)
Definition obj_set (k : string) (v : value) (props : list (string * value))
  : list (string * value) :=
  match prop_lookup k props with
  | Some _ => obj_replace k v props
  | None =>
      match array_index k with
      | Some n => insert_index n k v props
      | None => props ++ [(k, v)]
      end
  end.

(** The own enumerable properties a spread [...v] copies: the properties of
    an object, the items of an array and the characters of a string under
    their indices, nothing for the other values. *)
Fixpoint index_items (i : nat) (items : list value) : list (string * value) :=
  match items with
  | [] => []
  | x :: rest => (pretty i, x) :: index_items (S i) rest
  end.

Fixpoint index_chars (i : nat) (s : string) : list (string * value) :=
  match s with
  | EmptyString => []
  | String c rest => (pretty i, VStr (String c EmptyString)) :: index_chars (S i) rest
  end.

Definition own_props (v : value) : list (string * value) :=
  match v with
  | VObj props => props
  | VArr items => index_items 0 items
  | VStr s => index_chars 0 s
  | VUndef | VNull | VBool _ | VNum _ => []
  end.

(** [{ ...target, ...source }] on property lists. *)
Definition spread_into (target : list (string * value)) (source : value)
  : list (string * value) :=
  foldl (fun acc kv => obj_set kv.1 kv.2 acc) target (own_props source).

(** [items.some(f)] and [items.map(f)] with a callback that may throw; on a
    value that is not an array the method does not exist and the call
    throws. *)
Fixpoint some_items (f : value -> option bool) (items : list value) : option bool :=
  match items with
  | [] => Some false
  | x :: rest =>
      match f x with
      | None => None
      | Some true => Some true
      | Some false => some_items f rest
      end
  end.

Definition array_some (f : value -> option bool) (v : value) : option bool :=
  match v with
  | VArr items => some_items f items
  | _ => None
  end.

Definition array_map (f : value -> option value) (v : value) : option (list value) :=
  match v with
  | VArr items => mapM f items
  | _ => None
  end.

(** ** Migration at load time (the first [useEffect] of [App]) *)

Definition default_color : string := "#334155".

Definition lacks (k : string) (item : value) : option bool :=
  field ← get item k; Some (is_undefined field).

Definition needsMigration (oldState : value) : option bool :=
  c ← get oldState "comments";
  if negb (truthy c) then Some true else
    (a ← get oldState "activityLog";
     if negb (truthy a) then Some true else
       (ps ← get oldState "projects";
        noColor ← array_some (lacks "color") ps;
        if (noColor : bool) then Some true else
          (ts ← get oldState "tasks";
           array_some (lacks "startDate") ts))).

(** [{ ...p, priority: p.priority || TaskPriority.Medium, ... }]. *)
Definition migrate_project (p : value) : option value :=
  priority ← get p "priority";
  isArchived ← get p "isArchived";
  color ← get p "color";
  members ← get p "members";
  goals ← get p "goals";
  links ← get p "links";
  Some (VObj
          (obj_set "links" (or_else links (VArr []))
          (obj_set "goals" (or_else goals (VArr []))
          (obj_set "members" (or_else members (VArr []))
          (obj_set "color" (or_else color (VStr default_color))
          (obj_set "isArchived" (or_else isArchived (VBool false))
          (obj_set "priority" (or_else priority (VStr "Medium"))
          (spread_into [] p)))))))).

(** [{ ...t, startDate: t.startDate || t.createdAt }]; the same callback is
    written out in the migration and in the import. *)
Definition migrate_task (t : value) : option value :=
  startDate ← get t "startDate";
  createdAt ← get t "createdAt";
  Some (VObj (obj_set "startDate" (or_else startDate createdAt) (spread_into [] t))).

Definition migratedState (oldState : value) : option value :=
  ps ← get oldState "projects";
  projects ← array_map migrate_project (or_else ps (VArr []));
  ts ← get oldState "tasks";
  tasks ← array_map migrate_task (or_else ts (VArr []));
  c ← get oldState "comments";
  a ← get oldState "activityLog";
  Some (VObj [("projects", VArr projects);
              ("tasks", VArr tasks);
              ("comments", or_else c (VObj []));
              ("activityLog", or_else a (VObj []))]).

(** The state the application runs with after the effect: the migrated
    state, handed to [setPersistedState] and [resetState], when migration
    is needed, the persisted state otherwise. [None] is an uncaught
    [TypeError]. *)
Definition migration (persistedState : value) : option value :=
  needed ← needsMigration persistedState;
  if (needed : bool) then migratedState persistedState else Some persistedState.

(** ** Import ([handleImportData]) *)

Definition project_defaults : list (string * value) :=
  [("priority", VStr "Medium"); ("isArchived", VBool false);
   ("color", VStr default_color); ("members", VArr []); ("goals", VArr []);
   ("links", VArr [])].

(** [{ priority: ..., isArchived: false, color: ..., members: [], goals: [],
    links: [], ...p }]. *)
Definition import_project (p : value) : option value :=
  Some (VObj (spread_into project_defaults p)).

(** The state [handleImportData] hands to [resetState]. *)
Definition handleImportData (data : value) : option value :=
  ps ← get data "projects";
  projects ← array_map import_project (or_else ps (VArr []));
  ts ← get data "tasks";
  tasks ← array_map migrate_task (or_else ts (VArr []));
  c ← get data "comments";
  a ← get data "activityLog";
  Some (VObj [("projects", VArr projects);
              ("tasks", VArr tasks);
              ("comments", or_else c (VObj []));
              ("activityLog", or_else a (VObj []))]).

(** An object has each key once; [unique_keys v] says so for every object
    inside [v]. It is what makes a [value] stand for a JavaScript value. *)
Fixpoint unique_keys (v : value) : bool :=
  match v with
  | VArr items => forallb unique_keys items
  | VObj props =>
      bool_decide (NoDup props.*1) &&
      (fix all (ps : list (string * value)) : bool :=
         match ps with
         | [] => true
         | (_, w) :: rest => unique_keys w && all rest
         end) props
  | VUndef | VNull | VBool _ | VNum _ | VStr _ => true
  end.

(** ** The current schema on raw values

    [is_AppState v] holds when [v], as parsed JSON, has the shape the
    interfaces of [src/types.ts] describe: every declared field present
    with a value of the declared type. *)

Definition is_string (v : value) : bool :=
  match v with VStr _ => true | _ => false end.
Definition is_number (v : value) : bool :=
  match v with VNum _ => true | _ => false end.
Definition is_boolean (v : value) : bool :=
  match v with VBool _ => true | _ => false end.
Definition is_string_or_null (v : value) : bool :=
  match v with VStr _ | VNull => true | _ => false end.
Definition is_one_of (options : list string) (v : value) : bool :=
  match v with VStr s => bool_decide (s ∈ options) | _ => false end.
Definition is_array_of (f : value -> bool) (v : value) : bool :=
  match v with VArr items => forallb f items | _ => false end.
Definition is_record_of (f : value -> bool) (v : value) : bool :=
  match v with VObj props => forallb (fun kv => f kv.2) props | _ => false end.

(** The object [v] has the field [k] and its value passes [f]. *)
Definition has_field (f : value -> bool) (k : string) (v : value) : bool :=
  match v with
  | VObj props =>
      match prop_lookup k props with
      | Some w => f w
      | None => false
      end
  | _ => false
  end.

Definition is_TaskPriority : value -> bool := is_one_of ["Low"; "Medium"; "High"].
Definition is_TaskStatus : value -> bool := is_one_of ["To Do"; "In Progress"; "Done"].
Definition is_ProjectRole : value -> bool := is_one_of ["Owner"; "Collaborator"; "Viewer"].

Definition is_Member (m : value) : bool :=
  has_field is_string "id" m && has_field is_string "name" m
  && has_field is_ProjectRole "role" m && has_field is_string "avatarUrl" m.

Definition is_Goal (g : value) : bool :=
  has_field is_string "id" g && has_field is_string "title" g
  && has_field is_number "targetValue" g && has_field is_number "currentValue" g
  && has_field is_string "unit" g.

Definition is_Link (l : value) : bool :=
  has_field is_string "id" l && has_field is_string "title" l
  && has_field is_string "url" l.

Definition is_Comment (c : value) : bool :=
  has_field is_string "id" c && has_field is_string "projectId" c
  && has_field is_string "authorName" c && has_field is_string "authorAvatarUrl" c
  && has_field is_string "content" c && has_field is_string "createdAt" c.

Definition is_ActivityLog (a : value) : bool :=
  has_field is_string "id" a && has_field is_string "timestamp" a
  && has_field is_string "author" a && has_field is_string "action" a.

Definition is_Task (t : value) : bool :=
  has_field is_string "id" t && has_field is_string "projectId" t
  && has_field is_string_or_null "parentId" t && has_field is_string "title" t
  && has_field is_string "description" t && has_field is_TaskStatus "status" t
  && has_field is_TaskPriority "priority" t
  && has_field is_string_or_null "startDate" t
  && has_field is_string_or_null "dueDate" t
  && has_field (is_array_of is_string) "tags" t
  && has_field is_boolean "isFocused" t && has_field is_string "createdAt" t
  && has_field is_number "order" t.

Definition is_Project (p : value) : bool :=
  has_field is_string "id" p && has_field is_string "name" p
  && has_field is_string "description" p && has_field is_string "createdAt" p
  && has_field (is_array_of is_string) "tags" p && has_field is_number "order" p
  && has_field is_TaskPriority "priority" p && has_field is_boolean "isArchived" p
  && has_field is_string "color" p
  && has_field (is_array_of is_Member) "members" p
  && has_field (is_array_of is_Goal) "goals" p
  && has_field (is_array_of is_Link) "links" p.

Definition is_AppState (s : value) : bool :=
  has_field (is_array_of is_Project) "projects" s
  && has_field (is_array_of is_Task) "tasks" s
  && has_field (is_record_of (is_array_of is_Comment)) "comments" s
  && has_field (is_record_of (is_array_of is_ActivityLog)) "activityLog" s.

(** ** The typed application state ([src/types.ts]) *)

Inductive TaskStatus := ToDo | InProgress | Done.
Inductive TaskPriority := Low | Medium | High.
Inductive ProjectRole := Owner | Collaborator | Viewer.

Record Task := mkTask {
  task_id : string;
  task_projectId : string;
  task_parentId : option string;          (* [string | null] *)
  task_title : string;
  task_description : string;
  task_status : TaskStatus;
  task_priority : TaskPriority;
  task_startDate : option string;
  task_dueDate : option string;
  task_tags : list string;
  task_isFocused : bool;
  task_createdAt : string;
  task_order : Z
}.

Record Member := mkMember {
  member_id : string;
  member_name : string;
  member_role : ProjectRole;
  member_avatarUrl : string
}.

Record Goal := mkGoal {
  goal_id : string;
  goal_title : string;
  goal_targetValue : Z;
  goal_currentValue : Z;
  goal_unit : string
}.

Record Link := mkLink {
  link_id : string;
  link_title : string;
  link_url : string
}.

Record Comment := mkComment {
  comment_id : string;
  comment_projectId : string;
  comment_authorName : string;
  comment_authorAvatarUrl : string;
  comment_content : string;
  comment_createdAt : string
}.

Record ActivityLog := mkActivityLog {
  log_id : string;
  log_timestamp : string;
  log_author : string;
  log_action : string
}.

Record Project := mkProject {
  project_id : string;
  project_name : string;
  project_description : string;
  project_createdAt : string;
  project_tags : list string;
  project_order : Z;
  project_priority : TaskPriority;
  project_isArchived : bool;
  project_color : string;
  project_members : list Member;
  project_goals : list Goal;
  project_links : list Link
}.

(** [comments] and [activityLog] are objects used as maps keyed by project
    id. *)
Record AppState := mkAppState {
  projects : list Project;
  tasks : list Task;
  comments : gmap string (list Comment);
  activityLog : gmap string (list ActivityLog)
}.

(** What the task form hands to [handleSaveTask]:
    [Omit<Task, 'id' | 'projectId' | 'parentId' | 'isFocused' | 'createdAt' | 'order'>]. *)
Record TaskData := mkTaskData {
  data_title : string;
  data_description : string;
  data_status : TaskStatus;
  data_priority : TaskPriority;
  data_startDate : option string;
  data_dueDate : option string;
  data_tags : list string
}.

Inductive ModalState :=
| CLOSED
| CREATE_PROJECT
| EDIT_PROJECT (project : Project)
| CREATE_TASK (projectId : string) (parentId : option string)
| EDIT_TASK (task : Task)
| CONFIRM_DELETE_PROJECT (project : Project)
| CONFIRM_BULK_DELETE (projectIds : list string).

Global Instance TaskStatus_eq_dec : EqDecision TaskStatus.
Proof. solve_decision. Defined.
Global Instance TaskPriority_eq_dec : EqDecision TaskPriority.
Proof. solve_decision. Defined.
Global Instance Task_eq_dec : EqDecision Task.
Proof. solve_decision. Defined.

(** ** The clock

    [Date.now()] and [new Date().toISOString()] are the handlers' only
    inputs from outside. A handler is given the readings it will see: [now k]
    is what the clock shows at its k-th record construction. *)
Record Clock := mkClock {
  now_ms : Z;
  now_iso : string
}.

(** [createActivityLog]; the [projectId] argument is not used by the
    source either. *)
Definition createActivityLog (projectId : string) (action : string) (clk : Clock)
  : ActivityLog :=
  {| log_id := "log_" +:+ pretty (now_ms clk);
     log_timestamp := now_iso clk;
     log_author := "You";
     log_action := action |}.

(** [{ ...log, [projectId]: [...(log[projectId] || []), entry] }]. *)
Definition append_log (projectId : string) (entry : ActivityLog)
           (log : gmap string (list ActivityLog)) : gmap string (list ActivityLog) :=
  <[projectId := default [] (log !! projectId) ++ [entry]]> log.

(** ** Items with an id and an order

    [handleReorder] is generic in [T extends {id: string, order: number}];
    the sort [.sort((a, b) => a.order - b.order)] and the renumbering
    [.map((t, index) => ({ ...t, order: index }))] appear in the same form in
    [handleSaveTask]. *)
Class Ordered (T : Type) := {
  item_id : T -> string;
  item_order : T -> Z;
  with_order : Z -> T -> T;       (* [{ ...item, order }] *)
  with_order_id : forall n x, item_id (with_order n x) = item_id x;
  with_order_order : forall n x, item_order (with_order n x) = n
}.

Definition task_with_order (n : Z) (t : Task) : Task :=
  {| task_id := task_id t; task_projectId := task_projectId t;
     task_parentId := task_parentId t; task_title := task_title t;
     task_description := task_description t; task_status := task_status t;
     task_priority := task_priority t; task_startDate := task_startDate t;
     task_dueDate := task_dueDate t; task_tags := task_tags t;
     task_isFocused := task_isFocused t; task_createdAt := task_createdAt t;
     task_order := n |}.

Definition project_with_order (n : Z) (p : Project) : Project :=
  {| project_id := project_id p; project_name := project_name p;
     project_description := project_description p;
     project_createdAt := project_createdAt p; project_tags := project_tags p;
     project_order := n; project_priority := project_priority p;
     project_isArchived := project_isArchived p; project_color := project_color p;
     project_members := project_members p; project_goals := project_goals p;
     project_links := project_links p |}.

Global Instance Task_Ordered : Ordered Task :=
  {| item_id := task_id; item_order := task_order; with_order := task_with_order;
     with_order_id := fun _ _ => eq_refl; with_order_order := fun _ _ => eq_refl |}.

Global Instance Project_Ordered : Ordered Project :=
  {| item_id := project_id; item_order := project_order;
     with_order := project_with_order;
     with_order_id := fun _ _ => eq_refl; with_order_order := fun _ _ => eq_refl |}.

Section Reorder.
Context {T : Type} `{Ordered T}.

(** [Array.prototype.sort] is stable, and with the comparator
    [a.order - b.order] its result is the one stable ordering by [order];
    insertion from the right computes it. *)
Fixpoint insert_by_order (x : T) (l : list T) : list T :=
  match l with
  | [] => [x]
  | y :: rest =>
      if bool_decide (item_order x <= item_order y)
      then x :: y :: rest
      else y :: insert_by_order x rest
  end.

Definition sort_by_order (l : list T) : list T :=
  foldr insert_by_order [] l.

(** [.map((item, index) => ({ ...item, order: index }))]. *)
Definition renumber (l : list T) : list T :=
  imap (fun index item => with_order (Z.of_nat index) item) l.

Inductive DropPosition := top | bottom.

Definition handleReorder (draggedId targetId : string) (items : list T)
           (position : DropPosition) : list T :=
  match List.find (fun p => String.eqb (item_id p) draggedId) items with
  | None => items
  | Some draggedItem =>
      let reorderedList :=
        sort_by_order (filter (fun p => item_id p <> draggedId) items) in
      match list_find (fun p => item_id p = targetId) reorderedList with
      | None => items
      | Some (targetIndex, _) =>
          let targetIndex :=
            match position with
            | bottom => S targetIndex
            | top => targetIndex
            end in
          (* [reorderedList.splice(targetIndex, 0, draggedItem)] *)
          renumber (take targetIndex reorderedList ++ draggedItem
                      :: drop targetIndex reorderedList)
      end
  end.


End Reorder.

(** [handleReorderProjects]: the one place the application calls
    [handleReorder], with the default position. *)
Definition handleReorderProjects (draggedId targetId : string) (current : AppState)
  : AppState :=
  {| projects := handleReorder draggedId targetId (projects current) top;
     tasks := tasks current;
     comments := comments current;
     activityLog := activityLog current |}.

(** ** Numbers

    An [order] is a JavaScript number, a double. The values held here are
    integers that a double holds, and the only arithmetic the handlers do on an order is
    [max + 1] in the two create paths. Up to [2^53] in size the sum is
    exact; beyond, it is rounded to the nearest double, a tie going to the
    even significand: from [2^53] the sum is [2^53] again. *)
Definition plus_one (x : Z) : Z :=
  if bool_decide (-9007199254740992 <= x < 9007199254740992) then x + 1
  else if bool_decide (Z.abs x < 18014398509481984)
       then (if Z.even (x / 2) then x else x + 2)
       else x.

(** ** Task handlers *)

(** [t.projectId === projectId && t.parentId === parentId]. *)
Definition in_group (projectId : string) (parentId : option string) (t : Task) : Prop :=
  task_projectId t = projectId /\ task_parentId t = parentId.

Global Instance in_group_dec projectId parentId t : Decision (in_group projectId parentId t).
Proof. unfold in_group. apply _. Defined.

(** [{ ...originalTask, ...taskData }]. *)
Definition merge_task_data (t : Task) (d : TaskData) : Task :=
  {| task_id := task_id t; task_projectId := task_projectId t;
     task_parentId := task_parentId t; task_title := data_title d;
     task_description := data_description d; task_status := data_status d;
     task_priority := data_priority d; task_startDate := data_startDate d;
     task_dueDate := data_dueDate d; task_tags := data_tags d;
     task_isFocused := task_isFocused t; task_createdAt := task_createdAt t;
     task_order := task_order t |}.

(** [{ ...taskWithData, projectId: newProjectId, parentId: newParentId }]. *)
Definition task_moved_to (projectId : string) (parentId : option string) (t : Task) : Task :=
  {| task_id := task_id t; task_projectId := projectId;
     task_parentId := parentId; task_title := task_title t;
     task_description := task_description t; task_status := task_status t;
     task_priority := task_priority t; task_startDate := task_startDate t;
     task_dueDate := task_dueDate t; task_tags := task_tags t;
     task_isFocused := task_isFocused t; task_createdAt := task_createdAt t;
     task_order := task_order t |}.

(** [new Map(oldSiblings.map(t => [t.id, t]))]: a later entry with the same
    key replaces an earlier one. *)
Definition id_map (l : list Task) : gmap string Task :=
  foldl (fun m t => <[task_id t := t]> m) ∅ l.

Definition edited_action (d : TaskData) : string :=
  "edited task " +:+ dquote +:+ data_title d +:+ dquote +:+ ".".
Definition moved_action (d : TaskData) : string :=
  "moved task " +:+ dquote +:+ data_title d +:+ dquote +:+ " into this project.".
Definition created_action (d : TaskData) : string :=
  "created task " +:+ dquote +:+ data_title d +:+ dquote +:+ ".".
Definition deleted_action (t : Task) : string :=
  "deleted task " +:+ dquote +:+ task_title t +:+ dquote +:+ ".".

(** The updater [handleSaveTask] passes to [setState]. [modalState] is
    ambient in the source and an argument here. *)
Definition handleSaveTask (modalState : ModalState) (taskData : TaskData)
           (newProjectId : string) (newParentId : option string)
           (now : nat -> Clock) (current : AppState) : AppState :=
  match modalState with
  | EDIT_TASK originalTask =>
      let logAction := edited_action taskData in
      let hasMoved :=
        bool_decide (task_projectId originalTask <> newProjectId
                     \/ task_parentId originalTask <> newParentId) in
      let taskWithData := merge_task_data originalTask taskData in
      if hasMoved then
        let tempTask := task_moved_to newProjectId newParentId taskWithData in
        let otherTasks :=
          filter (fun t => task_id t <> task_id originalTask) (tasks current) in
        let oldSiblings :=
          renumber
            (sort_by_order
               (filter (in_group (task_projectId originalTask)
                                 (task_parentId originalTask)) otherTasks)) in
        let oldSiblingMap := id_map oldSiblings in
        let newSiblings := filter (in_group newProjectId newParentId) otherTasks in
        let taskWithNewOrder :=
          task_with_order (Z.of_nat (length newSiblings)) tempTask in
        let finalTasks :=
          ((fun t => default t (oldSiblingMap !! task_id t)) <$> otherTasks)
            ++ [taskWithNewOrder] in
        let projectChanged :=
          bool_decide (task_projectId originalTask <> newProjectId) in
        let movedLog :=
          if projectChanged
          then append_log newProjectId
                 (createActivityLog newProjectId (moved_action taskData) (now 0%nat))
                 (activityLog current)
          else activityLog current in
        let logEdit :=
          createActivityLog (task_projectId originalTask) logAction
            (now (if projectChanged then 1%nat else 0%nat)) in
        {| projects := projects current;
           tasks := finalTasks;
           comments := comments current;
           activityLog := append_log (task_projectId originalTask) logEdit movedLog |}
      else
        let finalTasks :=
          (fun t => if bool_decide (task_id t = task_id originalTask)
                    then taskWithData else t) <$> tasks current in
        let logEdit :=
          createActivityLog (task_projectId originalTask) logAction (now 0%nat) in
        {| projects := projects current;
           tasks := finalTasks;
           comments := comments current;
           activityLog :=
             append_log (task_projectId originalTask) logEdit (activityLog current) |}
  | CREATE_TASK _ _ =>
      let logAction := created_action taskData in
      let siblingTasks := filter (in_group newProjectId newParentId) (tasks current) in
      let newTask :=
        {| task_id := "task_" +:+ pretty (now_ms (now 0%nat));
           task_projectId := newProjectId;
           task_parentId := newParentId;
           task_title := data_title taskData;
           task_description := data_description taskData;
           task_status := data_status taskData;
           task_priority := data_priority taskData;
           task_startDate := data_startDate taskData;
           task_dueDate := data_dueDate taskData;
           task_tags := data_tags taskData;
           task_isFocused := false;
           task_createdAt := now_iso (now 0%nat);
           task_order :=
             plus_one (foldl (fun max t => Z.max (task_order t) max) (-1)
                         siblingTasks) |} in
      let log := createActivityLog newProjectId logAction (now 1%nat) in
      {| projects := projects current;
         tasks := tasks current ++ [newTask];
         comments := comments current;
         activityLog := append_log newProjectId log (activityLog current) |}
  | _ => current
  end.

(** One pass of [current.tasks.forEach(...)] over the set being built:
    a task is added when its [parentId] is truthy (neither [null] nor the
    empty string) and already in the set. The set grows during the pass. *)
Definition has_parent_in (s : gset string) (task : Task) : bool :=
  match task_parentId task with
  | Some p => negb (String.eqb p EmptyString) && bool_decide (p ∈ s)
  | None => false
  end.

Definition mark_children (tasks : list Task) (s : gset string) : gset string :=
  foldl (fun acc task => if has_parent_in acc task then {[task_id task]} ∪ acc else acc)
        s tasks.

(** The [while (search)] loop; [None] when the fuel runs out before the set
    stops growing. *)
Fixpoint collect_descendants (fuel : nat) (tasks : list Task) (s : gset string)
  : option (gset string) :=
  match fuel with
  | O => None
  | S fuel' =>
      let s' := mark_children tasks s in
      if bool_decide (size s < size s')%nat
      then collect_descendants fuel' tasks s'
      else Some s'
  end.

(** The updater [handleDeleteTask] passes to [setState]. *)
Definition handleDeleteTask (fuel : nat) (taskId : string) (now : nat -> Clock)
           (current : AppState) : option AppState :=
  match List.find (fun t => String.eqb (task_id t) taskId) (tasks current) with
  | None => Some current
  | Some taskToDelete =>
      match collect_descendants fuel (tasks current) {[taskId]} with
      | None => None
      | Some tasksToDelete =>
          let log := createActivityLog (task_projectId taskToDelete)
                       (deleted_action taskToDelete) (now 0%nat) in
          Some {| projects := projects current;
                  tasks := filter (fun t => task_id t ∉ tasksToDelete) (tasks current);
                  comments := comments current;
                  activityLog :=
                    append_log (task_projectId taskToDelete) log (activityLog current) |}
      end
  end.

(** ** Dense sibling orders

    The [order] values of the tasks that share [(projectId, parentId)], in
    list sequence, and the property that they are [0 .. n-1] each once. *)
Definition group_orders (projectId : string) (parentId : option string)
           (l : list Task) : list Z :=
  task_order <$> filter (in_group projectId parentId) l.

Definition dense (l : list Task) : Prop :=
  forall projectId parentId,
    group_orders projectId parentId l
    ≡ₚ Z.of_nat <$> seq 0 (length (group_orders projectId parentId l)).

(** ** A small state used in the examples

    Project [proj_1] with three top-level tasks [task_a], [task_b],
    [task_c] in that order; [task_a] has the child [task_a1], which has the
    child [task_a2]. *)
Definition sample_task (id : string) (parent : option string) (title : string)
           (order : Z) : Task :=
  {| task_id := id; task_projectId := "proj_1"; task_parentId := parent;
     task_title := title; task_description := EmptyString; task_status := ToDo;
     task_priority := Medium; task_startDate := None; task_dueDate := None;
     task_tags := []; task_isFocused := false;
     task_createdAt := "2024-01-01T00:00:00.000Z"; task_order := order |}.

Definition task_a := sample_task "task_a" None "a" 0.
Definition task_b := sample_task "task_b" None "b" 1.
Definition task_c := sample_task "task_c" None "c" 2.
Definition task_a1 := sample_task "task_a1" (Some "task_a") "a1" 0.
Definition task_a2 := sample_task "task_a2" (Some "task_a1") "a2" 0.

Definition sample_project : Project :=
  {| project_id := "proj_1"; project_name := "one";
     project_description := EmptyString;
     project_createdAt := "2024-01-01T00:00:00.000Z"; project_tags := [];
     project_order := 0; project_priority := Medium; project_isArchived := false;
     project_color := "#334155"; project_members := []; project_goals := [];
     project_links := [] |}.

Definition sample_state : AppState :=
  {| projects := [sample_project];
     tasks := [task_a; task_b; task_c; task_a1; task_a2];
     comments := ∅;
     activityLog := ∅ |}.

Definition sample_clock (k : nat) : Clock :=
  {| now_ms := 1700000000000 + Z.of_nat k; now_iso := "2023-11-14T22:13:20.000Z" |}.

(** What the task form submits for a task when no field is touched. *)
Definition form_data (t : Task) : TaskData :=
  {| data_title := task_title t; data_description := task_description t;
     data_status := task_status t; data_priority := task_priority t;
     data_startDate := task_startDate t; data_dueDate := task_dueDate t;
     data_tags := task_tags t |}.

Definition sample_data : TaskData := form_data task_b.

(** ** Raw states used in the examples *)

(** A backup written by an early version: no [comments], no [activityLog],
    and a project whose [color] is the empty string. *)
Definition old_backup : value :=
  VObj [("projects",
         VArr [VObj [("id", VStr "proj_1"); ("name", VStr "one");
                     ("color", VStr EmptyString)]]);
        ("tasks", VArr [])].

Definition raw_task (startDate : value) : value :=
  VObj [("id", VStr "task_1"); ("projectId", VStr "proj_1"); ("parentId", VNull);
        ("title", VStr "write"); ("description", VStr EmptyString);
        ("status", VStr "To Do"); ("priority", VStr "Medium");
        ("startDate", startDate); ("dueDate", VNull); ("tags", VArr []);
        ("isFocused", VBool false); ("createdAt", VStr "2024-01-01T00:00:00.000Z");
        ("order", VNum 0)].

Definition raw_project : value :=
  VObj [("id", VStr "proj_1"); ("name", VStr "one"); ("description", VStr EmptyString);
        ("createdAt", VStr "2024-01-01T00:00:00.000Z"); ("tags", VArr []);
        ("order", VNum 0); ("priority", VStr "Medium"); ("isArchived", VBool false);
        ("color", VStr "#334155"); ("members", VArr []); ("goals", VArr []);
        ("links", VArr [])].

(** A state in the current schema with one task that has no start date
    ([startDate: null], what the task form saves for an empty date). *)
Definition current_state_null_start : value :=
  VObj [("projects", VArr [raw_project]);
        ("tasks", VArr [raw_task VNull]);
        ("comments", VObj []);
        ("activityLog", VObj [])].

(** ** Vocabulary of the statements

    Notions the theorems of Part II are stated with. *)

(** A state and a candidate that differ only in the order in which one
    task lists its keys. *)
Definition state_id_first : value :=
  VObj [("projects", VArr []);
        ("tasks", VArr [VObj [("id", VStr "task_1"); ("title", VStr "write")]]);
        ("comments", VObj []);
        ("activityLog", VObj [])].

Definition state_title_first : value :=
  VObj [("projects", VArr []);
        ("tasks", VArr [VObj [("title", VStr "write"); ("id", VStr "task_1")]]);
        ("comments", VObj []);
        ("activityLog", VObj [])].

(** The parent a task points to, as [handleDeleteTask] reads it: a
    [parentId] that is [null] or the empty string is no link (the
    dashboard lists such tasks at the top level, [!task.parentId]). *)
Definition parent_link (t : Task) : option string :=
  match task_parentId t with
  | Some p => if String.eqb p EmptyString then None else Some p
  | None => None
  end.

(** [x] is the id of a transitive descendant of [root]: a task whose chain
    of parent links reaches [root]. *)
Inductive descendant (all : list Task) (root : string) : string -> Prop :=
| desc_child t :
    t ∈ all -> parent_link t = Some root -> descendant all root (task_id t)
| desc_deeper t p :
    t ∈ all -> parent_link t = Some p -> descendant all root p ->
    descendant all root (task_id t).

(** The ids a delete of [root] is meant to remove. *)
Definition doomed (all : list Task) (root x : string) : Prop :=
  x = root \/ descendant all root x.

(** The renumbering step of a move, for the tasks [l] that stay and the
    group [(projectId, parentId)] the moved task leaves. *)
Definition compact_key (projectId : string) (parentId : option string)
           (l : list Task) : gmap string Task :=
  id_map (renumber (sort_by_order (filter (in_group projectId parentId) l))).

(** [oldSiblingMap.get(t.id) || t]. *)
Definition relabel (projectId : string) (parentId : option string)
           (l : list Task) (t : Task) : Task :=
  default t (compact_key projectId parentId l !! task_id t).


(** The enumeration order of property keys: array indices first and
    ascending, the other keys after them in any order. *)
Definition key_before (a b : string) : Prop :=
  match array_index a, array_index b with
  | Some m, Some n => (m < n)%N
  | Some _, None => True
  | None, Some _ => False
  | None, None => True
  end.

(** Each key once, array indices first and ascending. *)
Definition wf_props (props : list (string * value)) : Prop :=
  NoDup props.*1 /\ StronglySorted key_before props.*1.

(** Every character of [s] is a decimal digit. *)
Definition all_digits (s : string) : Prop :=
  forall acc, is_Some (digits_value s acc).

(** What [migrate_project] builds on top of the spread. *)
Definition with_project_defaults (priority isArchived color members goals links : value)
           (base : list (string * value)) : list (string * value) :=
  obj_set "links" (or_else links (VArr []))
    (obj_set "goals" (or_else goals (VArr []))
       (obj_set "members" (or_else members (VArr []))
          (obj_set "color" (or_else color (VStr default_color))
             (obj_set "isArchived" (or_else isArchived (VBool false))
                (obj_set "priority" (or_else priority (VStr "Medium")) base))))).

(** The [reduce] of the create path: the largest [order] in [l], or [a]. *)
Definition max_order (a : Z) (l : list Task) : Z :=
  foldl (fun max t => Z.max (task_order t) max) a l.

(** A call of [handleSaveTask] that the form can make on the state: an edit
    of a task that is in the state, or a create whose generated id is new,
    on a task array that can take one more element (a JavaScript array
    holds at most [2^32 - 1]). *)
Definition save_accepted (modalState : ModalState) (now : nat -> Clock)
           (current : AppState) : Prop :=
  match modalState with
  | EDIT_TASK originalTask => originalTask ∈ tasks current
  | CREATE_TASK _ _ =>
      ("task_" +:+ pretty (now_ms (now 0%nat)) ∉ task_id <$> tasks current)
      /\ Z.of_nat (length (tasks current)) < 4294967295
  | _ => True
  end.

(** Task ids are unique and every sibling group is dense. *)
Definition ordered_state (s : AppState) : Prop :=
  NoDup (task_id <$> tasks s) /\ dense (tasks s).

(** A sequence of task-form submissions. *)
Record SaveCall := mkSaveCall {
  call_modalState : ModalState;
  call_taskData : TaskData;
  call_projectId : string;
  call_parentId : option string;
  call_now : nat -> Clock
}.

Definition apply_save (c : SaveCall) (s : AppState) : AppState :=
  handleSaveTask (call_modalState c) (call_taskData c) (call_projectId c)
    (call_parentId c) (call_now c) s.

Fixpoint saves_accepted (cs : list SaveCall) (s : AppState) : Prop :=
  match cs with
  | [] => True
  | c :: rest =>
      save_accepted (call_modalState c) (call_now c) s
      /\ saves_accepted rest (apply_save c s)
  end.

(** ** Project handlers ([src/App.tsx]) *)

Global Instance ProjectRole_eq_dec : EqDecision ProjectRole.
Proof. solve_decision. Defined.
Global Instance Member_eq_dec : EqDecision Member.
Proof. solve_decision. Defined.
Global Instance Goal_eq_dec : EqDecision Goal.
Proof. solve_decision. Defined.
Global Instance Link_eq_dec : EqDecision Link.
Proof. solve_decision. Defined.
Global Instance Project_eq_dec : EqDecision Project.
Proof. solve_decision. Defined.

(** What the project form hands to [handleSaveProject]:
    [Omit<Project, 'id' | 'createdAt' | 'order' | 'isArchived'>]. *)
Record ProjectData := mkProjectData {
  pdata_name : string;
  pdata_description : string;
  pdata_tags : list string;
  pdata_priority : TaskPriority;
  pdata_color : string;
  pdata_members : list Member;
  pdata_goals : list Goal;
  pdata_links : list Link
}.

(** [{ ...modalState.project, ...projectData }]. *)
Definition merge_project_data (p : Project) (d : ProjectData) : Project :=
  {| project_id := project_id p; project_name := pdata_name d;
     project_description := pdata_description d;
     project_createdAt := project_createdAt p; project_tags := pdata_tags d;
     project_order := project_order p; project_priority := pdata_priority d;
     project_isArchived := project_isArchived p; project_color := pdata_color d;
     project_members := pdata_members d; project_goals := pdata_goals d;
     project_links := pdata_links d |}.

(** [{ ...p, isArchived }]. *)
Definition project_with_archived (b : bool) (p : Project) : Project :=
  {| project_id := project_id p; project_name := project_name p;
     project_description := project_description p;
     project_createdAt := project_createdAt p; project_tags := project_tags p;
     project_order := project_order p; project_priority := project_priority p;
     project_isArchived := b; project_color := project_color p;
     project_members := project_members p; project_goals := project_goals p;
     project_links := project_links p |}.

(** The updater of [handleSaveProject]: an edit when the modal is
    [EDIT_PROJECT], a create in every other case. *)
Definition handleSaveProject (modalState : ModalState) (projectData : ProjectData)
           (now : nat -> Clock) (current : AppState) : AppState :=
  match modalState with
  | EDIT_PROJECT project =>
      let updatedProject := merge_project_data project projectData in
      let log := createActivityLog (project_id updatedProject)
                   ("edited project details for " +:+ dquote
                    +:+ project_name updatedProject +:+ dquote +:+ ".") (now 0%nat) in
      {| projects :=
           (fun p => if bool_decide (project_id p = project_id project)
                     then updatedProject else p) <$> projects current;
         tasks := tasks current;
         comments := comments current;
         activityLog := append_log (project_id updatedProject) log (activityLog current) |}
  | _ =>
      let newProject :=
        {| project_id := "proj_" +:+ pretty (now_ms (now 0%nat));
           project_name := pdata_name projectData;
           project_description := pdata_description projectData;
           project_createdAt := now_iso (now 0%nat);
           project_tags := pdata_tags projectData;
           project_order :=
             plus_one (foldl (fun max p => Z.max (project_order p) max) (-1)
                         (projects current));
           project_priority := pdata_priority projectData;
           project_isArchived := false;
           project_color := pdata_color projectData;
           project_members := pdata_members projectData;
           project_goals := pdata_goals projectData;
           project_links := pdata_links projectData |} in
      let log := createActivityLog (project_id newProject)
                   ("created project " +:+ dquote +:+ project_name newProject +:+ dquote +:+ ".")
                   (now 1%nat) in
      {| projects := projects current ++ [newProject];
         tasks := tasks current;
         comments := comments current;
         activityLog := <[project_id newProject := [log]]> (activityLog current) |}
  end.

(** The deletion of one project, as [confirmDeleteProject] hands it to
    [setState] with [id] the id of [modalState.project]. *)
Definition deleteProject (id : string) (current : AppState) : AppState :=
  {| projects := filter (fun p => project_id p <> id) (projects current);
     tasks := filter (fun t => task_projectId t <> id) (tasks current);
     comments := delete id (comments current);
     activityLog := delete id (activityLog current) |}.

(** [confirmDeleteProject] returns without calling [setState] unless the
    modal is [CONFIRM_DELETE_PROJECT]; as an updater that is the identity. *)
Definition confirmDeleteProject (modalState : ModalState) (current : AppState)
  : AppState :=
  match modalState with
  | CONFIRM_DELETE_PROJECT project => deleteProject (project_id project) current
  | _ => current
  end.

Definition handleToggleArchive (projectId : string) (now : nat -> Clock)
           (current : AppState) : AppState :=
  match List.find (fun p => String.eqb (project_id p) projectId) (projects current) with
  | None => current
  | Some project =>
      let isArchiving := negb (project_isArchived project) in
      let log := createActivityLog projectId
                   ((if isArchiving then "archived project " else "restored project ")
                    +:+ dquote +:+ project_name project +:+ dquote +:+ ".") (now 0%nat) in
      {| projects :=
           (fun p => if bool_decide (project_id p = projectId)
                     then project_with_archived isArchiving p else p)
             <$> projects current;
         tasks := tasks current;
         comments := comments current;
         activityLog := append_log projectId log (activityLog current) |}
  end.

(** [confirmBulkDelete]: [idsToDelete] is a [Set] built from
    [modalState.projectIds]. *)
Definition bulkDelete (projectIds : list string) (current : AppState) : AppState :=
  let idsToDelete : gset string := list_to_set projectIds in
  {| projects := filter (fun p => project_id p ∉ idsToDelete) (projects current);
     tasks := filter (fun t => task_projectId t ∉ idsToDelete) (tasks current);
     comments := filter (fun kv => kv.1 ∉ idsToDelete) (comments current);
     activityLog := filter (fun kv => kv.1 ∉ idsToDelete) (activityLog current) |}.

Definition confirmBulkDelete (modalState : ModalState) (current : AppState) : AppState :=
  match modalState with
  | CONFIRM_BULK_DELETE projectIds => bulkDelete projectIds current
  | _ => current
  end.

(** [handleBulkArchive]: the [map] over the projects also appends to the
    log it carries along, one clock reading per archived project. *)
Definition bulkArchiveStep (idsToArchive : gset string) (now : nat -> Clock)
           (acc : list Project * gmap string (list ActivityLog) * nat) (p : Project)
  : list Project * gmap string (list ActivityLog) * nat :=
  let '(mapped, updatedActivity, k) := acc in
  if bool_decide (project_id p ∈ idsToArchive) then
    let log := createActivityLog (project_id p)
                 ("archived project " +:+ dquote +:+ project_name p +:+ dquote +:+ ".") (now k) in
    (mapped ++ [project_with_archived true p],
     append_log (project_id p) log updatedActivity, S k)
  else (mapped ++ [p], updatedActivity, k).

Definition handleBulkArchive (projectIds : list string) (now : nat -> Clock)
           (current : AppState) : AppState :=
  let idsToArchive : gset string := list_to_set projectIds in
  let '(updatedProjects, updatedActivity, _) :=
    foldl (bulkArchiveStep idsToArchive now) ([], activityLog current, 0%nat)
          (projects current) in
  {| projects := updatedProjects;
     tasks := tasks current;
     comments := comments current;
     activityLog := updatedActivity |}.

(** ** The remaining task handlers *)

Definition status_text (s : TaskStatus) : string :=
  match s with
  | ToDo => "To Do"
  | InProgress => "In Progress"
  | Done => "Done"
  end.

(** [{ ...t, status }]. *)
Definition task_with_status (s : TaskStatus) (t : Task) : Task :=
  {| task_id := task_id t; task_projectId := task_projectId t;
     task_parentId := task_parentId t; task_title := task_title t;
     task_description := task_description t; task_status := s;
     task_priority := task_priority t; task_startDate := task_startDate t;
     task_dueDate := task_dueDate t; task_tags := task_tags t;
     task_isFocused := task_isFocused t; task_createdAt := task_createdAt t;
     task_order := task_order t |}.

(** [{ ...t, isFocused: !t.isFocused }]. *)
Definition task_toggle_focus (t : Task) : Task :=
  {| task_id := task_id t; task_projectId := task_projectId t;
     task_parentId := task_parentId t; task_title := task_title t;
     task_description := task_description t; task_status := task_status t;
     task_priority := task_priority t; task_startDate := task_startDate t;
     task_dueDate := task_dueDate t; task_tags := task_tags t;
     task_isFocused := negb (task_isFocused t); task_createdAt := task_createdAt t;
     task_order := task_order t |}.

(** [handleUpdateTaskStatus]: the guard reads [state], the updater gets
    [current]; both are the current snapshot of the store. When the guard
    returns early [setState] is not called, which as an updater is the
    identity. *)
Definition handleUpdateTaskStatus (taskId : string) (status : TaskStatus)
           (now : nat -> Clock) (current : AppState) : AppState :=
  match List.find (fun t => String.eqb (task_id t) taskId) (tasks current) with
  | None => current
  | Some task =>
      if bool_decide (task_status task = status) then current
      else
        let log := createActivityLog (task_projectId task)
                     ("changed status of task " +:+ dquote +:+ task_title task +:+ dquote +:+ " to "
                      +:+ status_text status +:+ ".") (now 0%nat) in
        {| projects := projects current;
           tasks := (fun t => if bool_decide (task_id t = taskId)
                              then task_with_status status t else t) <$> tasks current;
           comments := comments current;
           activityLog := append_log (task_projectId task) log (activityLog current) |}
  end.

(** The updater passed as [onToggleTaskFocus]. *)
Definition onToggleTaskFocus (taskId : string) (current : AppState) : AppState :=
  {| projects := projects current;
     tasks := (fun t => if bool_decide (task_id t = taskId)
                        then task_toggle_focus t else t) <$> tasks current;
     comments := comments current;
     activityLog := activityLog current |}.

Definition handleAddComment (projectId : string) (content : string)
           (now : nat -> Clock) (current : AppState) : AppState :=
  let newComment :=
    {| comment_id := "comm_" +:+ pretty (now_ms (now 0%nat));
       comment_projectId := projectId;
       comment_authorName := "You";
       comment_authorAvatarUrl := "https://i.pravatar.cc/40?u=current_user";
       comment_content := content;
       comment_createdAt := now_iso (now 0%nat) |} in
  let log := createActivityLog projectId "added a comment." (now 1%nat) in
  {| projects := projects current;
     tasks := tasks current;
     comments :=
       <[projectId := default [] (comments current !! projectId) ++ [newComment]]>
         (comments current);
     activityLog := append_log projectId log (activityLog current) |}.

(** ** Vocabulary for the store *)

Section StoreVocabulary.
Context {T : Type}.
Variable stringify : T -> option string.

(** [setState] called with each of [pushed] in turn. *)
Definition push_all (pushed : list T) (u : Undoable T) : Undoable T :=
  foldl (fun v s => setState stringify s v) u pushed.

(** Each state of [pushed] serialises differently from the one before it,
    the first from [prev]: none of the calls is skipped as a duplicate. *)
Fixpoint each_differs (prev : T) (pushed : list T) : Prop :=
  match pushed with
  | [] => True
  | s :: rest => stringify s <> stringify prev /\ each_differs s rest
  end.

End StoreVocabulary.

(** ** The task form ([src/components/TaskForm.tsx]) *)

(** The [for (const child of children)] of [getDescendants], on the pair
    of the set [descendants] and the [queue]: a child not yet in the set is
    added to it and pushed. *)
Definition visit_children (children : list Task) (acc : gset string * list string)
  : gset string * list string :=
  foldl (fun acc child =>
           if bool_decide (task_id child ∈ acc.1) then acc
           else ({[task_id child]} ∪ acc.1, acc.2 ++ [task_id child]))
        acc children.

(** The [while (queue.length > 0)] loop; [None] when the fuel runs out
    before the queue is empty. *)
Fixpoint getDescendants_loop (fuel : nat) (tasks : list Task)
         (descendants : gset string) (queue : list string) : option (gset string) :=
  match fuel with
  | O => None
  | S fuel' =>
      match queue with
      | [] => Some descendants
      | currentId :: queue' =>
          let children := filter (fun t => task_parentId t = Some currentId) tasks in
          let next := visit_children children (descendants, queue') in
          getDescendants_loop fuel' tasks next.1 next.2
      end
  end.

Definition getDescendants (fuel : nat) (taskId : string) (tasks : list Task)
  : option (gset string) :=
  getDescendants_loop fuel tasks ∅ [taskId].

(** The [useMemo] that computes [possibleParentTasks]. *)
Definition possibleParentTasks (fuel : nat) (taskToEdit : option Task)
           (newProjectId : string) (allTasks : list Task) : option (list Task) :=
  match taskToEdit with
  | None => Some []
  | Some task =>
      descendants ← getDescendants fuel (task_id task) allTasks;
      Some (filter (fun t => task_projectId t = newProjectId
                             /\ task_id t <> task_id task
                             /\ task_id t ∉ descendants) allTasks)
  end.

(** [x] is the id of a task below [root]: its chain of [parentId]s, read
    as [getDescendants] reads them ([t.parentId === currentId]), reaches
    [root]. *)
Inductive under (all : list Task) (root : string) : string -> Prop :=
| under_child t :
    t ∈ all -> task_parentId t = Some root -> under all root (task_id t)
| under_deeper t p :
    t ∈ all -> task_parentId t = Some p -> under all root p ->
    under all root (task_id t).

(** What the "Under Task" select of the form can hold after the user has
    picked from it: no parent, or one of the tasks offered. *)
Definition offered_parent (offered : list Task) (newParentId : option string) : Prop :=
  match newParentId with
  | None => True
  | Some p => p ∈ task_id <$> offered
  end.

(** ** Import and export of a backup ([src/components/Header.tsx]) *)

Inductive ImportResult := Imported | Declined | Failed.

Definition Array_isArray (v : value) : bool :=
  match v with
  | VArr _ => true
  | _ => false
  end.

(** [null] or [undefined]: the values a property read throws on. *)
Definition nullish (v : value) : bool :=
  match v with
  | VUndef | VNull => true
  | _ => false
  end.

(** The object [handleExport] serialises: [{ projects, tasks }]. *)
Definition handleExport_data (projects tasks : value) : value :=
  VObj [("projects", projects); ("tasks", tasks)].

(** [reader.onload] of [handleFileChange], on the store of [App].
    [parsed] is what [JSON.parse(text)] returns, [None] when it throws;
    [confirmed] is the answer to [window.confirm]; [onImport] is
    [handleImportData], which calls [resetState] last, so an exception
    while it builds the migrated data leaves the store alone. Every
    exception inside the [try] ends in the failure alert. *)
Definition handleFileChange (parsed : option value) (confirmed : bool)
           (u : Undoable value) : Undoable value * ImportResult :=
  match parsed with
  | None => (u, Failed)
  | Some data =>
      match get data "projects" with
      | None => (u, Failed)
      | Some ps =>
          if Array_isArray ps then
            match get data "tasks" with
            | None => (u, Failed)
            | Some ts =>
                if Array_isArray ts then
                  if confirmed then
                    match handleImportData data with
                    | Some migratedData => (resetState migratedData u, Imported)
                    | None => (u, Failed)
                    end
                  else (u, Declined)
                else (u, Failed)
            end
          else (u, Failed)
      end
  end.

(** ** Persistence ([useLocalStorage], and its use in [App])

    [localStorage] is a map from keys to texts. [JSON.parse] is a parameter:
    [None] stands for the [SyntaxError] it throws on a text that is not
    JSON. *)

Section LocalStorage.
Variable parse : string -> option value.

(** The initialiser of [useState] in [useLocalStorage]: an item that is
    missing or the empty string gives the initial value, and so does one
    that does not parse. *)
Definition useLocalStorage_init (storage : gmap string string) (key : string)
           (initialValue : value) : value :=
  match storage !! key with
  | Some item =>
      if String.eqb item EmptyString then initialValue
      else default initialValue (parse item)
  | None => initialValue
  end.

(** The effect of [useLocalStorage]. [setItem] stores the text of its
    argument, which for [undefined] is ["undefined"]; it is taken to
    succeed (an exception it throws is caught and logged, and the storage
    stays as it was). *)
Definition useLocalStorage_effect (key : string) (initialValue storedValue : value)
           (storage : gmap string string) : gmap string string :=
  let serializedState := JSON_stringify storedValue in
  if bool_decide (storage !! key = None)
     && bool_decide (serializedState = JSON_stringify initialValue)
  then storage
  else <[key := default "undefined" serializedState]> storage.

(** The state [App] passes to [useLocalStorage] as initial value. *)
Definition empty_state : value :=
  VObj [("projects", VArr []); ("tasks", VArr []); ("comments", VObj []);
        ("activityLog", VObj [])].


(** [items.forEach(f)] with a callback that may throw; on a value that is
    not an array the method does not exist and the call throws. *)
Fixpoint each_item (f : value -> option unit) (items : list value) : option unit :=
  match items with
  | [] => Some tt
  | x :: rest =>
      match f x with
      | Some _ => each_item f rest
      | None => None
      end
  end.

Definition array_forEach (f : value -> option unit) (v : value) : option unit :=
  match v with
  | VArr items => each_item f items
  | _ => None
  end.

(** [item.tags.forEach(t => tagSet.add(t))]. Like the names [get] is
    written for, [tags] is no property of an array, a string, a number or
    a boolean. *)
Definition add_tags (item : value) : option unit :=
  tags ← get item "tags";
  array_forEach (fun _ => Some tt) tags.

(** The first render, as far as it is followed here: [App] reads
    [state.projects] and [state.tasks] for the props of [Header], whose own
    render reads neither, and [Dashboard] builds its tag list from both.
    [None] is a [TypeError] thrown while rendering. What [Dashboard]
    renders below the tag list is not followed. *)
Definition App_render (state : value) : option unit :=
  projects ← get state "projects";
  tasks ← get state "tasks";
  _ ← array_forEach add_tags projects;
  array_forEach add_tags tasks.

(** The first effect of [App] on the persisted state and the store: both
    are migrated when needed. [None] is a [TypeError] that the effect does
    not catch. *)
Definition App_effects (persistedState : value) : option (value * Undoable value) :=
  let store := useUndoableState persistedState in
  needed ← needsMigration persistedState;
  if (needed : bool) then
    migrated ← migratedState persistedState;
    Some (migrated, resetState migrated store)
  else Some (persistedState, store).

(** How a start of [App] goes. [RenderThrows]: the first render throws in
    [App] or in the tag list of [Dashboard]; nothing is shown and no effect
    runs. [RenderReaches shown effects]: the first render, which is of the
    state [shown], gets past the tag list, and [effects] is what the first
    effect of [App] leaves once the rest of that render has returned as
    well: the persisted state and the store, or [None]. *)
Inductive Startup : Type :=
  | RenderThrows
  | RenderReaches (shown : value) (effects : option (value * Undoable value)).

(** The start of [App]: the persisted state is read, the store is created
    on it and its state is rendered; the effects come after the render. *)
Definition App_start (storage : gmap string string) : Startup :=
  let persistedState := useLocalStorage_init storage "focusflow_data" empty_state in
  match App_render persistedState with
  | None => RenderThrows
  | Some _ => RenderReaches persistedState (App_effects persistedState)
  end.

End LocalStorage.

(** A state whose only task has the order [2^53], the first integer from
    which [max + 1] is not exact. *)
Definition crowded_state : AppState :=
  {| projects := [sample_project];
     tasks := [sample_task "task_top" None "top" 9007199254740992];
     comments := ∅;
     activityLog := ∅ |}.

(** ** The selection of the dashboard ([Dashboard], in
    [src/components/Header.tsx]) *)

(** The updater of [handleToggleSelect]. *)
Definition handleToggleSelect (projectId : string) (prev : list string) : list string :=
  if bool_decide (projectId ∈ prev)
  then filter (fun id => id <> projectId) prev
  else prev ++ [projectId].

(** [handleSelectAll], from the selection and the projects shown. *)
Definition handleSelectAll (selectedProjects : list string) (shown : list Project)
  : list string :=
  if bool_decide (length selectedProjects = length shown)
  then []
  else project_id <$> shown.

(** ** The handlers as one type

    One constructor for each handler of [App] that calls [setState], with
    the arguments the handler reads; [perform] is the updater it passes.
    The loop of [handleDeleteTask] runs on fuel for one pass more than
    there are tasks, which is enough for it to end (lemma
    [collect_descendants_terminates]). *)
Inductive Intent :=
| SaveProject (modalState : ModalState) (projectData : ProjectData)
| DeleteProject (modalState : ModalState)
| ToggleArchive (projectId : string)
| SaveTask (modalState : ModalState) (taskData : TaskData) (newProjectId : string)
           (newParentId : option string)
| DeleteTask (taskId : string)
| UpdateTaskStatus (taskId : string) (status : TaskStatus)
| ToggleTaskFocus (taskId : string)
| ReorderProjects (draggedId targetId : string)
| AddComment (projectId content : string)
| BulkDelete (modalState : ModalState)
| BulkArchive (projectIds : list string).

Definition perform (i : Intent) (now : nat -> Clock) (s : AppState) : AppState :=
  match i with
  | SaveProject modalState projectData => handleSaveProject modalState projectData now s
  | DeleteProject modalState => confirmDeleteProject modalState s
  | ToggleArchive projectId => handleToggleArchive projectId now s
  | SaveTask modalState taskData newProjectId newParentId =>
      handleSaveTask modalState taskData newProjectId newParentId now s
  | DeleteTask taskId =>
      default s (handleDeleteTask (S (length (tasks s))) taskId now s)
  | UpdateTaskStatus taskId status => handleUpdateTaskStatus taskId status now s
  | ToggleTaskFocus taskId => onToggleTaskFocus taskId s
  | ReorderProjects draggedId targetId => handleReorderProjects draggedId targetId s
  | AddComment projectId content => handleAddComment projectId content now s
  | BulkDelete modalState => confirmBulkDelete modalState s
  | BulkArchive projectIds => handleBulkArchive projectIds now s
  end.

(** The arrays of the state are shared with the views, and the dashboard
    sorts the activity log it shows in place
    ([activityLog[project.id]?.sort(...)], [src/components/Header.tsx]): a
    render can leave the threads of the log in another sequence. Which one
    depends on the timestamps; a render is taken here as any step that
    permutes threads and changes nothing else. *)
Definition rendered (s s' : AppState) : Prop :=
  projects s' = projects s /\ tasks s' = tasks s /\ comments s' = comments s /\
  forall key, default [] (activityLog s' !! key) ≡ₚ default [] (activityLog s !! key).

(** A session: handler calls, each with the clock readings it sees, and
    renders, each with the state it leaves. *)
Inductive Step :=
| Handle (i : Intent) (now : nat -> Clock)
| Render (after : AppState).

Definition step (c : Step) (s : AppState) : AppState :=
  match c with
  | Handle i now => perform i now s
  | Render after => after
  end.

Definition run_session (steps : list Step) (s : AppState) : AppState :=
  foldl (fun st c => step c st) s steps.

(** [ok] holds of each call of a session on the state it is made on, and
    each render leaves a state a render can leave. *)
Fixpoint all_along (ok : Intent -> (nat -> Clock) -> AppState -> Prop)
         (steps : list Step) (s : AppState) : Prop :=
  match steps with
  | [] => True
  | c :: rest =>
      match c with
      | Handle i now => ok i now s
      | Render after => rendered s after
      end /\ all_along ok rest (step c s)
  end.

Definition is_call (c : Step) : Prop :=
  match c with
  | Handle _ _ => True
  | Render _ => False
  end.

(** Every call but a task deletion; a task save is one the form can make. *)
Definition keeps_order_intent (i : Intent) (now : nat -> Clock) (s : AppState) : Prop :=
  match i with
  | SaveTask modalState _ _ _ => save_accepted modalState now s
  | DeleteTask _ => False
  | _ => True
  end.

(** Every call but a project deletion; a project creation gets an id that
    has no log yet. *)
Definition keeps_log_intent (i : Intent) (now : nat -> Clock) (s : AppState) : Prop :=
  match i with
  | DeleteProject _ | BulkDelete _ => False
  | SaveProject (EDIT_PROJECT _) _ => True
  | SaveProject _ _ => activityLog s !! ("proj_" +:+ pretty (now_ms (now 0%nat))) = None
  | _ => True
  end.

(** Every call; a project save is one the form can make: an edit of a
    project that is in the state, or a create whose generated id is new,
    made while the orders in the state are below [2^53], where [max + 1]
    is exact. *)
Definition keeps_projects_intent (i : Intent) (now : nat -> Clock) (s : AppState)
  : Prop :=
  match i with
  | SaveProject (EDIT_PROJECT project) _ => project ∈ projects s
  | SaveProject _ _ =>
      ("proj_" +:+ pretty (now_ms (now 0%nat)) ∉ project_id <$> projects s)
      /\ forall q, q ∈ projects s -> project_order q < 9007199254740992
  | _ => True
  end.

(** No two projects share an id, and no two an [order]. *)
Definition projects_apart (s : AppState) : Prop :=
  NoDup (project_id <$> projects s) /\ NoDup (project_order <$> projects s).

(** Each thread of [new] starts with the thread [old] has under the same
    key. *)
Definition extends {A} (old new : gmap string (list A)) : Prop :=
  forall key, default [] (old !! key) `prefix_of` default [] (new !! key).

(** Each thread of [new] holds the entries the thread [old] has under the
    same key, as often, in whatever sequence. *)
Definition keeps_entries {A} (old new : gmap string (list A)) : Prop :=
  forall key, default [] (old !! key) ⊆+ default [] (new !! key).

(* ===================================================================== *)
(** * Part II: theorems                                                  *)
(* ===================================================================== *)

Section UndoableStateFacts.
Context {T : Type}.
Variable stringify : T -> option string.

Lemma setState_skipped (s : T) (u : Undoable T) :
  stringify s = stringify_opt stringify (state u) -> setState stringify s u = u.
Proof.
  intros Heq. unfold setState, same_serialization.
  by rewrite bool_decide_eq_true_2.
Qed.

Lemma setState_accepted_eq (s : T) (u : Undoable T) :
  accepted stringify s u ->
  setState stringify s u =
    let newHistory := take (currentIndex u + 1) (history u) ++ [s] in
    if bool_decide (50 < length newHistory)%nat
    then {| history := drop 1 newHistory;
            currentIndex := (length (drop 1 newHistory) - 1)%nat |}
    else {| history := newHistory; currentIndex := (length newHistory - 1)%nat |}.
Proof.
  intros Hacc. unfold setState, same_serialization.
  by rewrite bool_decide_eq_false_2.
Qed.

(** Below the cap an accepted [setState] cuts the history after the cursor
    and appends. *)
Lemma setState_accepted_small (s : T) (u : Undoable T) :
  wf u -> accepted stringify s u -> (currentIndex u < 49)%nat ->
  setState stringify s u =
    {| history := take (currentIndex u + 1) (history u) ++ [s];
       currentIndex := (currentIndex u + 1)%nat |}.
Proof.
  intros [Hi Hlen] Hacc Hlt. rewrite setState_accepted_eq by done. simpl.
  rewrite bool_decide_eq_false_2.
  - f_equal. rewrite length_app, length_take. simpl. lia.
  - rewrite length_app, length_take. simpl. lia.
Qed.

(** At the cap (cursor on the 50th entry) the oldest entry goes. *)
Lemma setState_accepted_full (s : T) (u : Undoable T) :
  wf u -> accepted stringify s u -> currentIndex u = 49%nat ->
  setState stringify s u =
    {| history := drop 1 (history u) ++ [s]; currentIndex := 49 |}.
Proof.
  intros [Hi Hlen] Hacc Hidx. rewrite setState_accepted_eq by done. simpl.
  assert (Hfull : length (history u) = 50%nat) by lia.
  rewrite Hidx. rewrite take_ge by lia.
  rewrite bool_decide_eq_true_2 by (rewrite length_app; simpl; lia).
  destruct (history u) as [|h0 hs] eqn:Hh; [simpl in Hfull; lia|].
  simpl in *. rewrite drop_0. f_equal.
  rewrite length_app. simpl. lia.
Qed.

Lemma setState_wf (s : T) (u : Undoable T) : wf u -> wf (setState stringify s u).
Proof.
  intros Hwf.
  destruct (decide (stringify s = stringify_opt stringify (state u))) as [Heq|Hne].
  { by rewrite setState_skipped. }
  destruct Hwf as [Hi Hlen].
  destruct (decide (currentIndex u = 49%nat)) as [H49|H49].
  - rewrite setState_accepted_full by done. unfold wf; simpl.
    rewrite length_app, length_drop. simpl. lia.
  - rewrite setState_accepted_small by (done || lia). unfold wf; simpl.
    rewrite length_app, length_take. simpl. lia.
Qed.

Lemma call_wf (c : Call T) (u : Undoable T) : wf u -> wf (call stringify c u).
Proof.
  intros Hwf. destruct c as [s|f| | |s]; simpl.
  - by apply setState_wf.
  - unfold setStateWith. destruct (state u); [by apply setState_wf|done].
  - unfold undo. case_bool_decide; [|done].
    destruct Hwf as [Hi Hlen]. unfold wf; simpl. lia.
  - unfold redo, canRedo. case_bool_decide; [|done].
    destruct Hwf as [Hi Hlen]. unfold wf; simpl. lia.
  - unfold wf; simpl. lia.
Qed.

Lemma run_wf (cs : list (Call T)) (u : Undoable T) : wf u -> wf (run stringify cs u).
Proof.
  revert u. induction cs as [|c cs IH]; intros u Hwf; simpl; [done|].
  apply IH. by apply call_wf.
Qed.

(** Every store the hook can reach keeps its cursor inside a history of at
    most 50 snapshots; in particular [state] is always defined. *)
Lemma reachable_wf (initialState : T) (cs : list (Call T)) :
  wf (run stringify cs (useUndoableState initialState)).
Proof. apply run_wf. unfold wf; simpl. lia. Qed.

Lemma wf_state_defined (u : Undoable T) : wf u -> is_Some (state u).
Proof. intros [Hi _]. by apply lookup_lt_is_Some_2. Qed.

Lemma state_after_accepted (s : T) (u : Undoable T) :
  wf u -> accepted stringify s u -> state (setState stringify s u) = Some s.
Proof.
  intros Hwf Hacc. pose proof Hwf as [Hi Hlen].
  destruct (decide (currentIndex u = 49%nat)) as [H49|H49].
  - rewrite setState_accepted_full by done. unfold state; simpl.
    rewrite lookup_app_r by (rewrite length_drop; lia).
    rewrite length_drop. by replace (49 - (length (history u) - 1))%nat with 0%nat by lia.
  - rewrite setState_accepted_small by (done || lia). unfold state; simpl.
    rewrite lookup_app_r by (rewrite length_take; lia).
    rewrite length_take. by replace (currentIndex u + 1 - _)%nat with 0%nat by lia.
Qed.

(** C3. Undo right after an accepted [setState] shows the snapshot that was
    current before it; redo right after an effective undo shows the
    snapshot that was undone; an accepted [setState] after an effective
    undo keeps the entries up to the cursor, appends the new state and
    leaves nothing to redo. From history [S0,S1,S2] with the cursor on S2,
    undo followed by [setState S3] gives [S0,S1,S3]. *)
Theorem undo_redo_branch :
  (forall (u : Undoable T) (s : T),
      wf u -> accepted stringify s u ->
      state (undo (setState stringify s u)) = state u) /\
  (forall u : Undoable T,
      wf u -> canUndo u = true ->
      state (redo (undo u)) = state u) /\
  (forall (u : Undoable T) (s : T),
      wf u -> canUndo u = true -> accepted stringify s (undo u) ->
      history (setState stringify s (undo u)) = take (currentIndex u) (history u) ++ [s] /\
      state (setState stringify s (undo u)) = Some s /\
      canRedo (setState stringify s (undo u)) = false) /\
  (forall S0 S1 S2 S3 : T,
      stringify S3 <> stringify S1 ->
      setState stringify S3 (undo {| history := [S0; S1; S2]; currentIndex := 2 |}) =
        {| history := [S0; S1; S3]; currentIndex := 2 |} /\
      canRedo (setState stringify S3 (undo {| history := [S0; S1; S2]; currentIndex := 2 |}))
        = false).
Proof.
  split; [|split; [|split]].
  - intros u s Hwf Hacc. pose proof Hwf as [Hi Hlen].
    destruct (decide (currentIndex u = 49%nat)) as [H49|H49].
    + rewrite setState_accepted_full by done. unfold undo, state; simpl.
      rewrite H49.
      rewrite lookup_app_l by (rewrite length_drop; lia).
      rewrite lookup_drop. done.
    + rewrite setState_accepted_small by (done || lia). unfold undo, state; simpl.
      rewrite bool_decide_eq_true_2 by lia. simpl.
      replace (currentIndex u + 1 - 1)%nat with (currentIndex u) by lia.
      rewrite lookup_app_l by (rewrite length_take; lia).
      rewrite lookup_take_lt by lia. done.
  - intros u [Hi Hlen] Hcan. unfold canUndo in Hcan.
    apply bool_decide_eq_true_1 in Hcan.
    unfold undo. rewrite bool_decide_eq_true_2 by done.
    unfold redo, canRedo; simpl. rewrite bool_decide_eq_true_2 by lia.
    unfold state; simpl. by replace (currentIndex u - 1 + 1)%nat with (currentIndex u) by lia.
  - intros u s [Hi Hlen] Hcan Hacc. unfold canUndo in Hcan.
    apply bool_decide_eq_true_1 in Hcan.
    assert (Hwf' : wf (undo u)).
    { apply (call_wf CallUndo). by split. }
    split; [|split].
    + rewrite setState_accepted_small; [| done | done |].
      * simpl. unfold undo. rewrite bool_decide_eq_true_2 by done. simpl.
        by replace (currentIndex u - 1 + 1)%nat with (currentIndex u) by lia.
      * unfold undo. rewrite bool_decide_eq_true_2 by done. simpl. lia.
    + by apply state_after_accepted.
    + rewrite setState_accepted_small; [| done | done |].
      * unfold canRedo; simpl. apply bool_decide_eq_false_2.
        rewrite length_app, length_take. simpl.
        unfold undo. rewrite bool_decide_eq_true_2 by done. simpl. lia.
      * unfold undo. rewrite bool_decide_eq_true_2 by done. simpl. lia.
  - intros S0 S1 S2 S3 Hne.
    assert (Hstep : setState stringify S3 (undo {| history := [S0; S1; S2]; currentIndex := 2 |})
                    = {| history := [S0; S1; S3]; currentIndex := 2 |}).
    { unfold undo; simpl. unfold setState, same_serialization, state; simpl.
      by rewrite bool_decide_eq_false_2. }
    rewrite Hstep. split; [done|]. reflexivity.
Qed.

(** C5. Whatever calls are made, the history holds at most 50 snapshots.
    An accepted [setState] always leaves the cursor on the snapshot it
    pushed, and when the history is full with the cursor on its last entry
    the oldest snapshot is the one dropped. *)
Theorem history_capped :
  (forall (initialState : T) (cs : list (Call T)),
      (length (history (run stringify cs (useUndoableState initialState))) <= 50)%nat) /\
  (forall (u : Undoable T) (s : T),
      wf u -> accepted stringify s u ->
      (length (history (setState stringify s u)) <= 50)%nat /\
      state (setState stringify s u) = Some s /\
      currentIndex (setState stringify s u) =
        (length (history (setState stringify s u)) - 1)%nat) /\
  (forall (u : Undoable T) (s : T),
      wf u -> accepted stringify s u ->
      length (history u) = 50%nat -> currentIndex u = 49%nat ->
      history (setState stringify s u) = drop 1 (history u) ++ [s] /\
      currentIndex (setState stringify s u) = 49%nat).
Proof.
  split; [|split].
  - intros initialState cs. apply reachable_wf.
  - intros u s Hwf Hacc. split; [|split].
    + apply setState_wf, Hwf.
    + by apply state_after_accepted.
    + pose proof Hwf as [Hi Hlen].
      destruct (decide (currentIndex u = 49%nat)) as [H49|H49].
      * rewrite setState_accepted_full by done. simpl.
        rewrite length_app, length_drop. simpl. lia.
      * rewrite setState_accepted_small by (done || lia). simpl.
        rewrite length_app, length_take. simpl. lia.
  - intros u s Hwf Hacc Hlen Hidx.
    by rewrite setState_accepted_full.
Qed.

End UndoableStateFacts.

(** The store over strings that serialise to themselves, for the examples. *)
Lemma undo_redo_branch_witness :
  let u := {| history := ["S0"; "S1"; "S2"]; currentIndex := 2 |} in
  wf u /\ canUndo u = true /\ accepted Some "S3" (undo u) /\
  state (undo (setState Some "S3" u)) = state u /\
  state (redo (undo u)) = state u /\
  history (setState Some "S3" (undo u)) = ["S0"; "S1"; "S3"] /\
  canRedo (setState Some "S3" (undo u)) = false.
Proof.
  intros u.
  assert (Hwf : wf u) by (unfold wf; simpl; lia).
  assert (Hcan : canUndo u = true) by reflexivity.
  assert (Hacc : accepted Some "S3" (undo u)) by (intros [=]).
  assert (Hacc' : accepted Some "S3" u) by (intros [=]).
  destruct (undo_redo_branch (T := string) Some) as (Hundo & Hredo & Hbranch & _).
  destruct (Hbranch u "S3" Hwf Hcan Hacc) as (Hhist & _ & Hno).
  split; [exact Hwf|]. split; [exact Hcan|]. split; [exact Hacc|].
  split; [exact (Hundo u "S3" Hwf Hacc')|].
  split; [exact (Hredo u Hwf Hcan)|].
  split; [exact Hhist|exact Hno].
Defined.

Lemma history_capped_witness :
  let u := {| history := replicate 49 "old" ++ ["last"]; currentIndex := 49 |} in
  wf u /\ accepted Some "new" u /\
  length (history u) = 50%nat /\
  history (setState Some "new" u) = replicate 48 "old" ++ ["last"; "new"] /\
  currentIndex (setState Some "new" u) = 49%nat /\
  state (setState Some "new" u) = Some "new".
Proof.
  intros u.
  assert (Hwf : wf u) by (unfold wf; simpl; lia).
  assert (Hacc : accepted Some "new" u) by (intros [=]).
  destruct (history_capped (T := string) Some) as (_ & Hpush & Hfull).
  destruct (Hfull u "new" Hwf Hacc eq_refl eq_refl) as [Hhist Hidx].
  destruct (Hpush u "new" Hwf Hacc) as (_ & Hstate & _).
  split; [exact Hwf|]. split; [exact Hacc|]. split; [reflexivity|].
  split; [exact Hhist|]. split; [exact Hidx|exact Hstate].
Defined.

(** ** The store over JSON values *)

Section DuplicateDetection.

Lemma drop1_snoc_fixed {A} (l : list A) (x : A) :
  drop 1 l ++ [x] = l -> last l = Some x.
Proof.
  intros Heq. rewrite <- Heq at 1. by rewrite last_snoc.
Qed.

(** A [setState] that is not skipped always changes the store. *)
Lemma setState_accepted_changes {T} (stringify : T -> option string)
      (s : T) (u : Undoable T) :
  wf u -> accepted stringify s u -> setState stringify s u <> u.
Proof.
  intros Hwf Hacc Heq. pose proof Hwf as [Hi Hlen].
  destruct (decide (currentIndex u = 49%nat)) as [H49|H49].
  - rewrite setState_accepted_full in Heq by done.
    destruct u as [h i]; simpl in *. injection Heq as Hh.
    apply drop1_snoc_fixed in Hh. apply Hacc. unfold state; simpl.
    rewrite last_lookup in Hh.
    replace (Nat.pred (length h)) with i in Hh by lia.
    by rewrite Hh.
  - rewrite setState_accepted_small in Heq by (done || lia).
    destruct u as [h i]; simpl in *. injection Heq as Hh Hidx. lia.
Qed.

(** C4, as the code has it. [setState] leaves the store as it is exactly
    when the candidate and the current state have the same
    [JSON.stringify] text; a candidate that is the current state with the
    same key order is such a case. *)
Theorem setState_noop_iff_same_text (u : Undoable value) (candidate : value) :
  wf u ->
  (setState JSON_stringify candidate u = u <->
   JSON_stringify candidate = stringify_opt JSON_stringify (state u)) /\
  (state u = Some candidate -> setState JSON_stringify candidate u = u).
Proof.
  intros Hwf. split; [split|].
  - intros Heq.
    destruct (decide (JSON_stringify candidate
                      = stringify_opt JSON_stringify (state u))) as [|Hne]; [done|].
    by destruct (setState_accepted_changes JSON_stringify candidate u).
  - apply setState_skipped.
  - intros Hcur. apply setState_skipped. by rewrite Hcur.
Qed.

Lemma setState_noop_iff_same_text_witness :
  wf (useUndoableState state_id_first) /\
  setState JSON_stringify state_id_first (useUndoableState state_id_first)
  = useUndoableState state_id_first.
Proof.
  assert (Hwf : wf (useUndoableState state_id_first)).
  { unfold wf; simpl; lia. }
  split; [exact Hwf|].
  apply (setState_noop_iff_same_text _ state_id_first Hwf).
  reflexivity.
Defined.

(** C4 as stated fails: the two states above are deep-equal, yet
    [setState] appends the second after the first. *)
Lemma deep_equal_candidate_appended :
  ~ (forall (u : Undoable value) (candidate current : value),
        wf u -> state u = Some current ->
        deep_equal candidate current = true ->
        setState JSON_stringify candidate u = u).
Proof.
  intros Hclaim.
  specialize (Hclaim (useUndoableState state_id_first)
                     state_title_first state_id_first).
  assert (Hwf : wf (useUndoableState state_id_first)).
  { unfold wf; simpl; lia. }
  specialize (Hclaim Hwf eq_refl eq_refl).
  vm_compute in Hclaim. discriminate Hclaim.
Qed.

End DuplicateDetection.

(** ** Deleting a task *)

Section DeleteTask.

(** Where no [parentId] is the empty string a parent link is the
    [parentId]. *)
Lemma parent_link_plain (t : Task) :
  task_parentId t <> Some EmptyString -> parent_link t = task_parentId t.
Proof.
  unfold parent_link. destruct (task_parentId t) as [p|]; [|done].
  intros Hne. destruct (String.eqb p EmptyString) eqn:Heq; [|done].
  apply String.eqb_eq in Heq as ->. done.
Qed.

Lemma has_parent_in_spec (s : gset string) (t : Task) :
  has_parent_in s t = true <-> exists p, parent_link t = Some p /\ p ∈ s.
Proof.
  unfold has_parent_in, parent_link. destruct (task_parentId t) as [p|].
  - destruct (String.eqb p EmptyString); simpl.
    + split; [done|]. by intros (q & ? & _).
    + rewrite bool_decide_eq_true. split.
      * intros Hin. by exists p.
      * intros (q & [= <-] & Hin). done.
  - split; [done|]. by intros (q & ? & _).
Qed.

Lemma mark_children_mono (l : list Task) (s : gset string) :
  s ⊆ mark_children l s.
Proof.
  revert s. induction l as [|t l IH]; intros s; simpl; [done|].
  unfold mark_children in *. simpl.
  destruct (has_parent_in s t); [|apply IH].
  etrans; [|apply IH]. set_solver.
Qed.

Lemma mark_children_cons (t : Task) (l : list Task) (s : gset string) :
  mark_children (t :: l) s =
  mark_children l (if has_parent_in s t then {[task_id t]} ∪ s else s).
Proof. reflexivity. Qed.

Lemma mark_children_closed (l : list Task) (s : gset string) (t : Task) (p : string) :
  t ∈ l -> parent_link t = Some p -> p ∈ s -> task_id t ∈ mark_children l s.
Proof.
  revert s. induction l as [|u l IH]; intros s Hin Hlink Hp.
  - by apply elem_of_nil in Hin.
  - rewrite mark_children_cons. apply elem_of_cons in Hin as [->|Hin].
    + assert (Hhas : has_parent_in s u = true).
      { apply has_parent_in_spec. eauto. }
      rewrite Hhas. apply mark_children_mono. set_solver.
    + apply IH; [done..|]. destruct (has_parent_in s u); set_solver.
Qed.

Lemma mark_children_sound (all : list Task) (root : string) (l : list Task)
      (s : gset string) :
  (forall t, t ∈ l -> t ∈ all) ->
  (forall x, x ∈ s -> doomed all root x) ->
  forall x, x ∈ mark_children l s -> doomed all root x.
Proof.
  revert s. induction l as [|u l IH]; intros s Hsub Hinv x Hx; [by apply Hinv|].
  rewrite mark_children_cons in Hx.
  apply IH in Hx; [done| |].
  - intros t Ht. apply Hsub. by right.
  - intros y Hy. destruct (has_parent_in s u) eqn:Hhas; [|by apply Hinv].
    apply elem_of_union in Hy as [Hy|Hy]; [|by apply Hinv].
    apply elem_of_singleton in Hy as ->.
    apply has_parent_in_spec in Hhas as (p & Hlink & Hp).
    right. destruct (Hinv p Hp) as [->|Hdesc].
    + apply desc_child; [|done]. apply Hsub. by left.
    + eapply desc_deeper; [|done..]. apply Hsub. by left.
Qed.

Lemma mark_children_bound (l : list Task) (s B : gset string) :
  s ⊆ B -> list_to_set (task_id <$> l) ⊆ B -> mark_children l s ⊆ B.
Proof.
  revert s. induction l as [|u l IH]; intros s Hs Hl; [done|].
  rewrite mark_children_cons. simpl in Hl. apply IH; [|set_solver].
  destruct (has_parent_in s u); set_solver.
Qed.

Lemma size_ids_le (ids : list string) :
  (size (list_to_set ids : gset string) <= length ids)%nat.
Proof.
  induction ids as [|x ids IH].
  - rewrite list_to_set_nil, size_empty. simpl. lia.
  - rewrite list_to_set_cons, size_union_alt, size_singleton. simpl.
    assert (size (list_to_set ids ∖ ({[x]} : gset string))
            <= size (list_to_set ids : gset string))%nat; [|lia].
    apply subseteq_size. set_solver.
Qed.

(** The loop stops: the set only grows, inside the ids of the state. *)
Lemma collect_descendants_terminates (l : list Task) (B : gset string) :
  list_to_set (task_id <$> l) ⊆ B ->
  forall (fuel : nat) (s : gset string),
    s ⊆ B -> (size B - size s < fuel)%nat ->
    is_Some (collect_descendants fuel l s).
Proof.
  intros HB fuel. induction fuel as [|fuel IH]; intros s Hs Hfuel; [lia|].
  simpl. case_bool_decide as Hgrow; [|by eexists].
  assert (Hs' : mark_children l s ⊆ B) by by apply mark_children_bound.
  apply IH; [done|].
  apply subseteq_size in Hs'. lia.
Qed.

(** What the loop returns holds the start set, is closed under
    "child of a member", and holds nothing but doomed ids when it
    started that way. *)
Lemma collect_descendants_result (all : list Task) (root : string) :
  forall (fuel : nat) (s D : gset string),
    collect_descendants fuel all s = Some D ->
    s ⊆ D /\
    (forall t p, t ∈ all -> parent_link t = Some p -> p ∈ D -> task_id t ∈ D) /\
    ((forall x, x ∈ s -> doomed all root x) -> forall x, x ∈ D -> doomed all root x).
Proof.
  induction fuel as [|fuel IH]; intros s D Hrun; [done|].
  simpl in Hrun. pose proof (mark_children_mono all s) as Hmono.
  case_bool_decide as Hgrow.
  - apply IH in Hrun as (Hsub & Hclosed & Hsound).
    split; [set_solver|]. split; [done|].
    intros Hinv. apply Hsound. by apply mark_children_sound.
  - injection Hrun as <-. split; [done|].
    assert (Heq : s = mark_children all s).
    { apply set_subseteq_size_eq; [done|lia]. }
    split.
    + intros t p Ht Hlink Hp. rewrite <- Heq in Hp.
      by eapply mark_children_closed.
    + intros Hinv. by apply mark_children_sound.
Qed.

Lemma closed_holds_descendants (all : list Task) (root : string) (D : gset string) :
  root ∈ D ->
  (forall t p, t ∈ all -> parent_link t = Some p -> p ∈ D -> task_id t ∈ D) ->
  forall x, doomed all root x -> x ∈ D.
Proof.
  intros Hroot Hclosed x [->|Hdesc]; [done|].
  induction Hdesc as [t Ht Hlink|t p Ht Hlink _ IH]; eauto.
Qed.

(** With more fuel than there are tasks the loop returns exactly the
    doomed ids. *)
Lemma collect_descendants_spec (all : list Task) (root : string) (fuel : nat) :
  (length all < fuel)%nat ->
  exists D, collect_descendants fuel all {[root]} = Some D /\
            forall x, x ∈ D <-> doomed all root x.
Proof.
  intros Hfuel.
  destruct (collect_descendants_terminates all
              ({[root]} ∪ list_to_set (task_id <$> all)) ltac:(set_solver)
              fuel {[root]} ltac:(set_solver)) as [D HD].
  { rewrite size_singleton.
    pose proof (size_union_alt ({[root]} : gset string)
                  (list_to_set (task_id <$> all))) as Hsz.
    rewrite Hsz, size_singleton.
    assert (size (list_to_set (task_id <$> all) ∖ ({[root]} : gset string))
            <= length all)%nat; [|lia].
    etrans; [apply subseteq_size, subseteq_difference_l; reflexivity|].
    etrans; [apply size_ids_le|]. by rewrite length_fmap. }
  exists D. split; [done|].
  apply (collect_descendants_result all root) in HD as (Hsub & Hclosed & Hsound).
  intros x. split.
  - apply Hsound. intros y Hy. left. set_solver.
  - apply closed_holds_descendants; [set_solver|done].
Qed.

Lemma find_by_id_some (l : list Task) (taskId : string) (t : Task) :
  List.find (fun t => String.eqb (task_id t) taskId) l = Some t ->
  t ∈ l /\ task_id t = taskId.
Proof.
  intros Hfind. apply find_some in Hfind as [Hin Heq].
  split; [by apply list_elem_of_In|]. by apply String.eqb_eq.
Qed.

Lemma find_by_id_present (l : list Task) (taskId : string) :
  taskId ∈ task_id <$> l ->
  exists t, List.find (fun t => String.eqb (task_id t) taskId) l = Some t.
Proof.
  induction l as [|u l IH]; intros Hin; simpl in *.
  - by apply elem_of_nil in Hin.
  - destruct (String.eqb (task_id u) taskId) eqn:Heq; [by eexists|].
    apply elem_of_cons in Hin as [->|Hin]; [|by apply IH].
    by rewrite String.eqb_refl in Heq.
Qed.

(** When the loop has fuel, the delete is this record. *)
Lemma handleDeleteTask_unfold (fuel : nat) (taskId : string) (now : nat -> Clock)
      (current : AppState) :
  taskId ∈ task_id <$> tasks current ->
  (length (tasks current) < fuel)%nat ->
  exists (target : Task) (D : gset string),
    target ∈ tasks current /\ task_id target = taskId /\
    (forall x, x ∈ D <-> doomed (tasks current) taskId x) /\
    handleDeleteTask fuel taskId now current =
      Some {| projects := projects current;
              tasks := filter (fun t => task_id t ∉ D) (tasks current);
              comments := comments current;
              activityLog :=
                append_log (task_projectId target)
                  (createActivityLog (task_projectId target)
                     (deleted_action target) (now 0%nat))
                  (activityLog current) |}.
Proof.
  intros Hpresent Hfuel.
  destruct (find_by_id_present _ _ Hpresent) as [target Hfind].
  destruct (collect_descendants_spec (tasks current) taskId fuel Hfuel)
    as (D & Hrun & HD).
  exists target, D. apply find_by_id_some in Hfind as Hfound.
  destruct Hfound as [Hin Hid]. repeat split; [done|done|apply HD|apply HD|].
  unfold handleDeleteTask. by rewrite Hfind, Hrun.
Qed.

(** C2. Deleting a task that is in the state removes the task and its
    transitive descendants and nothing else: the tasks left are the
    other tasks, as they were and in their old sequence; with unique ids,
    a task with N descendants makes N+1 tasks disappear; and the activity
    log of the task's project gains one entry, "deleted task", for the
    task itself. *)
Theorem delete_task_cascade (fuel : nat) (taskId : string) (now : nat -> Clock)
        (current : AppState) :
  taskId ∈ task_id <$> tasks current ->
  (length (tasks current) < fuel)%nat ->
  exists (next : AppState) (target : Task),
    handleDeleteTask fuel taskId now current = Some next /\
    target ∈ tasks current /\ task_id target = taskId /\
    (forall t, t ∈ tasks next <->
               t ∈ tasks current /\ ~ doomed (tasks current) taskId (task_id t)) /\
    tasks next `sublist_of` tasks current /\
    (NoDup (task_id <$> tasks current) ->
     forall ds : list string,
       NoDup ds ->
       (forall x, x ∈ ds <-> x <> taskId /\ descendant (tasks current) taskId x) ->
       length (tasks current) = (length (tasks next) + (length ds + 1))%nat) /\
    exists entry : ActivityLog,
      log_action entry =
        "deleted task " +:+ dquote +:+ task_title target +:+ dquote +:+ "." /\
      activityLog next =
        <[task_projectId target :=
            default [] (activityLog current !! task_projectId target) ++ [entry]]>
          (activityLog current).
Proof.
  intros Hpresent Hfuel.
  destruct (handleDeleteTask_unfold fuel taskId now current Hpresent Hfuel)
    as (target & D & Hin & Hid & HD & Hrun).
  eexists _, target. split; [exact Hrun|]. simpl.
  split; [done|]. split; [done|]. split; [|split; [|split]].
  - intros t. rewrite list_elem_of_filter, HD. tauto.
  - apply sublist_filter.
  - intros Hnodup ds Hds Hmem.
    pose proof (filter_app_complement (fun t => task_id t ∈ D) (tasks current)) as Hperm.
    apply Permutation_length in Hperm. rewrite length_app in Hperm.
    assert (Hgone : task_id <$> filter (fun t => task_id t ∈ D) (tasks current)
                    ≡ₚ taskId :: ds).
    { apply NoDup_Permutation.
      - eapply sublist_NoDup; [exact Hnodup|]. apply fmap_sublist, sublist_filter.
      - apply NoDup_cons. split; [|done]. rewrite Hmem. tauto.
      - intros x. rewrite list_elem_of_fmap, elem_of_cons, Hmem. split.
        + intros (t & -> & Ht). apply list_elem_of_filter in Ht as [Ht _].
          apply HD in Ht as [?|?]; [by left|].
          destruct (decide (task_id t = taskId)); [by left|by right].
        + intros Hx.
          assert (Hdoomed : doomed (tasks current) taskId x).
          { destruct Hx as [->|[_ ?]]; [by left|by right]. }
          assert (Hhas : exists t, t ∈ tasks current /\ task_id t = x).
          { destruct Hx as [->|[_ Hdesc]]; [by exists target|].
            destruct Hdesc as [t|t]; by exists t. }
          destruct Hhas as (t & Ht & <-). exists t. split; [done|].
          apply list_elem_of_filter. split; [by apply HD|done]. }
    apply Permutation_length in Hgone. rewrite length_fmap in Hgone.
    simpl in Hgone. lia.
  - eexists. split; [|reflexivity]. reflexivity.
Qed.

(** C10. A delete leaves everything else alone: each task that is still
    there is the record it was (its [order] included, so the siblings of
    the deleted task are not renumbered), every task outside the deleted
    subtree is still there, the tasks keep their sequence, and projects,
    comments and the activity logs of the other projects are the same. *)
Theorem delete_task_frame (fuel : nat) (taskId : string) (now : nat -> Clock)
        (current : AppState) :
  taskId ∈ task_id <$> tasks current ->
  (length (tasks current) < fuel)%nat ->
  exists (next : AppState) (target : Task),
    handleDeleteTask fuel taskId now current = Some next /\
    target ∈ tasks current /\ task_id target = taskId /\
    (forall t, t ∈ tasks next -> t ∈ tasks current) /\
    (forall t, t ∈ tasks current ->
               ~ doomed (tasks current) taskId (task_id t) -> t ∈ tasks next) /\
    tasks next `sublist_of` tasks current /\
    projects next = projects current /\
    comments next = comments current /\
    (forall pid, pid <> task_projectId target ->
                 activityLog next !! pid = activityLog current !! pid).
Proof.
  intros Hpresent Hfuel.
  destruct (handleDeleteTask_unfold fuel taskId now current Hpresent Hfuel)
    as (target & D & Hin & Hid & HD & Hrun).
  eexists _, target. split; [exact Hrun|]. simpl.
  split; [done|]. split; [done|]. repeat split.
  - intros t Ht. by apply list_elem_of_filter in Ht as [_ Ht].
  - intros t Ht Hkeep. apply list_elem_of_filter. by rewrite HD.
  - apply sublist_filter.
  - intros pid Hpid. unfold append_log. by rewrite lookup_insert_ne.
Qed.

Lemma delete_task_cascade_witness :
  exists (next : AppState) (target : Task),
    handleDeleteTask 6 "task_a" sample_clock sample_state = Some next /\
    target ∈ tasks sample_state /\ task_id target = "task_a" /\
    (forall t, t ∈ tasks next <->
               t ∈ tasks sample_state
               /\ ~ doomed (tasks sample_state) "task_a" (task_id t)) /\
    tasks next `sublist_of` tasks sample_state /\
    (NoDup (task_id <$> tasks sample_state) ->
     forall ds : list string,
       NoDup ds ->
       (forall x, x ∈ ds <->
                  x <> "task_a" /\ descendant (tasks sample_state) "task_a" x) ->
       length (tasks sample_state) = (length (tasks next) + (length ds + 1))%nat) /\
    exists entry : ActivityLog,
      log_action entry =
        "deleted task " +:+ dquote +:+ task_title target +:+ dquote +:+ "." /\
      activityLog next =
        <[task_projectId target :=
            default [] (activityLog sample_state !! task_projectId target) ++ [entry]]>
          (activityLog sample_state).
Proof.
  apply (delete_task_cascade 6 "task_a" sample_clock sample_state).
  - simpl. left.
  - simpl. lia.
Defined.

Lemma delete_task_frame_witness :
  exists (next : AppState) (target : Task),
    handleDeleteTask 6 "task_a" sample_clock sample_state = Some next /\
    target ∈ tasks sample_state /\ task_id target = "task_a" /\
    (forall t, t ∈ tasks next -> t ∈ tasks sample_state) /\
    (forall t, t ∈ tasks sample_state ->
               ~ doomed (tasks sample_state) "task_a" (task_id t) -> t ∈ tasks next) /\
    tasks next `sublist_of` tasks sample_state /\
    projects next = projects sample_state /\
    comments next = comments sample_state /\
    (forall pid, pid <> task_projectId target ->
                 activityLog next !! pid = activityLog sample_state !! pid).
Proof.
  apply (delete_task_frame 6 "task_a" sample_clock sample_state).
  - simpl. left.
  - simpl. lia.
Defined.

Lemma dense_by_members (l : list Task) :
  (forall t, t ∈ l ->
     group_orders (task_projectId t) (task_parentId t) l
     ≡ₚ Z.of_nat <$> seq 0 (length (group_orders (task_projectId t) (task_parentId t) l))) ->
  dense l.
Proof.
  intros Hmem pid par. unfold group_orders.
  destruct (filter (in_group pid par) l) as [|t g] eqn:Hg; [done|].
  assert (Ht : t ∈ filter (in_group pid par) l) by (rewrite Hg; left).
  apply list_elem_of_filter in Ht as [[<- <-] Ht].
  specialize (Hmem t Ht). unfold group_orders in Hmem. by rewrite Hg in Hmem.
Qed.

(** C1, where the code departs from it. In [sample_state] ids are unique
    and every sibling group is numbered [0 .. n-1]. Deleting [task_b]
    leaves its siblings [task_a] and [task_c] with the orders 0 and 2 they
    had, so the top-level group of [proj_1] is no longer dense; moving
    [task_a1] to the top level afterwards gives it the group's size, 2, as
    order, the order [task_c] still has. *)
Theorem delete_leaves_gap :
  NoDup (task_id <$> tasks sample_state) /\
  dense (tasks sample_state) /\
  exists next : AppState,
    handleDeleteTask 6 "task_b" sample_clock sample_state = Some next /\
    tasks next = [task_a; task_c; task_a1; task_a2] /\
    group_orders "proj_1" None (tasks next) = [0; 2] /\
    ~ dense (tasks next) /\
    group_orders "proj_1" None
      (tasks (handleSaveTask (EDIT_TASK task_a1) (form_data task_a1) "proj_1" None
                sample_clock next))
    = [0; 2; 2].
Proof.
  split; [|split].
  - simpl. repeat (apply NoDup_cons; split; [set_solver|]). apply NoDup_nil_2.
  - apply dense_by_members. intros t Ht. simpl in Ht.
    repeat (apply elem_of_cons in Ht as [->|Ht]); [reflexivity..|].
    by apply elem_of_nil in Ht.
  - eexists. split; [vm_compute; reflexivity|]. simpl tasks.
    split; [reflexivity|]. split; [reflexivity|]. split.
    + intros Hdense. specialize (Hdense "proj_1" None).
      assert (Hone : (1 : Z) ∈ group_orders "proj_1" None
                                 [task_a; task_c; task_a1; task_a2]).
      { rewrite Hdense. simpl. right; left. }
      vm_compute in Hone. set_solver.
    + vm_compute. reflexivity.
Qed.

End DeleteTask.

(** ** Reordering by drag and drop *)

Section ReorderFacts.
Context {T : Type} `{Ordered T}.

Lemma renumber_from (l : list T) (k : nat) :
  item_order <$> imap (fun index item => with_order (Z.of_nat (k + index)) item) l
  = Z.of_nat <$> seq k (length l).
Proof.
  revert k. induction l as [|x l IH]; intros k; [done|].
  rewrite imap_cons, fmap_cons, with_order_order, Nat.add_0_r.
  change (seq k (length (x :: l))) with (k :: seq (S k) (length l)).
  rewrite fmap_cons, <- (IH (S k)). do 2 f_equal.
  apply imap_ext. intros i y _. simpl. f_equal. lia.
Qed.

(** After a renumbering the orders are [0, 1, ..., n-1] in list sequence. *)
Lemma renumber_orders (l : list T) :
  item_order <$> renumber l = Z.of_nat <$> seq 0 (length l).
Proof. apply (renumber_from l 0). Qed.

Lemma renumber_ids (l : list T) : item_id <$> renumber l = item_id <$> l.
Proof.
  unfold renumber. rewrite fmap_imap, <- (imap_const item_id l).
  apply imap_ext. intros i x _. simpl. apply with_order_id.
Qed.

Lemma renumber_length (l : list T) : length (renumber l) = length l.
Proof. apply length_imap. Qed.

(** [handleReorder] either returns its argument or a list numbered
    [0 .. n-1] in sequence. *)
Lemma handleReorder_orders (draggedId targetId : string) (items : list T)
      (position : DropPosition) :
  handleReorder draggedId targetId items position = items \/
  item_order <$> handleReorder draggedId targetId items position
  = Z.of_nat <$> seq 0 (length (handleReorder draggedId targetId items position)).
Proof.
  unfold handleReorder.
  destruct (List.find _ items) as [draggedItem|]; [|by left].
  destruct (list_find _ _) as [[targetIndex target]|]; [|by left].
  right. by rewrite renumber_orders, renumber_length.
Qed.

(** C7, as the code has it. Dragging the first of three siblings onto the
    third with position [top] puts it just before the third: from
    [T1, T2, T3] the result is [T2, T1, T3], numbered 0, 1, 2. *)
Theorem reorder_first_before_third (T1 T2 T3 : T) :
  item_id T1 <> item_id T2 -> item_id T1 <> item_id T3 -> item_id T2 <> item_id T3 ->
  item_order T1 <= item_order T2 <= item_order T3 ->
  handleReorder (item_id T1) (item_id T3) [T1; T2; T3] top
  = [with_order 0 T2; with_order 1 T1; with_order 2 T3].
Proof.
  intros H12 H13 H23 [Ho12 Ho23].
  unfold handleReorder. simpl List.find. rewrite String.eqb_refl.
  rewrite filter_cons_False by (intros Hne; by apply Hne).
  rewrite filter_cons_True by (intros Heq; by apply H12).
  rewrite filter_cons_True by (intros Heq; by apply H13).
  rewrite filter_nil. simpl sort_by_order.
  rewrite bool_decide_eq_true_2 by done.
  unfold list_find. rewrite decide_False by done. rewrite decide_True by done.
  reflexivity.
Qed.

End ReorderFacts.

Lemma reorder_first_before_third_witness :
  handleReorder "task_a" "task_c" [task_a; task_b; task_c] top
  = [task_with_order 0 task_b; task_with_order 1 task_a; task_with_order 2 task_c].
Proof.
  refine (reorder_first_before_third task_a task_b task_c _ _ _ _);
    simpl; (done || lia).
Defined.

(** C7 as stated fails: the result does not start with the target. *)
Lemma reorder_first_before_third_not_target_first :
  ~ (forall T1 T2 T3 : Task,
        item_id T1 <> item_id T2 -> item_id T1 <> item_id T3 ->
        item_id T2 <> item_id T3 ->
        item_order T1 <= item_order T2 <= item_order T3 ->
        item_id <$> handleReorder (item_id T1) (item_id T3) [T1; T2; T3] top
        = [item_id T3; item_id T1; item_id T2]).
Proof.
  intros Hclaim.
  specialize (Hclaim task_a task_b task_c
                ltac:(done) ltac:(done) ltac:(done) ltac:(simpl; lia)).
  vm_compute in Hclaim. discriminate Hclaim.
Qed.

(** ** The stable sort by [order] *)

Section SortFacts.
Context {T : Type} `{Ordered T}.

Lemma insert_by_order_perm (x : T) (l : list T) : insert_by_order x l ≡ₚ x :: l.
Proof.
  induction l as [|y l IH]; simpl; [done|].
  case_bool_decide; [done|]. rewrite IH. apply Permutation_swap.
Qed.

Lemma sort_by_order_perm (l : list T) : sort_by_order l ≡ₚ l.
Proof.
  induction l as [|x l IH]; simpl; [done|].
  by rewrite insert_by_order_perm, IH.
Qed.







End SortFacts.

(** ** Editing and moving a task *)

Section MoveTask.

Lemma NoDup_ids_inj (l : list Task) (x y : Task) :
  NoDup (task_id <$> l) -> x ∈ l -> y ∈ l -> task_id x = task_id y -> x = y.
Proof.
  induction l as [|z l IH]; intros Hnd Hx Hy Heq; [by apply elem_of_nil in Hx|].
  rewrite fmap_cons in Hnd. apply NoDup_cons in Hnd as [Hz Hnd].
  apply elem_of_cons in Hx as [->|Hx]; apply elem_of_cons in Hy as [->|Hy].
  - done.
  - exfalso. apply Hz. rewrite Heq. by apply list_elem_of_fmap_2.
  - exfalso. apply Hz. rewrite <- Heq. by apply list_elem_of_fmap_2.
  - by apply IH.
Qed.

Lemma id_map_snoc (l : list Task) (x : Task) :
  id_map (l ++ [x]) = <[task_id x := x]> (id_map l).
Proof. unfold id_map. by rewrite foldl_snoc. Qed.

Lemma id_map_lookup (l : list Task) (x : Task) :
  NoDup (task_id <$> l) -> x ∈ l -> id_map l !! task_id x = Some x.
Proof.
  induction l as [|y l IH] using rev_ind; intros Hnd Hx; [by apply elem_of_nil in Hx|].
  rewrite id_map_snoc. rewrite fmap_app in Hnd. apply NoDup_app in Hnd as (Hnd & Hy & _).
  apply elem_of_app in Hx as [Hx|Hx].
  - rewrite lookup_insert_ne; [by apply IH|].
    intros Heq. apply (Hy (task_id x)); [by apply list_elem_of_fmap_2|].
    rewrite <- Heq. apply list_elem_of_fmap_2. left.
  - apply list_elem_of_singleton in Hx as ->. by rewrite lookup_insert_eq.
Qed.

Lemma id_map_lookup_None (l : list Task) (k : string) :
  k ∉ task_id <$> l -> id_map l !! k = None.
Proof.
  induction l as [|y l IH] using rev_ind; intros Hk; [done|].
  rewrite id_map_snoc. rewrite fmap_app, not_elem_of_app in Hk. destruct Hk as [Hk Hy].
  rewrite lookup_insert_ne; [by apply IH|].
  intros Heq. apply Hy. rewrite <- Heq. apply list_elem_of_fmap_2. left.
Qed.

Lemma sorted_group_ids_NoDup (projectId : string) (parentId : option string)
      (l : list Task) :
  NoDup (task_id <$> l) ->
  NoDup (task_id <$> sort_by_order (filter (in_group projectId parentId) l)).
Proof.
  intros Hnd. rewrite sort_by_order_perm.
  eapply sublist_NoDup; [exact Hnd|]. apply fmap_sublist, sublist_filter.
Qed.

Lemma renumber_task_ids (l : list Task) : task_id <$> renumber l = task_id <$> l.
Proof. exact (renumber_ids l). Qed.

(** A task of the group is replaced by itself with its rank in the sorted
    group as [order]. *)
Lemma relabel_in_group (projectId : string) (parentId : option string)
      (l : list Task) (t : Task) (i : nat) :
  NoDup (task_id <$> l) ->
  sort_by_order (filter (in_group projectId parentId) l) !! i = Some t ->
  relabel projectId parentId l t = task_with_order (Z.of_nat i) t.
Proof.
  intros Hnd Hi. unfold relabel, compact_key.
  set (sorted := sort_by_order (filter (in_group projectId parentId) l)) in *.
  assert (Hr : renumber sorted !! i = Some (task_with_order (Z.of_nat i) t)).
  { unfold renumber. by rewrite list_lookup_imap, Hi. }
  apply list_elem_of_lookup_2 in Hr.
  apply id_map_lookup in Hr.
  - simpl in Hr. by rewrite Hr.
  - rewrite renumber_task_ids. by apply sorted_group_ids_NoDup.
Qed.

Lemma in_sorted_group (projectId : string) (parentId : option string)
      (l : list Task) (t : Task) :
  t ∈ sort_by_order (filter (in_group projectId parentId) l)
  <-> t ∈ l /\ in_group projectId parentId t.
Proof. rewrite sort_by_order_perm, list_elem_of_filter. tauto. Qed.

(** A task outside the group is left as it is. *)
Lemma relabel_outside (projectId : string) (parentId : option string)
      (l : list Task) (t : Task) :
  NoDup (task_id <$> l) -> t ∈ l -> ~ in_group projectId parentId t ->
  relabel projectId parentId l t = t.
Proof.
  intros Hnd Ht Hout. unfold relabel, compact_key.
  rewrite id_map_lookup_None; [done|].
  rewrite renumber_task_ids. intros Hin.
  apply list_elem_of_fmap in Hin as (s & Hid & Hs).
  apply in_sorted_group in Hs as [Hs Hgroup].
  assert (s = t) as -> by by eapply NoDup_ids_inj.
  done.
Qed.

Lemma relabel_cases (projectId : string) (parentId : option string)
      (l : list Task) (t : Task) :
  NoDup (task_id <$> l) -> t ∈ l ->
  exists n, relabel projectId parentId l t = task_with_order n t.
Proof.
  intros Hnd Ht. destruct (decide (in_group projectId parentId t)) as [Hin|Hout].
  - assert (Hs : t ∈ sort_by_order (filter (in_group projectId parentId) l)).
    { by apply in_sorted_group. }
    apply list_elem_of_lookup_1 in Hs as [i Hi].
    exists (Z.of_nat i). by eapply relabel_in_group.
  - exists (task_order t). rewrite relabel_outside by done. by destruct t.
Qed.

Lemma relabel_group (projectId : string) (parentId : option string)
      (l : list Task) (t : Task) (pid : string) (par : option string) :
  NoDup (task_id <$> l) -> t ∈ l ->
  in_group pid par (relabel projectId parentId l t) <-> in_group pid par t.
Proof.
  intros Hnd Ht. destruct (relabel_cases projectId parentId l t Hnd Ht) as [n ->].
  done.
Qed.

Lemma filter_fmap_stable {A} (P : A -> Prop) `{forall x, Decision (P x)}
      (f : A -> A) (l : list A) :
  (forall x, x ∈ l -> P (f x) <-> P x) -> filter P (f <$> l) = f <$> filter P l.
Proof.
  induction l as [|x l IH]; intros Hf; [done|].
  rewrite fmap_cons, !filter_cons.
  assert (Hx : P (f x) <-> P x) by (apply Hf; left).
  rewrite IH by (intros y Hy; apply Hf; by right).
  destruct (decide (P (f x))), (decide (P x)); tauto || done.
Qed.

Lemma filter_filter_implied {A} (P Q : A -> Prop) `{forall x, Decision (P x)}
      `{forall x, Decision (Q x)} (l : list A) :
  (forall x, x ∈ l -> P x -> Q x) -> filter P (filter Q l) = filter P l.
Proof.
  induction l as [|x l IH]; intros Himp; [done|].
  assert (Hx : P x -> Q x) by (apply Himp; left).
  specialize (IH (fun y Hy => Himp y (list_elem_of_further _ _ _ Hy))).
  rewrite (filter_cons Q). destruct (decide (Q x)) as [Hq|Hq].
  - rewrite !filter_cons. by rewrite IH.
  - rewrite IH, filter_cons. destruct (decide (P x)); tauto || done.
Qed.

(** The task list after a move: the other tasks with the old group
    renumbered, then the moved task. *)
Lemma handleSaveTask_move_tasks (orig : Task) (data : TaskData) (newProjectId : string)
      (newParentId : option string) (now : nat -> Clock) (current : AppState) :
  task_projectId orig <> newProjectId \/ task_parentId orig <> newParentId ->
  tasks (handleSaveTask (EDIT_TASK orig) data newProjectId newParentId now current)
  = (relabel (task_projectId orig) (task_parentId orig)
       (filter (fun t => task_id t <> task_id orig) (tasks current))
     <$> filter (fun t => task_id t <> task_id orig) (tasks current))
    ++ [task_with_order
          (Z.of_nat (length (filter (in_group newProjectId newParentId)
                               (filter (fun t => task_id t <> task_id orig)
                                  (tasks current)))))
          (task_moved_to newProjectId newParentId (merge_task_data orig data))].
Proof.
  intros Hmoved. unfold handleSaveTask.
  by rewrite bool_decide_eq_true_2 by done.
Qed.


(** The renumbered old group is the sorted old group renumbered, up to the
    sequence in the list. *)
Lemma relabel_sorted (projectId : string) (parentId : option string) (l : list Task) :
  NoDup (task_id <$> l) ->
  relabel projectId parentId l <$> sort_by_order (filter (in_group projectId parentId) l)
  = renumber (sort_by_order (filter (in_group projectId parentId) l)).
Proof.
  intros Hnd. apply list_eq. intros i.
  unfold renumber. rewrite list_lookup_fmap, list_lookup_imap.
  destruct (sort_by_order _ !! i) as [t|] eqn:Hi; [|done]. simpl.
  f_equal. by apply relabel_in_group.
Qed.

(** The renumbered group has the orders [0 .. n-1], each once. *)
Lemma relabel_group_orders (projectId : string) (parentId : option string)
      (l : list Task) :
  NoDup (task_id <$> l) ->
  task_order <$> (relabel projectId parentId l <$> filter (in_group projectId parentId) l)
  ≡ₚ Z.of_nat <$> seq 0 (length (filter (in_group projectId parentId) l)).
Proof.
  intros Hnd.
  rewrite <- (sort_by_order_perm (filter _ l)) at 1.
  rewrite relabel_sorted by done.
  pose proof (renumber_orders
                (sort_by_order (filter (in_group projectId parentId) l))) as Hr.
  simpl in Hr. rewrite Hr.
  by rewrite (Permutation_length (sort_by_order_perm _)).
Qed.

(** After a move the group the task left holds the tasks that stayed,
    relabelled. *)
Lemma move_old_group (orig : Task) (data : TaskData) (newProjectId : string)
      (newParentId : option string) (now : nat -> Clock) (current : AppState) :
  NoDup (task_id <$> tasks current) ->
  task_projectId orig <> newProjectId \/ task_parentId orig <> newParentId ->
  filter (in_group (task_projectId orig) (task_parentId orig))
    (tasks (handleSaveTask (EDIT_TASK orig) data newProjectId newParentId now current))
  = relabel (task_projectId orig) (task_parentId orig)
      (filter (fun t => task_id t <> task_id orig) (tasks current))
    <$> filter (in_group (task_projectId orig) (task_parentId orig))
          (filter (fun t => task_id t <> task_id orig) (tasks current)).
Proof.
  intros Hnd Hmoved. rewrite handleSaveTask_move_tasks by done.
  set (others := filter (fun t => task_id t <> task_id orig) (tasks current)).
  assert (Hnd' : NoDup (task_id <$> others)).
  { eapply sublist_NoDup; [exact Hnd|]. apply fmap_sublist, sublist_filter. }
  rewrite filter_app, filter_cons_False, filter_nil, app_nil_r.
  - apply filter_fmap_stable. intros t Ht. by apply relabel_group.
  - intros [Hp Hq]. simpl in *. destruct Hmoved; congruence.
Qed.

(** Any other group keeps its tasks; the destination group gains the moved
    task at its end. *)
Lemma move_other_group (orig : Task) (data : TaskData) (newProjectId : string)
      (newParentId : option string) (now : nat -> Clock) (current : AppState)
      (p : string) (q : option string) :
  NoDup (task_id <$> tasks current) -> orig ∈ tasks current ->
  task_projectId orig <> newProjectId \/ task_parentId orig <> newParentId ->
  ~ (p = task_projectId orig /\ q = task_parentId orig) ->
  filter (in_group p q)
    (tasks (handleSaveTask (EDIT_TASK orig) data newProjectId newParentId now current))
  = filter (in_group p q) (tasks current)
    ++ (if decide (p = newProjectId /\ q = newParentId)
        then [task_with_order
                (Z.of_nat (length (filter (in_group newProjectId newParentId)
                                     (tasks current))))
                (task_moved_to newProjectId newParentId (merge_task_data orig data))]
        else []).
Proof.
  intros Hnd Horig Hmoved Hother. rewrite handleSaveTask_move_tasks by done.
  set (others := filter (fun t => task_id t <> task_id orig) (tasks current)).
  assert (Hnd' : NoDup (task_id <$> others)).
  { eapply sublist_NoDup; [exact Hnd|]. apply fmap_sublist, sublist_filter. }
  assert (Hsame : forall p' q',
             ~ (p' = task_projectId orig /\ q' = task_parentId orig) ->
             filter (in_group p' q') others = filter (in_group p' q') (tasks current)).
  { intros p' q' Hne. apply filter_filter_implied. intros t Ht [Hp Hq] Hid.
    assert (t = orig) as -> by by apply (NoDup_ids_inj (tasks current)).
    by apply Hne. }
  rewrite filter_app. f_equal.
  - rewrite filter_fmap_stable by (intros t Ht; by apply relabel_group).
    rewrite Hsame by done.
    rewrite <- (list_fmap_id (filter (in_group p q) (tasks current))) at 2.
    rewrite <- (Hsame p q Hother).
    apply list_fmap_ext. intros k t Hk.
    apply list_elem_of_lookup_2, list_elem_of_filter in Hk as [[Hp Hq] Ht].
    apply relabel_outside; [done..|]. intros [Hp' Hq']. apply Hother.
    unfold id in *. split; congruence.
  - rewrite (Hsame newProjectId newParentId)
      by (intros [-> ->]; destruct Hmoved; congruence).
    destruct (decide (p = newProjectId /\ q = newParentId)) as [[-> ->]|Hne].
    + by rewrite filter_cons_True, filter_nil.
    + rewrite filter_cons_False, filter_nil; [done|].
      intros [Hp Hq]. simpl in *. by apply Hne.
Qed.


End MoveTask.

Lemma sample_ids_NoDup : NoDup (task_id <$> tasks sample_state).
Proof.
  simpl. repeat (apply NoDup_cons; split; [set_solver|]). apply NoDup_nil_2.
Qed.


(** ** Migration and import *)

Section Normalisation.

(** C8, where the code departs from it. On [old_backup] both paths run
    their defaulting and disagree: the migration replaces the empty
    [color] by the default, the import keeps it. On
    [current_state_null_start] the migration leaves the state as it is
    while the import overwrites the task's [startDate: null] with its
    [createdAt]. *)
Theorem migration_import_disagree :
  (exists m i : value,
      migration old_backup = Some m /\ handleImportData old_backup = Some i /\
      m = VObj [("projects",
                 VArr [VObj [("id", VStr "proj_1"); ("name", VStr "one");
                             ("color", VStr "#334155"); ("priority", VStr "Medium");
                             ("isArchived", VBool false); ("members", VArr []);
                             ("goals", VArr []); ("links", VArr [])]]);
                ("tasks", VArr []); ("comments", VObj []); ("activityLog", VObj [])] /\
      i = VObj [("projects",
                 VArr [VObj [("priority", VStr "Medium"); ("isArchived", VBool false);
                             ("color", VStr EmptyString); ("members", VArr []);
                             ("goals", VArr []); ("links", VArr []);
                             ("id", VStr "proj_1"); ("name", VStr "one")]]);
                ("tasks", VArr []); ("comments", VObj []); ("activityLog", VObj [])] /\
      deep_equal m i = false) /\
  (is_AppState current_state_null_start = true /\
   exists i : value,
     migration current_state_null_start = Some current_state_null_start /\
     handleImportData current_state_null_start = Some i /\
     i = VObj [("projects",
                VArr [VObj [("priority", VStr "Medium"); ("isArchived", VBool false);
                            ("color", VStr "#334155"); ("members", VArr []);
                            ("goals", VArr []); ("links", VArr []);
                            ("id", VStr "proj_1"); ("name", VStr "one");
                            ("description", VStr EmptyString);
                            ("createdAt", VStr "2024-01-01T00:00:00.000Z");
                            ("tags", VArr []); ("order", VNum 0)]]);
               ("tasks", VArr [raw_task (VStr "2024-01-01T00:00:00.000Z")]);
               ("comments", VObj []); ("activityLog", VObj [])] /\
     deep_equal current_state_null_start i = false).
Proof.
  split.
  - eexists _, _. split; [vm_compute; reflexivity|].
    split; [vm_compute; reflexivity|]. split; [reflexivity|].
    split; [reflexivity|]. vm_compute. reflexivity.
  - split; [vm_compute; reflexivity|].
    eexists. split; [vm_compute; reflexivity|].
    split; [vm_compute; reflexivity|]. split; [reflexivity|].
    vm_compute. reflexivity.
Qed.

Lemma has_field_get (f : value -> bool) (k : string) (v : value) :
  has_field f k v = true -> exists w, get v k = Some w /\ f w = true.
Proof.
  destruct v as [| | | | |items|props]; simpl; try done.
  destruct (prop_lookup k props) as [w|]; [|done]. intros Hf. by exists w.
Qed.

Lemma has_field_not_lacking (f : value -> bool) (k : string) (v : value) :
  (forall w, f w = true -> is_undefined w = false) ->
  has_field f k v = true -> lacks k v = Some false.
Proof.
  intros Hdef Hhas. apply has_field_get in Hhas as (w & Hget & Hf).
  unfold lacks. rewrite Hget. simpl. by rewrite (Hdef w Hf).
Qed.

Lemma some_items_none (f : value -> bool) (g : value -> option bool)
      (items : list value) :
  (forall x, f x = true -> g x = Some false) ->
  forallb f items = true -> some_items g items = Some false.
Proof.
  intros Hfg. induction items as [|x items IH]; simpl; [done|].
  intros Hall. apply andb_prop in Hall as [Hx Hall].
  rewrite (Hfg x Hx). by apply IH.
Qed.

Lemma is_Project_has_color (p : value) :
  is_Project p = true -> lacks "color" p = Some false.
Proof.
  unfold is_Project. intros Hp.
  repeat (apply andb_prop in Hp as [Hp ?]).
  eapply has_field_not_lacking; [|eassumption]. by intros [].
Qed.

Lemma is_Task_has_startDate (t : value) :
  is_Task t = true -> lacks "startDate" t = Some false.
Proof.
  unfold is_Task. intros Ht.
  repeat (apply andb_prop in Ht as [Ht ?]).
  eapply has_field_not_lacking; [|eassumption]. by intros [].
Qed.

(** A state in the current schema does not need migration: a [startDate]
    that is present and [null] is not [undefined]. *)
Lemma current_schema_no_migration (s : value) :
  is_AppState s = true -> needsMigration s = Some false.
Proof.
  unfold is_AppState. intros Hs.
  repeat (apply andb_prop in Hs as [Hs ?]).
  repeat match goal with
         | H : has_field _ _ _ = true |- _ =>
             apply has_field_get in H as (? & ? & ?)
         end.
  unfold needsMigration.
  repeat match goal with
         | H : get s _ = Some _ |- _ => rewrite H; clear H
         end.
  repeat match goal with
         | H : is_record_of _ ?w = true |- _ =>
             destruct w; try discriminate H; clear H
         | H : is_array_of _ ?w = true |- _ =>
             destruct w; try discriminate H; simpl in H
         end.
  simpl.
  rewrite (some_items_none is_Project (lacks "color")) by (done || apply is_Project_has_color).
  simpl.
  by rewrite (some_items_none is_Task (lacks "startDate"))
    by (done || apply is_Task_has_startDate).
Qed.

(** *** Property lists *)

Lemma prop_lookup_None (k : string) (props : list (string * value)) :
  k ∉ props.*1 -> prop_lookup k props = None.
Proof.
  induction props as [|[k' v'] props IH]; intros Hk; simpl; [done|].
  simpl in Hk. apply not_elem_of_cons in Hk as [Hne Hk].
  destruct (String.eqb k k') eqn:Heq; [by apply String.eqb_eq in Heq|by apply IH].
Qed.

Lemma prop_lookup_Some_key (k : string) (props : list (string * value)) (v : value) :
  prop_lookup k props = Some v -> k ∈ props.*1.
Proof.
  induction props as [|[k' v'] props IH]; simpl; [done|].
  destruct (String.eqb k k') eqn:Heq.
  - apply String.eqb_eq in Heq as ->. intros _. left.
  - intros Hl. right. by apply IH.
Qed.

Lemma obj_replace_keys (k : string) (v : value) (props : list (string * value)) :
  (obj_replace k v props).*1 = props.*1.
Proof.
  induction props as [|[k' v'] props IH]; simpl; [done|].
  destruct (String.eqb k k') eqn:Heq; simpl; [|f_equal; exact IH].
  by apply String.eqb_eq in Heq as ->.
Qed.

Lemma obj_replace_same (k : string) (v : value) (props : list (string * value)) :
  prop_lookup k props = Some v -> obj_replace k v props = props.
Proof.
  induction props as [|[k' v'] props IH]; simpl; [done|].
  destruct (String.eqb k k') eqn:Heq.
  - apply String.eqb_eq in Heq as ->. by intros [= ->].
  - intros Hl. by rewrite IH.
Qed.

Lemma prop_lookup_replace_eq (k : string) (v : value) (props : list (string * value)) :
  is_Some (prop_lookup k props) -> prop_lookup k (obj_replace k v props) = Some v.
Proof.
  induction props as [|[k' v'] props IH]; simpl; [by intros [? ?]|].
  destruct (String.eqb k k') eqn:Heq; simpl.
  - by rewrite String.eqb_refl.
  - rewrite Heq. apply IH.
Qed.

Lemma prop_lookup_replace_ne (k k' : string) (v : value) (props : list (string * value)) :
  k <> k' -> prop_lookup k' (obj_replace k v props) = prop_lookup k' props.
Proof.
  intros Hne. induction props as [|[k0 v0] props IH]; simpl; [done|].
  destruct (String.eqb k k0) eqn:Heq; simpl.
  - apply String.eqb_eq in Heq as <-.
    by rewrite (proj2 (String.eqb_neq k' k)) by done.
  - by rewrite IH.
Qed.

Lemma insert_index_perm (n : N) (k : string) (v : value) (props : list (string * value)) :
  insert_index n k v props ≡ₚ (k, v) :: props.
Proof.
  induction props as [|[k' v'] props IH]; simpl; [done|].
  destruct (array_index k') as [m|]; [|done].
  destruct (m <? n)%N; [|done]. rewrite IH. apply Permutation_swap.
Qed.

Lemma prop_lookup_insert_index_eq (n : N) (k : string) (v : value)
      (props : list (string * value)) :
  prop_lookup k props = None -> prop_lookup k (insert_index n k v props) = Some v.
Proof.
  induction props as [|[k' v'] props IH]; simpl.
  - by rewrite String.eqb_refl.
  - destruct (String.eqb k k') eqn:Heq; [done|]. intros Hl.
    destruct (array_index k') as [m|]; [destruct (m <? n)%N|]; simpl;
      rewrite ?String.eqb_refl, ?Heq; auto.
Qed.

Lemma prop_lookup_insert_index_ne (n : N) (k k' : string) (v : value)
      (props : list (string * value)) :
  k <> k' -> prop_lookup k' (insert_index n k v props) = prop_lookup k' props.
Proof.
  intros Hne. apply String.eqb_neq in Hne. rewrite String.eqb_sym in Hne.
  induction props as [|[k0 v0] props IH]; simpl.
  - by rewrite Hne.
  - destruct (array_index k0) as [m|]; [destruct (m <? n)%N|]; simpl;
      rewrite ?Hne, ?IH; done.
Qed.

Lemma prop_lookup_snoc (k k' : string) (v : value) (props : list (string * value)) :
  prop_lookup k' (props ++ [(k, v)]) =
  match prop_lookup k' props with
  | Some w => Some w
  | None => if String.eqb k' k then Some v else None
  end.
Proof.
  induction props as [|[k0 v0] props IH]; simpl; [done|].
  by destruct (String.eqb k' k0).
Qed.

Lemma prop_lookup_set_eq (k : string) (v : value) (props : list (string * value)) :
  prop_lookup k (obj_set k v props) = Some v.
Proof.
  unfold obj_set. destruct (prop_lookup k props) as [w|] eqn:Hl.
  - apply prop_lookup_replace_eq. by rewrite Hl.
  - destruct (array_index k) as [n|].
    + by apply prop_lookup_insert_index_eq.
    + by rewrite prop_lookup_snoc, Hl, String.eqb_refl.
Qed.

Lemma prop_lookup_set_ne (k k' : string) (v : value) (props : list (string * value)) :
  k <> k' -> prop_lookup k' (obj_set k v props) = prop_lookup k' props.
Proof.
  intros Hne. unfold obj_set. destruct (prop_lookup k props) as [w|] eqn:Hl.
  - by apply prop_lookup_replace_ne.
  - destruct (array_index k) as [n|].
    + by apply prop_lookup_insert_index_ne.
    + rewrite prop_lookup_snoc. destruct (prop_lookup k' props); [done|].
      by rewrite (proj2 (String.eqb_neq k' k)) by done.
Qed.

(** Writing the value a property already has changes nothing. *)
Lemma obj_set_same (k : string) (v : value) (props : list (string * value)) :
  prop_lookup k props = Some v -> obj_set k v props = props.
Proof.
  intros Hl. unfold obj_set. rewrite Hl. by apply obj_replace_same.
Qed.

(** *** Property lists in enumeration order *)

Lemma array_index_inj (k k' : string) (n : N) :
  array_index k = Some n -> array_index k' = Some n -> k = k'.
Proof.
  unfold array_index. intros Hk Hk'.
  destruct (digits_value k 0%N) as [a|]; [|done].
  destruct (digits_value k' 0%N) as [b|]; [|done].
  destruct ((a <? 4294967295)%N && String.eqb (pretty a) k) eqn:Ha; [|done].
  destruct ((b <? 4294967295)%N && String.eqb (pretty b) k') eqn:Hb; [|done].
  injection Hk as ->. injection Hk' as ->.
  apply andb_prop in Ha as [_ Ha]. apply andb_prop in Hb as [_ Hb].
  apply String.eqb_eq in Ha, Hb. congruence.
Qed.

Lemma key_before_trans (a b c : string) :
  key_before a b -> key_before b c -> key_before a c.
Proof.
  unfold key_before.
  destruct (array_index a), (array_index b), (array_index c); try done. lia.
Qed.

Lemma wf_props_nil : wf_props [].
Proof. split; constructor. Qed.

Lemma wf_props_replace (k : string) (v : value) (props : list (string * value)) :
  wf_props props -> wf_props (obj_replace k v props).
Proof. unfold wf_props. by rewrite obj_replace_keys. Qed.

Lemma wf_props_snoc (k : string) (v : value) (props : list (string * value)) :
  wf_props props -> k ∉ props.*1 -> array_index k = None ->
  wf_props (props ++ [(k, v)]).
Proof.
  intros [Hnd Hs] Hk Hidx. unfold wf_props. rewrite fmap_app. simpl. split.
  - apply NoDup_app. split; [done|]. split; [|apply NoDup_singleton].
    intros x Hx Hx'. apply list_elem_of_singleton in Hx' as ->. done.
  - apply StronglySorted_app_2; [|done|repeat constructor].
    intros x y _ Hy. apply list_elem_of_singleton in Hy as ->.
    unfold key_before. rewrite Hidx. by destruct (array_index x).
Qed.

Lemma wf_props_insert_index (n : N) (k : string) (v : value)
      (props : list (string * value)) :
  wf_props props -> k ∉ props.*1 -> array_index k = Some n ->
  wf_props (insert_index n k v props).
Proof.
  intros Hwf Hk Hidx. induction props as [|[k' v'] props IH]; simpl.
  - split; simpl; [apply NoDup_singleton|repeat constructor].
  - destruct Hwf as [Hnd Hs]. simpl in Hnd, Hs, Hk.
    apply NoDup_cons in Hnd as [Hk' Hnd].
    apply StronglySorted_cons in Hs as [Hall Hs].
    apply not_elem_of_cons in Hk as [Hne Hk].
    assert (Hfront : wf_props ((k, v) :: (k', v') :: props) \/
                     exists m, array_index k' = Some m /\ (m < n)%N).
    { destruct (array_index k') as [m|] eqn:Hm.
      - destruct (decide (m < n)%N) as [Hlt|Hge]; [right; eauto|]. left.
        assert (n <> m) by (intros ->; by apply Hne, (array_index_inj k k' m)).
        assert (Hkk' : key_before k k') by (unfold key_before; rewrite Hidx, Hm; lia).
        split; simpl.
        + apply NoDup_cons. split; [by apply not_elem_of_cons|].
          by apply NoDup_cons.
        + apply SSorted_cons; [by apply SSorted_cons|].
          constructor; [done|]. eapply Forall_impl; [exact Hall|].
          intros x Hx. by eapply key_before_trans.
      - left. assert (Hkk' : key_before k k') by (unfold key_before; by rewrite Hidx, Hm).
        split; simpl.
        + apply NoDup_cons. split; [by apply not_elem_of_cons|].
          by apply NoDup_cons.
        + apply SSorted_cons; [by apply SSorted_cons|].
          constructor; [done|]. eapply Forall_impl; [exact Hall|].
          intros x Hx. by eapply key_before_trans. }
    destruct (array_index k') as [m|] eqn:Hm.
    + destruct (m <? n)%N eqn:Hlt.
      * destruct (IH (conj Hnd Hs) Hk) as [Hnd' Hs'].
        assert (Hkeys : (insert_index n k v props).*1 ≡ₚ k :: props.*1).
        { by rewrite insert_index_perm. }
        split; simpl.
        -- apply NoDup_cons. split; [|done]. rewrite Hkeys.
           apply not_elem_of_cons. split; [congruence|done].
        -- apply SSorted_cons; [done|]. rewrite Hkeys. constructor; [|done].
           unfold key_before. rewrite Hm, Hidx. by apply N.ltb_lt.
      * destruct Hfront as [?|(m' & [= <-] & Hlt')]; [done|].
        apply N.ltb_ge in Hlt. lia.
    + by destruct Hfront as [?|(m' & ? & _)].
Qed.

Lemma wf_props_set (k : string) (v : value) (props : list (string * value)) :
  wf_props props -> wf_props (obj_set k v props).
Proof.
  intros Hwf. unfold obj_set. destruct (prop_lookup k props) as [w|] eqn:Hl.
  - by apply wf_props_replace.
  - assert (Hk : k ∉ props.*1).
    { intros Hin. apply list_elem_of_fmap in Hin as ([k0 v0] & -> & Hin). simpl in Hl.
      clear Hwf. induction props as [|[k1 v1] props IH]; [by apply elem_of_nil in Hin|].
      simpl in Hl. destruct (String.eqb k0 k1) eqn:Heq; [done|].
      apply elem_of_cons in Hin as [[= -> ->]|Hin]; [by rewrite String.eqb_refl in Heq|].
      by apply IH. }
    destruct (array_index k) as [n|] eqn:Hidx.
    + by apply wf_props_insert_index.
    + by apply wf_props_snoc.
Qed.

Lemma wf_props_spread (target : list (string * value)) (source : value) :
  wf_props target -> wf_props (spread_into target source).
Proof.
  unfold spread_into. generalize (own_props source). intros kvs. revert target.
  induction kvs as [|[k v] kvs IH]; intros target Hwf; simpl; [done|].
  by apply IH, wf_props_set.
Qed.

Lemma insert_index_end (n : N) (k : string) (v : value) (props : list (string * value)) :
  array_index k = Some n ->
  Forall (fun k' => key_before k' k) props.*1 ->
  insert_index n k v props = props ++ [(k, v)].
Proof.
  intros Hidx. induction props as [|[k' v'] props IH]; intros Hall; simpl; [done|].
  simpl in Hall. apply Forall_cons in Hall as [Hk' Hall].
  unfold key_before in Hk'. rewrite Hidx in Hk'.
  destruct (array_index k') as [m|]; [|done].
  rewrite (proj2 (N.ltb_lt m n)) by done. by rewrite IH.
Qed.

(** Copying a property list in enumeration order into an empty object
    gives the list back. *)
Lemma spread_into_empty (props : list (string * value)) :
  wf_props props -> spread_into [] (VObj props) = props.
Proof.
  unfold spread_into. simpl.
  induction props as [|[k v] props IH] using rev_ind; intros [Hnd Hs]; [done|].
  rewrite fmap_app in Hnd, Hs. simpl in Hnd, Hs.
  apply NoDup_app in Hnd as (Hnd & Hk & _).
  rewrite foldl_snoc, IH by (split; [done|by eapply StronglySorted_app_1_l]).
  simpl. unfold obj_set.
  assert (Hfresh : k ∉ props.*1).
  { intros Hin. apply (Hk k Hin). left. }
  rewrite prop_lookup_None by done.
  destruct (array_index k) as [n|] eqn:Hidx; [|done].
  apply insert_index_end; [done|]. apply Forall_forall. intros k' Hk'.
  eapply StronglySorted_app_1_elem_of; [exact Hs|done|left].
Qed.

(** *** Index keys are numerals *)

Lemma pretty_N_go_digits (x : N) (s : string) :
  all_digits s -> all_digits (pretty_N_go x s).
Proof.
  revert s. induction (N.lt_wf_0 x) as [x _ IH]; intros s Hs.
  assert (x = 0 \/ 0 < x)%N as [->|Hpos] by lia.
  - by rewrite pretty_N_go_0.
  - rewrite pretty_N_go_step by done. apply IH; [by apply N.div_lt|].
    intros acc. simpl.
    assert (Hlt : (x `mod` 10 < 10)%N) by by apply N.mod_lt.
    assert (Hdigit : ((48 <=? N_of_ascii (pretty_N_char (x `mod` 10)))
                      && (N_of_ascii (pretty_N_char (x `mod` 10)) <=? 57))%N = true).
    { generalize dependent (x `mod` 10)%N. intros d _.
      unfold pretty_N_char. by repeat case_match. }
    rewrite Hdigit. apply Hs.
Qed.

Lemma pretty_nat_digits (i : nat) : is_Some (digits_value (pretty i) 0%N).
Proof.
  unfold pretty, pretty_nat, pretty, pretty_N. case_decide; [by eexists|].
  apply pretty_N_go_digits. intros acc. by eexists.
Qed.

Lemma name_not_index (k : string) (i : nat) : digits_value k 0%N = None -> k <> pretty i.
Proof. intros Hk ->. destruct (pretty_nat_digits i) as [n Hn]. congruence. Qed.

Lemma name_not_in_index_items (k : string) (i : nat) (items : list value) :
  digits_value k 0%N = None -> k ∉ (index_items i items).*1.
Proof.
  intros Hk. revert i. induction items as [|x items IH]; intros i; simpl.
  - apply not_elem_of_nil.
  - apply not_elem_of_cons. split; [by apply name_not_index|apply IH].
Qed.

Lemma name_not_in_index_chars (k : string) (i : nat) (s : string) :
  digits_value k 0%N = None -> k ∉ (index_chars i s).*1.
Proof.
  intros Hk. revert i. induction s as [|c s IH]; intros i; simpl.
  - apply not_elem_of_nil.
  - apply not_elem_of_cons. split; [by apply name_not_index|apply IH].
Qed.

(** *** Reading a property after a spread *)

Lemma prop_lookup_build_other (k : string) (kvs acc : list (string * value)) :
  k ∉ kvs.*1 ->
  prop_lookup k (foldl (fun a kv => obj_set kv.1 kv.2 a) acc kvs) = prop_lookup k acc.
Proof.
  revert acc. induction kvs as [|[k0 v0] kvs IH]; intros acc Hk; simpl; [done|].
  simpl in Hk. apply not_elem_of_cons in Hk as [Hne Hk].
  rewrite IH by done. by apply prop_lookup_set_ne.
Qed.

Lemma prop_lookup_build (k : string) (kvs acc : list (string * value)) :
  NoDup kvs.*1 ->
  prop_lookup k (foldl (fun a kv => obj_set kv.1 kv.2 a) acc kvs) =
  match prop_lookup k kvs with
  | Some v => Some v
  | None => prop_lookup k acc
  end.
Proof.
  revert acc. induction kvs as [|[k0 v0] kvs IH]; intros acc Hnd; simpl; [done|].
  simpl in Hnd. apply NoDup_cons in Hnd as [Hk0 Hnd].
  destruct (String.eqb k k0) eqn:Heq.
  - apply String.eqb_eq in Heq as ->.
    rewrite prop_lookup_build_other by done. apply prop_lookup_set_eq.
  - rewrite IH by done. destruct (prop_lookup k kvs); [done|].
    apply prop_lookup_set_ne. intros ->. by rewrite String.eqb_refl in Heq.
Qed.

(** The object a spread builds answers a read of a field name the way the
    spread value did. *)
Lemma get_after_spread (v : value) (k : string) (g : value) :
  unique_keys v = true -> digits_value k 0%N = None ->
  get v k = Some g ->
  default VUndef (prop_lookup k (spread_into [] v)) = g.
Proof.
  intros Hu Hk Hget. unfold spread_into.
  destruct v as [| |b|n|s|items|props]; simpl in Hget; try done;
    injection Hget as <-; simpl own_props.
  - done.
  - done.
  - by rewrite prop_lookup_build_other by by apply name_not_in_index_chars.
  - by rewrite prop_lookup_build_other by by apply name_not_in_index_items.
  - simpl in Hu. apply andb_prop in Hu as [Hnd _]. apply bool_decide_eq_true_1 in Hnd.
    rewrite prop_lookup_build by done. by destruct (prop_lookup k props).
Qed.

Lemma or_else_idem (a d : value) : or_else (or_else a d) d = or_else a d.
Proof.
  unfold or_else. destruct (truthy a) eqn:Ha; [by rewrite Ha|].
  by destruct (truthy d).
Qed.

Lemma or_else_truthy (a d : value) : truthy d = true -> truthy (or_else a d) = true.
Proof. intros Hd. unfold or_else. by destruct (truthy a) eqn:Ha. Qed.

(** *** The two callbacks are idempotent *)

Lemma get_obj (props : list (string * value)) (k : string) :
  get (VObj props) k = Some (default VUndef (prop_lookup k props)).
Proof. reflexivity. Qed.

Local Opaque obj_set spread_into get.

Lemma migrate_task_idem (t t' : value) :
  unique_keys t = true -> migrate_task t = Some t' -> migrate_task t' = Some t'.
Proof.
  intros Hu. unfold migrate_task.
  destruct (get t "startDate") as [sd|] eqn:Hsd; [|done].
  destruct (get t "createdAt") as [ca|] eqn:Hca; [|done].
  simpl. intros [= <-].
  assert (Hwf : wf_props (obj_set "startDate" (or_else sd ca) (spread_into [] t))).
  { apply wf_props_set, wf_props_spread, wf_props_nil. }
  rewrite !get_obj. simpl.
  rewrite prop_lookup_set_eq, prop_lookup_set_ne by done. simpl.
  rewrite (get_after_spread t "createdAt" ca) by done.
  rewrite or_else_idem, spread_into_empty by done.
  by rewrite obj_set_same by apply prop_lookup_set_eq.
Qed.

Lemma migrate_project_inv (p p' : value) :
  migrate_project p = Some p' ->
  exists priority isArchived color members goals links,
    p' = VObj (with_project_defaults priority isArchived color members goals links
                 (spread_into [] p)).
Proof.
  unfold migrate_project.
  destruct (get p "priority") as [priority|]; [|done].
  destruct (get p "isArchived") as [isArchived|]; [|done].
  destruct (get p "color") as [color|]; [|done].
  destruct (get p "members") as [members|]; [|done].
  destruct (get p "goals") as [goals|]; [|done].
  destruct (get p "links") as [links|]; [|done].
  simpl. intros [= <-]. by exists priority, isArchived, color, members, goals, links.
Qed.

Lemma migrate_project_fixed (priority isArchived color members goals links : value)
      (base : list (string * value)) :
  wf_props base ->
  migrate_project
    (VObj (with_project_defaults priority isArchived color members goals links base))
  = Some (VObj (with_project_defaults priority isArchived color members goals links base)).
Proof.
  intros Hbase.
  set (props := with_project_defaults priority isArchived color members goals links base).
  assert (Hwf : wf_props props).
  { unfold props, with_project_defaults. by repeat apply wf_props_set. }
  assert (Hpriority : prop_lookup "priority" props = Some (or_else priority (VStr "Medium"))).
  { unfold props, with_project_defaults.
    rewrite !prop_lookup_set_ne by done. apply prop_lookup_set_eq. }
  assert (HisArchived :
            prop_lookup "isArchived" props = Some (or_else isArchived (VBool false))).
  { unfold props, with_project_defaults.
    rewrite !prop_lookup_set_ne by done. apply prop_lookup_set_eq. }
  assert (Hcolor : prop_lookup "color" props = Some (or_else color (VStr default_color))).
  { unfold props, with_project_defaults.
    rewrite !prop_lookup_set_ne by done. apply prop_lookup_set_eq. }
  assert (Hmembers : prop_lookup "members" props = Some (or_else members (VArr []))).
  { unfold props, with_project_defaults.
    rewrite !prop_lookup_set_ne by done. apply prop_lookup_set_eq. }
  assert (Hgoals : prop_lookup "goals" props = Some (or_else goals (VArr []))).
  { unfold props, with_project_defaults.
    rewrite !prop_lookup_set_ne by done. apply prop_lookup_set_eq. }
  assert (Hlinks : prop_lookup "links" props = Some (or_else links (VArr []))).
  { unfold props, with_project_defaults. apply prop_lookup_set_eq. }
  unfold migrate_project. rewrite !get_obj.
  rewrite Hpriority, HisArchived, Hcolor, Hmembers, Hgoals, Hlinks. simpl.
  rewrite !or_else_idem, spread_into_empty by done.
  rewrite (obj_set_same "priority") by done.
  rewrite (obj_set_same "isArchived") by done.
  rewrite (obj_set_same "color") by done.
  rewrite (obj_set_same "members") by done.
  rewrite (obj_set_same "goals") by done.
  by rewrite (obj_set_same "links") by done.
Qed.

Lemma migrate_project_idem (p p' : value) :
  migrate_project p = Some p' -> migrate_project p' = Some p'.
Proof.
  intros Hp. apply migrate_project_inv in Hp as (? & ? & ? & ? & ? & ? & ->).
  apply migrate_project_fixed, wf_props_spread, wf_props_nil.
Qed.

Local Transparent obj_set spread_into get.

(** *** The migration is idempotent *)

Lemma unique_keys_prop (props : list (string * value)) (k : string) (w : value) :
  unique_keys (VObj props) = true -> prop_lookup k props = Some w ->
  unique_keys w = true.
Proof.
  simpl. intros Hu. apply andb_prop in Hu as [_ Hall].
  induction props as [|[k0 v0] props IH]; simpl; [done|].
  apply andb_prop in Hall as [Hv0 Hall].
  destruct (String.eqb k k0); [by intros [= <-]|by apply IH].
Qed.

Lemma unique_keys_get (v : value) (k : string) (w : value) :
  unique_keys v = true -> get v k = Some w -> unique_keys w = true.
Proof.
  intros Hu. destruct v as [| |b|n|s|items|props]; simpl; try done;
    try by intros [= <-].
  destruct (prop_lookup k props) as [w0|] eqn:Hl; simpl; intros [= <-]; [|done].
  by eapply unique_keys_prop.
Qed.

Lemma unique_keys_or_else (a d : value) :
  unique_keys a = true -> unique_keys d = true -> unique_keys (or_else a d) = true.
Proof. intros Ha Hd. unfold or_else. by destruct (truthy a). Qed.

Lemma mapM_idem (f : value -> option value) (l l' : list value) :
  (forall x y, x ∈ l -> f x = Some y -> f y = Some y) ->
  mapM f l = Some l' -> mapM f l' = Some l'.
Proof.
  intros Hf Hmap. apply mapM_Some in Hmap. apply mapM_Some.
  induction Hmap as [|x y l l' Hxy Hmap IH]; [constructor|].
  constructor.
  - apply (Hf x y); [left|done].
  - apply IH. intros x0 y0 Hin. apply Hf. by right.
Qed.

Lemma array_map_idem (f : value -> option value) (v : value) (l' : list value) :
  (forall x y, unique_keys x = true -> f x = Some y -> f y = Some y) ->
  unique_keys v = true ->
  array_map f v = Some l' -> array_map f (VArr l') = Some l'.
Proof.
  intros Hf Hu. destruct v as [| |b|n|s|items|props]; simpl; try done.
  apply mapM_idem. intros x y Hin. apply Hf.
  simpl in Hu. rewrite forallb_forall in Hu. by apply Hu, list_elem_of_In.
Qed.

Lemma array_map_fixed (f : value -> option value) (v : value) (l' : list value) :
  (forall x y, unique_keys x = true -> f x = Some y -> f y = Some y) ->
  unique_keys v = true ->
  array_map f v = Some l' -> Forall (fun y => f y = Some y) l'.
Proof.
  intros Hf Hu Hmap. pose proof (array_map_idem f v l' Hf Hu Hmap) as Hfix.
  simpl in Hfix. apply mapM_Some in Hfix.
  apply Forall_forall. intros y Hy.
  apply list_elem_of_lookup_1 in Hy as [i Hi].
  by destruct (Forall2_lookup_l _ _ _ i y Hfix Hi) as (y' & Hi' & Hy');
    rewrite Hi in Hi'; injection Hi' as <-.
Qed.

(** The shape of a migrated state, with every project and task a fixed
    point of its callback. *)
Lemma migratedState_inv (x y : value) :
  unique_keys x = true -> migratedState x = Some y ->
  exists projects tasks c a,
    y = VObj [("projects", VArr projects); ("tasks", VArr tasks);
              ("comments", or_else c (VObj [])); ("activityLog", or_else a (VObj []))] /\
    Forall (fun p => migrate_project p = Some p) projects /\
    Forall (fun t => migrate_task t = Some t) tasks.
Proof.
  intros Hu. unfold migratedState.
  destruct (get x "projects") as [ps|] eqn:Hps; [|done]. simpl.
  destruct (array_map migrate_project (or_else ps (VArr []))) as [projects|] eqn:Hpm;
    [|done]. simpl.
  destruct (get x "tasks") as [ts|] eqn:Hts; [|done]. simpl.
  destruct (array_map migrate_task (or_else ts (VArr []))) as [tasks|] eqn:Htm;
    [|done]. simpl.
  destruct (get x "comments") as [c|]; [|done]. simpl.
  destruct (get x "activityLog") as [a|]; [|done]. simpl.
  intros [= <-]. exists projects, tasks, c, a. split; [done|]. split.
  - apply (array_map_fixed migrate_project (or_else ps (VArr [])) projects);
      [|apply unique_keys_or_else; [exact (unique_keys_get x _ ps Hu Hps)|done]|exact Hpm].
    intros p p' _. apply migrate_project_idem.
  - apply (array_map_fixed migrate_task (or_else ts (VArr [])) tasks);
      [|apply unique_keys_or_else; [exact (unique_keys_get x _ ts Hu Hts)|done]|exact Htm].
    apply migrate_task_idem.
Qed.

Lemma mapM_fixed (f : value -> option value) (l : list value) :
  Forall (fun y => f y = Some y) l -> mapM f l = Some l.
Proof.
  intros Hfix. apply mapM_Some. induction Hfix; by constructor.
Qed.

Lemma migratedState_fixed (projects tasks : list value) (c a : value) :
  Forall (fun p => migrate_project p = Some p) projects ->
  Forall (fun t => migrate_task t = Some t) tasks ->
  migratedState
    (VObj [("projects", VArr projects); ("tasks", VArr tasks);
           ("comments", or_else c (VObj [])); ("activityLog", or_else a (VObj []))])
  = Some (VObj [("projects", VArr projects); ("tasks", VArr tasks);
                ("comments", or_else c (VObj []));
                ("activityLog", or_else a (VObj []))]).
Proof.
  intros Hps Hts. unfold migratedState. rewrite !get_obj. simpl.
  rewrite (mapM_fixed _ _ Hps). simpl. rewrite (mapM_fixed _ _ Hts). simpl.
  by rewrite !or_else_idem.
Qed.

Lemma some_items_total (f : value -> option bool) (l : list value) :
  Forall (fun x => is_Some (f x)) l -> is_Some (some_items f l).
Proof.
  induction 1 as [|x l [b Hb] _ IH]; simpl; [by eexists|].
  rewrite Hb. destruct b; [by eexists|done].
Qed.

Lemma migrate_project_lacks (p p' : value) :
  migrate_project p = Some p' -> is_Some (lacks "color" p).
Proof.
  unfold migrate_project, lacks. destruct (get p "priority"); [|done]. simpl.
  destruct (get p "isArchived"); [|done]. simpl.
  destruct (get p "color"); [|done]. by eexists.
Qed.

Lemma migrate_task_lacks (t t' : value) :
  migrate_task t = Some t' -> is_Some (lacks "startDate" t).
Proof.
  unfold migrate_task, lacks. destruct (get t "startDate"); [|done]. by eexists.
Qed.

Lemma needsMigration_total (projects tasks : list value) (c a : value) :
  Forall (fun p => migrate_project p = Some p) projects ->
  Forall (fun t => migrate_task t = Some t) tasks ->
  is_Some (needsMigration
             (VObj [("projects", VArr projects); ("tasks", VArr tasks);
                    ("comments", c); ("activityLog", a)])).
Proof.
  intros Hps Hts. unfold needsMigration. rewrite !get_obj. simpl.
  destruct (truthy c); simpl; [|by eexists].
  destruct (truthy a); simpl; [|by eexists].
  destruct (some_items_total (lacks "color") projects) as [b Hb].
  { eapply Forall_impl; [exact Hps|]. intros p. apply migrate_project_lacks. }
  rewrite Hb. simpl. destruct b; [by eexists|].
  apply some_items_total.
  eapply Forall_impl; [exact Hts|]. intros t. apply migrate_task_lacks.
Qed.

Lemma migratedState_idem (x y : value) :
  unique_keys x = true -> migratedState x = Some y -> migratedState y = Some y.
Proof.
  intros Hu Hm.
  apply migratedState_inv in Hm as (projects & tasks & c & a & -> & Hps & Hts); [|done].
  by apply migratedState_fixed.
Qed.

Lemma migration_idem (x y : value) :
  unique_keys x = true -> migration x = Some y -> migration y = Some y.
Proof.
  intros Hu. unfold migration at 1.
  destruct (needsMigration x) as [[|]|] eqn:Hneed; simpl; [| |done].
  - intros Hm.
    apply migratedState_inv in Hm as (projects & tasks & c & a & -> & Hps & Hts); [|done].
    unfold migration.
    destruct (needsMigration_total projects tasks (or_else c (VObj []))
                (or_else a (VObj [])) Hps Hts) as [b ->].
    simpl. destruct b; [|done]. by apply migratedState_fixed.
  - intros [= <-]. unfold migration. by rewrite Hneed.
Qed.

(** C9. The load-time migration returns a state in the current schema as
    it is, a task with [startDate: null] included, and running it on its
    own result changes nothing; the same holds for the rewrite step
    [migratedState] alone. (Objects list each key once.) *)
Theorem migration_identity_idempotent (x : value) :
  (is_AppState x = true -> migration x = Some x) /\
  (unique_keys x = true ->
   forall y, migration x = Some y -> migration y = Some y) /\
  (unique_keys x = true ->
   forall y, migratedState x = Some y -> migratedState y = Some y).
Proof.
  split; [|split].
  - intros Hs. unfold migration. by rewrite current_schema_no_migration.
  - intros Hu y. by apply migration_idem.
  - intros Hu y. by apply migratedState_idem.
Qed.

Lemma migration_identity_idempotent_witness :
  is_AppState current_state_null_start = true /\
  migration current_state_null_start = Some current_state_null_start /\
  unique_keys old_backup = true /\
  exists y, migration old_backup = Some y /\ migration y = Some y.
Proof.
  destruct (migration_identity_idempotent current_state_null_start) as [Hid _].
  destruct (migration_identity_idempotent old_backup) as (_ & Hidem & _).
  assert (Hs : is_AppState current_state_null_start = true) by (vm_compute; reflexivity).
  assert (Hu : unique_keys old_backup = true) by (vm_compute; reflexivity).
  split; [exact Hs|]. split; [exact (Hid Hs)|]. split; [exact Hu|].
  eexists. split; [vm_compute; reflexivity|].
  apply (Hidem Hu). vm_compute. reflexivity.
Defined.

End Normalisation.

(** ** Dense orders under create, edit and move

    The part of the ordering invariant the handlers do keep: starting from
    unique ids and dense sibling groups, creating a task with a fresh id
    and editing or moving a task of the state leave every group dense. *)

Section DenseOrders.

Lemma max_order_bounds (l : list Task) (a : Z) :
  a <= max_order a l /\ Forall (fun t => task_order t <= max_order a l) l /\
  (max_order a l = a \/ max_order a l ∈ task_order <$> l).
Proof.
  revert a. induction l as [|t l IH]; intros a.
  - split; [done|]. split; [constructor|by left].
  - change (max_order a (t :: l)) with (max_order (Z.max (task_order t) a) l).
    destruct (IH (Z.max (task_order t) a)) as (Hle & Hall & Hin).
    split; [lia|]. split; [constructor; [lia|done]|].
    destruct Hin as [Heq|Hin]; [|right; rewrite fmap_cons; by right].
    destruct (Z.max_spec (task_order t) a) as [[_ Hm]|[_ Hm]]; rewrite Hm in *.
    + by left.
    + right. rewrite Heq, fmap_cons. left.
Qed.

Lemma plus_one_safe (x : Z) :
  -9007199254740992 <= x < 9007199254740992 -> plus_one x = x + 1.
Proof. intros Hx. unfold plus_one. by rewrite bool_decide_eq_true_2. Qed.

Lemma plus_one_le (x : Z) : x <= plus_one x.
Proof.
  unfold plus_one. repeat case_bool_decide; try lia. destruct (Z.even _); lia.
Qed.

(** In a dense group that fits an array [max + 1] is the size of the
    group. *)
Lemma max_order_dense (l : list Task) :
  task_order <$> l ≡ₚ Z.of_nat <$> seq 0 (length l) ->
  Z.of_nat (length l) < 4294967295 ->
  plus_one (foldl (fun max t => Z.max (task_order t) max) (-1) l) = Z.of_nat (length l).
Proof.
  intros Hperm Hfits. destruct (max_order_bounds l (-1)) as (Hle & Hall & Hin).
  fold (max_order (-1) l). set (r := max_order (-1) l) in *.
  assert (Hupper : r <= Z.of_nat (length l) - 1).
  { destruct Hin as [->|Hin]; [lia|].
    rewrite Hperm in Hin. apply list_elem_of_fmap in Hin as (i & -> & Hi).
    apply elem_of_seq in Hi. lia. }
  rewrite plus_one_safe by lia.
  destruct l as [|t0 l0] eqn:Hl; [simpl in *; lia|]. rewrite <- Hl in *.
  assert (Hlen : (0 < length l)%nat) by (rewrite Hl; simpl; lia).
  assert (Htop : Z.of_nat (length l - 1) ∈ task_order <$> l).
  { rewrite Hperm. apply list_elem_of_fmap_2, elem_of_seq. lia. }
  apply list_elem_of_fmap in Htop as (t & Ht & Hin').
  rewrite Forall_forall in Hall. specialize (Hall t Hin'). lia.
Qed.

Lemma dense_snoc (orders : list Z) :
  orders ≡ₚ Z.of_nat <$> seq 0 (length orders) ->
  orders ++ [Z.of_nat (length orders)]
  ≡ₚ Z.of_nat <$> seq 0 (length (orders ++ [Z.of_nat (length orders)])).
Proof.
  intros Hperm. rewrite length_app. simpl.
  replace (length orders + 1)%nat with (S (length orders)) by lia.
  rewrite seq_S, fmap_app. simpl. by rewrite <- Hperm.
Qed.

Lemma create_keeps_dense (data : TaskData) (projectId : string) (parentId : option string)
      (now : nat -> Clock) (current : AppState) (pid0 : string) (par0 : option string) :
  dense (tasks current) ->
  Z.of_nat (length (tasks current)) < 4294967295 ->
  dense (tasks (handleSaveTask (CREATE_TASK pid0 par0) data projectId parentId now current)).
Proof.
  intros Hdense Hfits p q. simpl. unfold group_orders.
  rewrite filter_app, fmap_app.
  destruct (decide (in_group projectId parentId
                      {| task_id := "task_" +:+ pretty (now_ms (now 0%nat));
                         task_projectId := projectId; task_parentId := parentId;
                         task_title := data_title data;
                         task_description := data_description data;
                         task_status := data_status data;
                         task_priority := data_priority data;
                         task_startDate := data_startDate data;
                         task_dueDate := data_dueDate data;
                         task_tags := data_tags data; task_isFocused := false;
                         task_createdAt := now_iso (now 0%nat);
                         task_order :=
                           plus_one
                             (foldl (fun max t => Z.max (task_order t) max) (-1)
                                (filter (in_group projectId parentId)
                                   (tasks current))) |}))
    as [_|Hout]; [|by destruct Hout].
  destruct (decide (p = projectId /\ q = parentId)) as [[-> ->]|Hother].
  - rewrite filter_cons_True, filter_nil by done. simpl.
    pose proof (Hdense projectId parentId) as Hg. unfold group_orders in Hg.
    rewrite max_order_dense.
    2: { by rewrite length_fmap in Hg. }
    2: { pose proof (length_filter (in_group projectId parentId) (tasks current)). lia. }
    rewrite <- (length_fmap task_order). by apply dense_snoc.
  - rewrite filter_cons_False, filter_nil by (intros [? ?]; simpl in *; by apply Hother).
    simpl. rewrite !app_nil_r. apply Hdense.
Qed.

Lemma edit_in_place_keeps_group_orders (orig : Task) (data : TaskData) (l : list Task)
      (p : string) (q : option string) :
  NoDup (task_id <$> l) -> orig ∈ l ->
  group_orders p q
    ((fun t => if bool_decide (task_id t = task_id orig)
               then merge_task_data orig data else t) <$> l)
  = group_orders p q l.
Proof.
  intros Hnd Horig. unfold group_orders.
  set (f := fun t => if bool_decide (task_id t = task_id orig)
                     then merge_task_data orig data else t).
  assert (Hf : forall t, t ∈ l ->
                 task_projectId (f t) = task_projectId t /\
                 task_parentId (f t) = task_parentId t /\
                 task_order (f t) = task_order t).
  { intros t Ht. unfold f. case_bool_decide as Hid; [|done].
    by assert (t = orig) as -> by by apply (NoDup_ids_inj l). }
  rewrite filter_fmap_stable.
  - rewrite <- list_fmap_compose. apply list_fmap_ext. intros i t Hi. simpl.
    apply Hf. apply list_elem_of_lookup_2, list_elem_of_filter in Hi. tauto.
  - intros t Ht. unfold in_group. destruct (Hf t Ht) as (-> & -> & _). done.
Qed.

Lemma move_keeps_dense (orig : Task) (data : TaskData) (newProjectId : string)
      (newParentId : option string) (now : nat -> Clock) (current : AppState) :
  NoDup (task_id <$> tasks current) -> orig ∈ tasks current ->
  task_projectId orig <> newProjectId \/ task_parentId orig <> newParentId ->
  dense (tasks current) ->
  dense (tasks (handleSaveTask (EDIT_TASK orig) data newProjectId newParentId now current)).
Proof.
  intros Hnd Horig Hmoved Hdense p q. unfold group_orders.
  destruct (decide (p = task_projectId orig /\ q = task_parentId orig))
    as [[-> ->]|Hother].
  - rewrite move_old_group by done. rewrite !length_fmap.
    apply relabel_group_orders.
    eapply sublist_NoDup; [exact Hnd|]. apply fmap_sublist, sublist_filter.
  - rewrite move_other_group by done.
    destruct (decide (p = newProjectId /\ q = newParentId)) as [[-> ->]|Hne].
    + rewrite fmap_app. simpl.
      rewrite <- (length_fmap task_order). apply dense_snoc, Hdense.
    + rewrite app_nil_r. apply Hdense.
Qed.

Lemma move_keeps_ids_NoDup (orig : Task) (data : TaskData) (newProjectId : string)
      (newParentId : option string) (now : nat -> Clock) (current : AppState) :
  NoDup (task_id <$> tasks current) ->
  task_projectId orig <> newProjectId \/ task_parentId orig <> newParentId ->
  NoDup (task_id <$>
           tasks (handleSaveTask (EDIT_TASK orig) data newProjectId newParentId now current)).
Proof.
  intros Hnd Hmoved. rewrite handleSaveTask_move_tasks by done.
  set (others := filter (fun t => task_id t <> task_id orig) (tasks current)).
  assert (Hnd' : NoDup (task_id <$> others)).
  { eapply sublist_NoDup; [exact Hnd|]. apply fmap_sublist, sublist_filter. }
  assert (Hids : task_id <$> (relabel (task_projectId orig) (task_parentId orig) others
                              <$> others) = task_id <$> others).
  { rewrite <- list_fmap_compose. apply list_fmap_ext. intros i t Hi. simpl.
    apply list_elem_of_lookup_2 in Hi.
    by destruct (relabel_cases (task_projectId orig) (task_parentId orig) others t Hnd' Hi)
      as [n ->]. }
  rewrite fmap_app, Hids. simpl. apply NoDup_app. split; [done|].
  split; [|apply NoDup_singleton].
  intros x Hx Hx'. apply list_elem_of_singleton in Hx' as ->.
  apply list_elem_of_fmap in Hx as (t & Hid & Ht).
  apply list_elem_of_filter in Ht as [Hne _]. by apply Hne.
Qed.

Lemma save_task_keeps_order (modalState : ModalState) (data : TaskData)
      (projectId : string) (parentId : option string) (now : nat -> Clock)
      (current : AppState) :
  ordered_state current -> save_accepted modalState now current ->
  ordered_state (handleSaveTask modalState data projectId parentId now current).
Proof.
  intros [Hnd Hdense] Hacc. destruct modalState as [| |?|pid0 par0|orig|?|?]; try done.
  - destruct Hacc as [Hfresh Hfits]. split; [|by apply create_keeps_dense].
    simpl. rewrite fmap_app. simpl. apply NoDup_app. split; [done|].
    split; [|apply NoDup_singleton].
    intros x Hx Hx'. apply list_elem_of_singleton in Hx' as ->. by apply Hfresh.
  - simpl in Hacc.
    destruct (decide (task_projectId orig <> projectId \/ task_parentId orig <> parentId))
      as [Hmoved|Hstay].
    + split; [by apply move_keeps_ids_NoDup|by apply move_keeps_dense].
    + assert (Htasks :
                tasks (handleSaveTask (EDIT_TASK orig) data projectId parentId now current)
                = (fun t => if bool_decide (task_id t = task_id orig)
                            then merge_task_data orig data else t) <$> tasks current).
      { unfold handleSaveTask. by rewrite bool_decide_eq_false_2 by done. }
      unfold ordered_state. rewrite Htasks. split.
      * rewrite <- list_fmap_compose.
        erewrite list_fmap_ext; [exact Hnd|]. intros i t _. simpl.
        by case_bool_decide.
      * intros p q. rewrite edit_in_place_keeps_group_orders by done. apply Hdense.
Qed.

(** Creating, editing and moving tasks, in any sequence, keeps ids unique
    and every sibling group numbered [0 .. n-1]. *)
Lemma saves_keep_order (cs : list SaveCall) (s : AppState) :
  ordered_state s -> saves_accepted cs s ->
  ordered_state (foldl (fun st c => apply_save c st) s cs).
Proof.
  revert s. induction cs as [|c cs IH]; intros s Hord Hacc; simpl; [done|].
  destruct Hacc as [Hc Hrest]. apply IH; [|done].
  by apply save_task_keeps_order.
Qed.

End DenseOrders.

(** * Further properties of the code *)

(** ** The history as a window on the pushed states *)

Section HistoryWindow.
Context {T : Type}.
Variable stringify : T -> option string.

Lemma each_differs_snoc (prev : T) (pushed : list T) (s : T) :
  each_differs stringify prev (pushed ++ [s]) <->
  each_differs stringify prev pushed /\
  stringify s <> stringify (default prev (last pushed)).
Proof.
  revert prev. induction pushed as [|x pushed IH]; intros prev; simpl.
  - tauto.
  - rewrite IH. destruct pushed as [|y pushed]; simpl; [tauto|].
    rewrite !last_cons. destruct (last pushed); simpl; tauto.
Qed.

(** After any number of pushes that each change the serialised state, the
    history is the 50 most recent states of the whole sequence, oldest
    first, and the cursor is on the last one. *)
Theorem history_is_recent_window (initialState : T) (pushed : list T) :
  each_differs stringify initialState pushed ->
  push_all stringify pushed (useUndoableState initialState) =
    {| history := drop (length (initialState :: pushed) - 50) (initialState :: pushed);
       currentIndex := (Nat.min (length (initialState :: pushed)) 50 - 1)%nat |}.
Proof.
  induction pushed as [|s pushed IH] using rev_ind; intros Hdiff.
  - reflexivity.
  - apply each_differs_snoc in Hdiff as [Hdiff Hs].
    unfold push_all in *. rewrite foldl_snoc, IH by done. clear IH.
    set (all := initialState :: pushed) in *.
    assert (Hlast : default initialState (last pushed) = default initialState (last all)).
    { unfold all. rewrite last_cons. by destruct (last pushed). }
    assert (Hlen : (0 < length all)%nat) by (unfold all; simpl; lia).
    set (u := {| history := drop (length all - 50) all;
                 currentIndex := (Nat.min (length all) 50 - 1)%nat |}).
    assert (Hwf : wf u).
    { unfold wf, u; cbn [history currentIndex]. rewrite length_drop. lia. }
    assert (Hstate : state u = last all).
    { unfold state, u; cbn [history currentIndex]. rewrite lookup_drop, last_lookup. f_equal. lia. }
    assert (Hacc : accepted stringify s u).
    { unfold accepted. rewrite Hstate. rewrite Hlast in Hs.
      destruct (last all) as [x|] eqn:Hl; [done|].
      apply last_None in Hl. rewrite Hl in Hlen. simpl in Hlen. lia. }
    change (initialState :: pushed ++ [s]) with ((initialState :: pushed) ++ [s]).
    fold all. rewrite length_app. change (length [s]) with 1%nat.
    destruct (decide (length all < 50)%nat) as [Hsmall|Hbig].
    + rewrite setState_accepted_small; [|done|done|unfold u; cbn [history currentIndex]; lia].
      unfold u; cbn [history currentIndex]. f_equal.
      * replace (length all - 50)%nat with 0%nat by lia.
        replace (length all + 1 - 50)%nat with 0%nat by lia.
        rewrite !drop_0. rewrite take_ge; [done|lia].
      * lia.
    + rewrite setState_accepted_full; [|done|done|unfold u; cbn [history currentIndex]; lia].
      unfold u; cbn [history currentIndex]. f_equal.
      * rewrite drop_drop.
        replace (length all + 1 - 50)%nat with (length all - 50 + 1)%nat by lia.
        rewrite drop_app_le by lia. done.
      * lia.
Qed.

End HistoryWindow.

Lemma history_is_recent_window_witness :
  each_differs Some "S0" ["S1"; "S2"] /\
  push_all Some ["S1"; "S2"] (useUndoableState "S0") =
    {| history := ["S0"; "S1"; "S2"]; currentIndex := 2 |}.
Proof.
  assert (Hd : each_differs Some "S0" ["S1"; "S2"]).
  { simpl. repeat split; by intros [=]. }
  split; [exact Hd|].
  exact (history_is_recent_window (T := string) Some "S0" ["S1"; "S2"] Hd).
Defined.

(** ** Stepping through the history *)

Section UndoRedoSteps.
Context {T : Type}.

Lemma undo_steps (u : Undoable T) (k : nat) :
  Nat.iter k undo u =
    {| history := history u; currentIndex := (currentIndex u - k)%nat |}.
Proof.
  induction k as [|k IH]; simpl.
  - destruct u as [h i]; simpl. f_equal. lia.
  - rewrite IH. unfold undo; simpl. case_bool_decide; f_equal; lia.
Qed.

Lemma redo_steps (u : Undoable T) (k : nat) :
  wf u ->
  Nat.iter k redo u =
    {| history := history u;
       currentIndex := Nat.min (currentIndex u + k) (length (history u) - 1) |}.
Proof.
  intros [Hi Hlen]. induction k as [|k IH]; simpl.
  - destruct u as [h i]; simpl in *. f_equal. lia.
  - rewrite IH. unfold redo, canRedo; cbn [history currentIndex].
    case_bool_decide; f_equal; lia.
Qed.

(** [k] undos move the cursor back [k] entries and stop at the first one;
    [k] redos move it forward and stop at the last one; neither touches the
    history; and as many redos as undos that had room bring the store
    back. *)
Theorem undo_redo_steps (u : Undoable T) (k : nat) :
  wf u ->
  Nat.iter k undo u =
    {| history := history u; currentIndex := (currentIndex u - k)%nat |} /\
  Nat.iter k redo u =
    {| history := history u;
       currentIndex := Nat.min (currentIndex u + k) (length (history u) - 1) |} /\
  ((k <= currentIndex u)%nat -> Nat.iter k redo (Nat.iter k undo u) = u).
Proof.
  intros Hwf. split; [apply undo_steps|]. split; [by apply redo_steps|].
  intros Hk. rewrite undo_steps. destruct Hwf as [Hi Hlen].
  rewrite redo_steps by (unfold wf; cbn [history currentIndex]; lia).
  destruct u as [h i]; cbn [history currentIndex] in *. f_equal. lia.
Qed.

End UndoRedoSteps.

Lemma undo_redo_steps_witness :
  let u := {| history := ["S0"; "S1"; "S2"]; currentIndex := 2 |} in
  wf u /\
  Nat.iter 5 undo u = {| history := ["S0"; "S1"; "S2"]; currentIndex := 0 |} /\
  Nat.iter 2 redo (Nat.iter 2 undo u) = u.
Proof.
  intros u.
  assert (Hwf : wf u) by (unfold wf; simpl; lia).
  split; [exact Hwf|]. split.
  - exact (proj1 (undo_redo_steps u 5 Hwf)).
  - apply (undo_redo_steps u 2 Hwf). simpl. lia.
Defined.

(** ** Creating projects and tasks *)

Section Creation.

Lemma max_fold_bounds {T} `{Ordered T} (l : list T) (a : Z) :
  a <= foldl (fun max x => Z.max (item_order x) max) a l /\
  Forall (fun x => item_order x <= foldl (fun max x => Z.max (item_order x) max) a l) l.
Proof.
  revert a. induction l as [|x l IH]; intros a; simpl.
  - split; [lia|constructor].
  - destruct (IH (Z.max (item_order x) a)) as [Hle Hall].
    split; [lia|]. constructor; [lia|done].
Qed.

Lemma max_fold_attained {T} `{Ordered T} (l : list T) (a : Z) :
  foldl (fun max x => Z.max (item_order x) max) a l = a \/
  exists x, x ∈ l /\ item_order x = foldl (fun max x => Z.max (item_order x) max) a l.
Proof.
  revert a. induction l as [|x l IH]; intros a; [by left|].
  cbn [foldl].
  destruct (IH (Z.max (item_order x) a)) as [Heq|(y & Hy & Heq)].
  - destruct (Z.max_spec (item_order x) a) as [[_ Hm]|[_ Hm]]; rewrite Hm in *.
    + by left.
    + right. exists x. split; [left|done].
  - right. exists y. split; [by right|done].
Qed.

(** What the [reduce] of a create path and the [+ 1] after it give: a
    number not below any order in the list and not below 0; above every
    order in the list while these are below [2^53]; and [2^53] again when
    that is the largest of them, the sum being a double. *)
Lemma next_order_spec {T} `{Ordered T} (l : list T) :
  let next := plus_one (foldl (fun max x => Z.max (item_order x) max) (-1) l) in
  0 <= next /\
  (forall x, x ∈ l -> item_order x <= next) /\
  ((forall x, x ∈ l -> item_order x < 9007199254740992) ->
   forall x, x ∈ l -> item_order x < next) /\
  ((forall x, x ∈ l -> item_order x <= 9007199254740992) ->
   (exists x, x ∈ l /\ item_order x = 9007199254740992) ->
   next = 9007199254740992).
Proof.
  intros next. unfold next. clear next.
  destruct (max_fold_bounds l (-1)) as [Hlow Hall]. rewrite Forall_forall in Hall.
  pose proof (max_fold_attained l (-1)) as Hatt.
  set (m := foldl (fun max x => Z.max (item_order x) max) (-1) l) in *.
  pose proof (plus_one_le m) as Hle.
  split; [|split; [|split]].
  - destruct (decide (m = -1)) as [->|Hne]; [by vm_compute|lia].
  - intros x Hx. specialize (Hall x Hx). lia.
  - intros Hsafe x Hx. specialize (Hall x Hx).
    rewrite plus_one_safe; [lia|].
    destruct Hatt as [->|(y & Hy & <-)]; [lia|]. specialize (Hsafe y Hy). lia.
  - intros Hmost (x & Hx & Htop). specialize (Hall x Hx).
    assert (m = 9007199254740992) as ->; [|by vm_compute].
    destruct Hatt as [Heq|(y & Hy & Hm)]; [lia|]. specialize (Hmost y Hy). lia.
Qed.

(** A created project goes to the end of the list, not archived, with an
    [order] that is not below any existing one and not below 0. While the
    existing orders are below [2^53] it is above them all, and orders that
    were distinct stay distinct; when the largest existing order is [2^53]
    the new project gets [2^53] too, [order] being a double. The projects
    that were there, the tasks and the comments stay as they are, and the
    log of the new id is the single "created project" entry. *)
Theorem create_project_last (modalState : ModalState) (projectData : ProjectData)
        (now : nat -> Clock) (current : AppState) :
  (forall project, modalState <> EDIT_PROJECT project) ->
  let next := handleSaveProject modalState projectData now current in
  exists newProject entry,
    projects next = projects current ++ [newProject] /\
    (forall q, q ∈ projects current -> project_order q <= project_order newProject) /\
    0 <= project_order newProject /\
    ((forall q, q ∈ projects current -> project_order q < 9007199254740992) ->
     (forall q, q ∈ projects current -> project_order q < project_order newProject) /\
     (NoDup (project_order <$> projects current) ->
      NoDup (project_order <$> projects next))) /\
    ((forall q, q ∈ projects current -> project_order q <= 9007199254740992) ->
     (exists q, q ∈ projects current /\ project_order q = 9007199254740992) ->
     project_order newProject = 9007199254740992) /\
    project_isArchived newProject = false /\
    project_name newProject = pdata_name projectData /\
    tasks next = tasks current /\
    comments next = comments current /\
    activityLog next = <[project_id newProject := [entry]]> (activityLog current) /\
    log_action entry = "created project " +:+ dquote +:+ pdata_name projectData
                       +:+ dquote +:+ ".".
Proof.
  intros Hmodal next.
  assert (Hnext : next = handleSaveProject CREATE_PROJECT projectData now current).
  { unfold next. destruct modalState; try reflexivity. by destruct (Hmodal project). }
  rewrite Hnext. cbn [handleSaveProject projects tasks comments activityLog].
  destruct (next_order_spec (projects current)) as (Hzero & Hle & Hsafe & Htie).
  eexists _, _. split; [reflexivity|].
  cbn [project_order project_isArchived project_name project_id log_action
       createActivityLog].
  split; [exact Hle|]. split; [exact Hzero|]. split; [|split; [exact Htie|]].
  - intros Hbelow. split; [by apply Hsafe|].
    intros Hnd. rewrite fmap_app. simpl. apply NoDup_app. split; [done|].
    split; [|apply NoDup_singleton].
    intros x Hx Hx'. apply list_elem_of_singleton in Hx'.
    apply list_elem_of_fmap in Hx as (q & -> & Hq).
    pose proof (Hsafe Hbelow q Hq) as Hlt. simpl in Hlt. lia.
  - repeat split; reflexivity.
Qed.

Lemma create_project_last_witness :
  (forall project, CREATE_PROJECT <> EDIT_PROJECT project) /\
  exists newProject entry,
    projects (handleSaveProject CREATE_PROJECT
                (mkProjectData "two" EmptyString [] High "#be123c" [] [] [])
                sample_clock sample_state)
    = projects sample_state ++ [newProject] /\
    project_order newProject = 1 /\
    log_action entry = "created project " +:+ dquote +:+ "two" +:+ dquote +:+ ".".
Proof.
  assert (Hm : forall project, CREATE_PROJECT <> EDIT_PROJECT project) by done.
  split; [exact Hm|].
  destruct (create_project_last CREATE_PROJECT
              (mkProjectData "two" EmptyString [] High "#be123c" [] [] [])
              sample_clock sample_state Hm)
    as (newProject & entry & Hps & _ & _ & _ & _ & _ & _ & _ & _ & _ & Hact).
  exists newProject, entry. split; [exact Hps|]. split; [|exact Hact].
  simpl in Hps. by injection Hps as <-.
Defined.

(** A created task goes to the end of the task list, under the project
    and parent asked for, unfocused, with an [order] that is not below that
    of any task already in its sibling group and not below 0. While the
    siblings' orders are below [2^53] it is above them all, whatever they
    are; when the largest of them is [2^53] the new task gets [2^53] too,
    [order] being a double. No existing task changes and the project's log
    gains the "created task" entry. *)
Theorem create_task_last (pid0 : string) (par0 : option string) (taskData : TaskData)
        (newProjectId : string) (newParentId : option string)
        (now : nat -> Clock) (current : AppState) :
  let next := handleSaveTask (CREATE_TASK pid0 par0) taskData newProjectId newParentId
                now current in
  let siblings := filter (in_group newProjectId newParentId) (tasks current) in
  exists newTask entry,
    tasks next = tasks current ++ [newTask] /\
    in_group newProjectId newParentId newTask /\
    (forall t, t ∈ siblings -> task_order t <= task_order newTask) /\
    0 <= task_order newTask /\
    ((forall t, t ∈ siblings -> task_order t < 9007199254740992) ->
     forall t, t ∈ siblings -> task_order t < task_order newTask) /\
    ((forall t, t ∈ siblings -> task_order t <= 9007199254740992) ->
     (exists t, t ∈ siblings /\ task_order t = 9007199254740992) ->
     task_order newTask = 9007199254740992) /\
    task_isFocused newTask = false /\
    task_title newTask = data_title taskData /\
    projects next = projects current /\
    comments next = comments current /\
    activityLog next =
      <[newProjectId := default [] (activityLog current !! newProjectId) ++ [entry]]>
        (activityLog current) /\
    log_action entry = "created task " +:+ dquote +:+ data_title taskData
                       +:+ dquote +:+ ".".
Proof.
  intros next siblings. unfold next.
  cbn [handleSaveTask projects tasks comments activityLog].
  destruct (next_order_spec siblings) as (Hzero & Hle & Hsafe & Htie).
  eexists _, _. split; [reflexivity|].
  cbn [task_order task_isFocused task_title].
  split; [done|]. split; [exact Hle|]. split; [exact Hzero|].
  split; [exact Hsafe|]. split; [exact Htie|].
  repeat split; reflexivity.
Qed.

Lemma create_task_last_witness :
  exists newTask,
    tasks (handleSaveTask (CREATE_TASK "proj_1" None) sample_data "proj_1" None
             sample_clock crowded_state)
    = tasks crowded_state ++ [newTask] /\
    task_order newTask = 9007199254740992.
Proof.
  destruct (create_task_last "proj_1" None sample_data "proj_1" None sample_clock
              crowded_state)
    as (newTask & entry & Hts & _ & _ & _ & _ & Htie & _).
  exists newTask. split; [exact Hts|].
  assert (Hsiblings : filter (in_group "proj_1" None) (tasks crowded_state)
                      = tasks crowded_state) by reflexivity.
  rewrite Hsiblings in Htie. apply Htie.
  - intros t Ht. apply list_elem_of_singleton in Ht as ->. simpl. lia.
  - eexists. split; [apply list_elem_of_singleton; reflexivity|reflexivity].
Defined.

(** The two create paths run: on a sibling at [2^53] the new task gets
    [2^53] as well, and on [sample_state] the next free order, 3. *)
Lemma create_task_last_at_limit :
  task_order <$> tasks (handleSaveTask (CREATE_TASK "proj_1" None) sample_data "proj_1"
                          None sample_clock crowded_state)
  = [9007199254740992; 9007199254740992] /\
  task_order <$> tasks (handleSaveTask (CREATE_TASK "proj_1" None) sample_data "proj_1"
                          None sample_clock sample_state)
  = [0; 1; 2; 0; 0; 3].
Proof. split; reflexivity. Qed.

End Creation.

(** ** Editing, archiving and deleting projects *)

Section ProjectHandlers.

Lemma NoDup_project_ids_inj (l : list Project) (x y : Project) :
  NoDup (project_id <$> l) -> x ∈ l -> y ∈ l -> project_id x = project_id y -> x = y.
Proof.
  induction l as [|z l IH]; intros Hnd Hx Hy Heq; [by apply elem_of_nil in Hx|].
  rewrite fmap_cons in Hnd. apply NoDup_cons in Hnd as [Hz Hnd].
  apply elem_of_cons in Hx as [->|Hx]; apply elem_of_cons in Hy as [->|Hy].
  - done.
  - exfalso. apply Hz. rewrite Heq. by apply list_elem_of_fmap_2.
  - exfalso. apply Hz. rewrite <- Heq. by apply list_elem_of_fmap_2.
  - by apply IH.
Qed.

Lemma find_project_some (l : list Project) (id : string) (p : Project) :
  List.find (fun p => String.eqb (project_id p) id) l = Some p ->
  p ∈ l /\ project_id p = id.
Proof.
  intros Hfind. apply find_some in Hfind as [Hin Heq].
  split; [by apply list_elem_of_In|]. by apply String.eqb_eq.
Qed.

Lemma find_project_none (l : list Project) (id : string) :
  id ∉ project_id <$> l ->
  List.find (fun p => String.eqb (project_id p) id) l = None.
Proof.
  induction l as [|q l IH]; intros Hid; simpl; [done|].
  rewrite fmap_cons in Hid. apply not_elem_of_cons in Hid as [Hne Hid].
  destruct (String.eqb (project_id q) id) eqn:Heq; [|by apply IH].
  by apply String.eqb_eq in Heq.
Qed.

Lemma find_project_present (l : list Project) (id : string) :
  id ∈ project_id <$> l ->
  exists p, List.find (fun p => String.eqb (project_id p) id) l = Some p.
Proof.
  induction l as [|q l IH]; intros Hin; simpl in *.
  - by apply elem_of_nil in Hin.
  - destruct (String.eqb (project_id q) id) eqn:Heq; [by eexists|].
    apply elem_of_cons in Hin as [->|Hin]; [|by apply IH].
    by rewrite String.eqb_refl in Heq.
Qed.

Lemma filter_none {A} (P : A -> Prop) `{!forall x, Decision (P x)} (l : list A) :
  (forall x, x ∈ l -> ~ P x) -> filter P l = [].
Proof.
  induction l as [|x l IH]; intros Hall; [done|].
  rewrite filter_cons_False; [|apply Hall; left].
  apply IH. intros y Hy. apply Hall. by right.
Qed.

(** Editing a project of the state, ids being unique, replaces that one
    project by itself with the form's fields: its id, creation date, order
    and archive flag stay, so do the sequence of the list, the other
    projects, the tasks and the comments; the project's log gains the
    "edited project details" entry. *)
Theorem edit_project_keeps_identity (project : Project) (projectData : ProjectData)
        (now : nat -> Clock) (current : AppState) :
  NoDup (project_id <$> projects current) ->
  project ∈ projects current ->
  let next := handleSaveProject (EDIT_PROJECT project) projectData now current in
  projects next =
    (fun p => if bool_decide (p = project)
              then merge_project_data project projectData else p) <$> projects current /\
  project_id <$> projects next = project_id <$> projects current /\
  project_order <$> projects next = project_order <$> projects current /\
  project_createdAt <$> projects next = project_createdAt <$> projects current /\
  project_isArchived <$> projects next = project_isArchived <$> projects current /\
  tasks next = tasks current /\
  comments next = comments current /\
  exists entry,
    log_action entry = "edited project details for " +:+ dquote
                       +:+ pdata_name projectData +:+ dquote +:+ "." /\
    activityLog next =
      <[project_id project :=
          default [] (activityLog current !! project_id project) ++ [entry]]>
        (activityLog current).
Proof.
  intros Hnd Hin next.
  assert (Hps : projects next =
                (fun p => if bool_decide (p = project)
                          then merge_project_data project projectData else p)
                  <$> projects current).
  { unfold next. simpl. apply list_fmap_ext. intros i p Hp.
    apply list_elem_of_lookup_2 in Hp.
    destruct (decide (p = project)) as [->|Hne].
    - by rewrite !bool_decide_eq_true_2.
    - rewrite !bool_decide_eq_false_2; [done|done|].
      intros Hid. apply Hne. by apply (NoDup_project_ids_inj (projects current)). }
  split; [exact Hps|]. rewrite Hps.
  repeat split.
  1-4: rewrite <- list_fmap_compose; apply list_fmap_ext; intros i p _; simpl;
       by case_bool_decide; subst.
  unfold next, handleSaveProject, append_log.
  eexists (createActivityLog _ _ _). split; reflexivity.
Qed.

Lemma deleteProject_keeps_order (id : string) (current : AppState) :
  ordered_state current -> ordered_state (deleteProject id current).
Proof.
  unfold deleteProject. intros [Hnd Hdense]. split; cbn [tasks].
  - eapply sublist_NoDup; [exact Hnd|]. apply fmap_sublist, sublist_filter.
  - intros p q. unfold group_orders.
    destruct (decide (p = id)) as [->|Hne].
    + rewrite (filter_none (in_group id q)); [done|].
      intros t Ht [Hp _]. apply list_elem_of_filter in Ht as [Hne _]. done.
    + rewrite filter_filter_implied; [apply Hdense|].
      intros t _ [Hp _]. congruence.
Qed.

(** Deleting a project removes it, every task of it and its comment and
    log buckets, and nothing else; unique task ids and dense sibling groups
    survive it; deleting it again changes nothing. *)
Theorem delete_project_cascade (id : string) (current : AppState) :
  let next := deleteProject id current in
  (forall p, p ∈ projects next <-> p ∈ projects current /\ project_id p <> id) /\
  (forall t, t ∈ tasks next <-> t ∈ tasks current /\ task_projectId t <> id) /\
  comments next !! id = None /\ activityLog next !! id = None /\
  (forall pid, pid <> id ->
     comments next !! pid = comments current !! pid /\
     activityLog next !! pid = activityLog current !! pid) /\
  (ordered_state current -> ordered_state next) /\
  deleteProject id next = next.
Proof.
  intros next. unfold next, deleteProject; cbn [projects tasks comments activityLog].
  split; [intros p; rewrite list_elem_of_filter; tauto|].
  split; [intros t; rewrite list_elem_of_filter; tauto|].
  split; [apply lookup_delete_eq|]. split; [apply lookup_delete_eq|].
  split; [intros pid Hne; by rewrite !lookup_delete_ne|].
  split; [apply deleteProject_keeps_order|].
  f_equal.
    + rewrite list_filter_filter. apply list_filter_iff. tauto.
    + rewrite list_filter_filter. apply list_filter_iff. tauto.
    + apply delete_id, lookup_delete_eq.
    + apply delete_id, lookup_delete_eq.
Qed.

End ProjectHandlers.

Lemma edit_project_keeps_identity_witness :
  projects (handleSaveProject (EDIT_PROJECT sample_project)
              (mkProjectData "renamed" EmptyString [] High "#be123c" [] [] [])
              sample_clock sample_state)
  = [merge_project_data sample_project
       (mkProjectData "renamed" EmptyString [] High "#be123c" [] [] [])].
Proof.
  assert (Hnd : NoDup (project_id <$> projects sample_state)).
  { simpl. apply NoDup_singleton. }
  assert (Hin : sample_project ∈ projects sample_state) by (simpl; left).
  destruct (edit_project_keeps_identity sample_project
              (mkProjectData "renamed" EmptyString [] High "#be123c" [] [] [])
              sample_clock sample_state Hnd Hin) as [Hps _].
  rewrite Hps. reflexivity.
Defined.

Section BulkHandlers.

Lemma bulkDelete_cons (id : string) (ids : list string) (current : AppState) :
  bulkDelete (id :: ids) current = bulkDelete ids (deleteProject id current).
Proof.
  unfold bulkDelete, deleteProject; cbn [projects tasks comments activityLog].
  f_equal.
  - rewrite list_filter_filter. apply list_filter_iff. intros p. set_solver.
  - rewrite list_filter_filter. apply list_filter_iff. intros t. set_solver.
  - apply map_eq. intros k. apply option_eq. intros v.
    rewrite !map_lookup_filter_Some, lookup_delete_Some. simpl. set_solver.
  - apply map_eq. intros k. apply option_eq. intros v.
    rewrite !map_lookup_filter_Some, lookup_delete_Some. simpl. set_solver.
Qed.

Lemma bulkDelete_nil (current : AppState) : bulkDelete [] current = current.
Proof.
  unfold bulkDelete. destruct current as [ps ts cs al]; simpl. f_equal.
  - induction ps as [|p ps IH]; [done|].
    rewrite filter_cons_True by set_solver. by rewrite IH.
  - induction ts as [|t ts IH]; [done|].
    rewrite filter_cons_True by set_solver. by rewrite IH.
  - apply map_eq. intros k. apply option_eq. intros v.
    rewrite map_lookup_filter_Some. set_solver.
  - apply map_eq. intros k. apply option_eq. intros v.
    rewrite map_lookup_filter_Some. set_solver.
Qed.

(** The updater of the bulk deletion is that of the single deletion
    applied for each selected id in turn. The order of the selection is
    immaterial, and so is an id selected more than once. *)
Theorem bulk_delete_is_iterated_delete (projectIds : list string) (current : AppState) :
  confirmBulkDelete (CONFIRM_BULK_DELETE projectIds) current
  = foldl (fun s id => deleteProject id s) current projectIds /\
  (forall projectIds',
     projectIds ≡ₚ projectIds' ->
     confirmBulkDelete (CONFIRM_BULK_DELETE projectIds') current
     = confirmBulkDelete (CONFIRM_BULK_DELETE projectIds) current) /\
  confirmBulkDelete (CONFIRM_BULK_DELETE (projectIds ++ projectIds)) current
  = confirmBulkDelete (CONFIRM_BULK_DELETE projectIds) current.
Proof.
  simpl. split; [|split].
  - revert current. induction projectIds as [|id ids IH]; intros current; simpl.
    + apply bulkDelete_nil.
    + by rewrite bulkDelete_cons, IH.
  - intros ids' Hperm. unfold bulkDelete.
    assert (Hset : (list_to_set ids' : gset string) = list_to_set projectIds).
    { apply set_eq. intros x. rewrite !elem_of_list_to_set. by rewrite Hperm. }
    by rewrite Hset.
  - unfold bulkDelete.
    assert (Hset : (list_to_set (projectIds ++ projectIds) : gset string)
                   = list_to_set projectIds).
    { apply set_eq. intros x. rewrite !elem_of_list_to_set. set_solver. }
    by rewrite Hset.
Qed.

End BulkHandlers.

Section Archiving.

Lemma find_project_fmap (f : Project -> Project) (l : list Project) (id : string) :
  (forall p, project_id (f p) = project_id p) ->
  List.find (fun p => String.eqb (project_id p) id) (f <$> l)
  = f <$> List.find (fun p => String.eqb (project_id p) id) l.
Proof.
  intros Hid. induction l as [|p l IH]; [done|].
  rewrite fmap_cons. simpl. rewrite Hid.
  by destruct (String.eqb (project_id p) id).
Qed.

Lemma project_with_archived_twice (a b : bool) (p : Project) :
  project_with_archived a (project_with_archived b p) = project_with_archived a p.
Proof. by destruct p. Qed.

Lemma project_with_archived_same (p : Project) :
  project_with_archived (project_isArchived p) p = p.
Proof. by destruct p. Qed.

Lemma append_log_twice (id : string) (e1 e2 : ActivityLog)
      (log : gmap string (list ActivityLog)) :
  append_log id e2 (append_log id e1 log)
  = <[id := default [] (log !! id) ++ [e1; e2]]> log.
Proof.
  unfold append_log. rewrite lookup_insert_eq, insert_insert_eq. simpl.
  by rewrite <- app_assoc.
Qed.

Lemma handleToggleArchive_found (projectId : string) (now : nat -> Clock)
      (current : AppState) (project : Project) :
  List.find (fun p => String.eqb (project_id p) projectId) (projects current)
  = Some project ->
  handleToggleArchive projectId now current =
  {| projects :=
       (fun p => if bool_decide (project_id p = projectId)
                 then project_with_archived (negb (project_isArchived project)) p
                 else p) <$> projects current;
     tasks := tasks current; comments := comments current;
     activityLog :=
       append_log projectId
         (createActivityLog projectId
            ((if negb (project_isArchived project)
              then "archived project " else "restored project ")
             +:+ dquote +:+ project_name project +:+ dquote +:+ ".")
            (now 0%nat)) (activityLog current) |}.
Proof. intros Hfind. unfold handleToggleArchive. by rewrite Hfind. Qed.

(** Archiving and then restoring a project (or the reverse), ids being
    unique and whatever a render does in between, gives back the projects
    as they were; tasks and comments are never touched; the project's log
    gains one entry for each of the two toggles, the second of them last. *)
Theorem toggle_archive_twice (projectId : string) (now now' : nat -> Clock)
        (current shown : AppState) :
  NoDup (project_id <$> projects current) ->
  projectId ∈ project_id <$> projects current ->
  rendered (handleToggleArchive projectId now current) shown ->
  let once := handleToggleArchive projectId now current in
  let twice := handleToggleArchive projectId now' shown in
  exists project e1 e2,
    project ∈ projects current /\ project_id project = projectId /\
    projects once =
      (fun p => if bool_decide (p = project)
                then project_with_archived (negb (project_isArchived project)) project
                else p) <$> projects current /\
    projects twice = projects current /\
    tasks twice = tasks current /\ comments twice = comments current /\
    log_action e1 =
      (if project_isArchived project then "restored project " else "archived project ")
      +:+ dquote +:+ project_name project +:+ dquote +:+ "." /\
    log_action e2 =
      (if project_isArchived project then "archived project " else "restored project ")
      +:+ dquote +:+ project_name project +:+ dquote +:+ "." /\
    default [] (activityLog twice !! projectId)
    ≡ₚ default [] (activityLog current !! projectId) ++ [e1; e2] /\
    last (default [] (activityLog twice !! projectId)) = Some e2.
Proof.
  intros Hnd Hin Hshown once twice. fold once in Hshown.
  destruct Hshown as (Hsp & Hst & Hsc & Hsl).
  destruct (find_project_present _ _ Hin) as [project Hfind].
  destruct (find_project_some _ _ _ Hfind) as [Hp Hid].
  pose proof (handleToggleArchive_found projectId now current project Hfind) as Honce.
  fold once in Honce.
  assert (Hfind' :
            List.find (fun p => String.eqb (project_id p) projectId) (projects shown)
            = Some (project_with_archived (negb (project_isArchived project)) project)).
  { rewrite Hsp, Honce. cbn [projects]. rewrite find_project_fmap, Hfind.
    - simpl. by rewrite bool_decide_eq_true_2.
    - intros p. by case_bool_decide. }
  pose proof (handleToggleArchive_found projectId now' shown _ Hfind') as Htwice.
  fold twice in Htwice. cbn [project_isArchived project_name project_with_archived] in Htwice.
  exists project,
    (createActivityLog projectId
       ((if negb (project_isArchived project)
         then "archived project " else "restored project ")
        +:+ dquote +:+ project_name project +:+ dquote +:+ ".") (now 0%nat)),
    (createActivityLog projectId
       ((if negb (negb (project_isArchived project))
         then "archived project " else "restored project ")
        +:+ dquote +:+ project_name project +:+ dquote +:+ ".") (now' 0%nat)).
  split; [exact Hp|]. split; [exact Hid|].
  split.
  { rewrite Honce. cbn [projects]. apply list_fmap_ext. intros i p Hi.
    apply list_elem_of_lookup_2 in Hi.
    destruct (decide (p = project)) as [->|Hne].
    - by rewrite !bool_decide_eq_true_2.
    - rewrite !bool_decide_eq_false_2; [done|done|].
      intros Heq. apply Hne.
      apply (NoDup_project_ids_inj (projects current)); congruence. }
  split.
  { rewrite Htwice. cbn [projects]. rewrite Hsp, Honce. cbn [projects].
    rewrite <- list_fmap_compose.
    rewrite <- (list_fmap_id (projects current)) at 2.
    apply list_fmap_ext. intros i p Hi. apply list_elem_of_lookup_2 in Hi.
    unfold compose, id. rewrite negb_involutive.
    destruct (decide (project_id p = projectId)) as [Hpid|Hpid].
    - rewrite (bool_decide_eq_true_2 (project_id p = projectId)) by done.
      cbn [project_id project_with_archived]. rewrite bool_decide_eq_true_2 by done.
      rewrite project_with_archived_twice.
      assert (p = project) as ->
        by (apply (NoDup_project_ids_inj (projects current)); congruence).
      apply project_with_archived_same.
    - rewrite (bool_decide_eq_false_2 (project_id p = projectId)) by done.
      by rewrite bool_decide_eq_false_2. }
  split; [by rewrite Htwice, Hst, Honce|]. split; [by rewrite Htwice, Hsc, Honce|].
  assert (Hthread : default [] (activityLog twice !! projectId)
                    = default [] (activityLog shown !! projectId)
                      ++ [createActivityLog projectId
                            ((if negb (negb (project_isArchived project))
                              then "archived project " else "restored project ")
                             +:+ dquote +:+ project_name project +:+ dquote +:+ ".")
                            (now' 0%nat)]).
  { rewrite Htwice. cbn [activityLog]. unfold append_log. by rewrite lookup_insert_eq. }
  split; [|split; [|split]].
  3: { rewrite Hthread, (Hsl projectId), Honce. cbn [activityLog]. unfold append_log.
       rewrite lookup_insert_eq. cbn [default]. unfold id.
       by rewrite <- app_assoc. }
  3: { rewrite Hthread. apply last_snoc. }
  - simpl. by destruct (project_isArchived project).
  - simpl. by destruct (project_isArchived project).
Qed.

End Archiving.

Lemma toggle_archive_twice_witness :
  projects (handleToggleArchive "proj_1" sample_clock
              (handleToggleArchive "proj_1" sample_clock sample_state))
  = projects sample_state.
Proof.
  assert (Hnd : NoDup (project_id <$> projects sample_state)).
  { simpl. apply NoDup_singleton. }
  assert (Hin : "proj_1" ∈ project_id <$> projects sample_state) by (simpl; left).
  assert (Hshown : rendered (handleToggleArchive "proj_1" sample_clock sample_state)
                     (handleToggleArchive "proj_1" sample_clock sample_state))
    by by repeat split.
  destruct (toggle_archive_twice "proj_1" sample_clock sample_clock sample_state _
              Hnd Hin Hshown) as (project & e1 & e2 & _ & _ & _ & Hps & _).
  exact Hps.
Defined.

Section BulkArchive.

Lemma append_log_lookup (id pid : string) (e : ActivityLog)
      (log : gmap string (list ActivityLog)) :
  default [] (append_log id e log !! pid)
  = default [] (log !! pid) ++ (if bool_decide (pid = id) then [e] else []).
Proof.
  unfold append_log. case_bool_decide as Heq.
  - subst. by rewrite lookup_insert_eq.
  - rewrite lookup_insert_ne by done. by rewrite app_nil_r.
Qed.

Lemma bulkArchive_fold (idsToArchive : gset string) (now : nat -> Clock)
      (l mapped : list Project) (log : gmap string (list ActivityLog)) (k : nat) :
  exists log' k',
    foldl (bulkArchiveStep idsToArchive now) (mapped, log, k) l
    = (mapped ++ ((fun p => if bool_decide (project_id p ∈ idsToArchive)
                            then project_with_archived true p else p) <$> l),
       log', k') /\
    forall pid, exists entries,
      default [] (log' !! pid) = default [] (log !! pid) ++ entries /\
      length entries
      = length (filter (fun p => project_id p = pid /\ pid ∈ idsToArchive) l).
Proof.
  revert mapped log k. induction l as [|p l IH]; intros mapped log k.
  - exists log, k. split; [by rewrite app_nil_r|].
    intros pid. exists []. by rewrite app_nil_r.
  - cbn [foldl]. unfold bulkArchiveStep at 2.
    destruct (decide (project_id p ∈ idsToArchive)) as [Hin|Hout].
    + rewrite bool_decide_eq_true_2 by done.
      destruct (IH (mapped ++ [project_with_archived true p])
                  (append_log (project_id p)
                     (createActivityLog (project_id p)
                        ("archived project " +:+ dquote +:+ project_name p
                         +:+ dquote +:+ ".") (now k)) log) (S k))
        as (log' & k' & Hfold & Hlog).
      exists log', k'. split.
      * rewrite Hfold, fmap_cons, bool_decide_eq_true_2 by done.
        by rewrite <- app_assoc.
      * intros pid. destruct (Hlog pid) as (entries & Hent & Hlen).
        rewrite append_log_lookup in Hent.
        destruct (decide (pid = project_id p)) as [->|Hne].
        -- rewrite bool_decide_eq_true_2 in Hent by done.
           eexists (_ :: entries). split.
           ++ rewrite Hent, <- app_assoc. reflexivity.
           ++ rewrite filter_cons_True by done. simpl. by rewrite Hlen.
        -- rewrite bool_decide_eq_false_2, app_nil_r in Hent by done.
           exists entries. split; [done|].
           rewrite filter_cons_False; [done|]. intros [Heq _]. by apply Hne.
    + rewrite bool_decide_eq_false_2 by done.
      destruct (IH (mapped ++ [p]) log k) as (log' & k' & Hfold & Hlog).
      exists log', k'. split.
      * rewrite Hfold, fmap_cons, bool_decide_eq_false_2 by done.
        by rewrite <- app_assoc.
      * intros pid. destruct (Hlog pid) as (entries & Hent & Hlen).
        exists entries. split; [done|].
        rewrite filter_cons_False; [done|]. intros [Heq Hin]. apply Hout. by rewrite Heq.
Qed.

(** The bulk archive sets the archive flag of exactly the selected
    projects and leaves every other field, every other project, the tasks
    and the comments alone; it never restores a project; each project's log
    keeps its entries and gains one per selected project of that id, also
    when the project was archived before; doing it a second time leaves the
    projects as the first did. *)
Theorem bulk_archive_marks_selected (projectIds : list string) (now now' : nat -> Clock)
        (current : AppState) :
  let next := handleBulkArchive projectIds now current in
  projects next =
    (fun p => if bool_decide (project_id p ∈ projectIds)
              then project_with_archived true p else p) <$> projects current /\
  tasks next = tasks current /\ comments next = comments current /\
  (forall pid, exists entries,
     default [] (activityLog next !! pid)
     = default [] (activityLog current !! pid) ++ entries /\
     length entries
     = length (filter (fun p => project_id p = pid /\ pid ∈ projectIds)
                 (projects current))) /\
  (forall i p, projects current !! i = Some p -> project_isArchived p = true ->
               projects next !! i = Some p) /\
  projects (handleBulkArchive projectIds now' next) = projects next.
Proof.
  assert (Hmap : forall nw s,
            projects (handleBulkArchive projectIds nw s) =
            (fun p => if bool_decide (project_id p ∈ projectIds)
                      then project_with_archived true p else p) <$> projects s).
  { intros nw s. unfold handleBulkArchive.
    destruct (bulkArchive_fold (list_to_set projectIds) nw (projects s) []
                (activityLog s) 0%nat) as (log' & k' & Hfold & _).
    rewrite Hfold. cbn [projects app]. apply list_fmap_ext. intros i p _.
    rewrite (bool_decide_ext _ (project_id p ∈ projectIds)); [done|].
    apply elem_of_list_to_set. }
  intros next. split; [apply Hmap|].
  split; [|split].
  1-2: unfold next, handleBulkArchive;
       by destruct (foldl _ _ _) as [[ps log] k].
  split; [|split].
  - intros pid. unfold next, handleBulkArchive.
    destruct (bulkArchive_fold (list_to_set projectIds) now (projects current) []
                (activityLog current) 0%nat) as (log' & k' & Hfold & Hlog).
    rewrite Hfold. cbn [activityLog].
    destruct (Hlog pid) as (entries & Hent & Hlen).
    exists entries. split; [done|]. rewrite Hlen. f_equal.
    apply list_filter_iff. intros p. by rewrite elem_of_list_to_set.
  - intros i p Hi Harch. unfold next. rewrite Hmap, list_lookup_fmap, Hi. simpl.
    case_bool_decide; [|done]. f_equal. rewrite <- Harch.
    apply project_with_archived_same.
  - unfold next. rewrite Hmap, Hmap, <- list_fmap_compose.
    apply list_fmap_ext. intros i p _.
    unfold compose. destruct (decide (project_id p ∈ projectIds)) as [Hin|Hout].
    + rewrite (bool_decide_eq_true_2 (project_id p ∈ projectIds)) by done.
      cbn [project_id project_with_archived]. rewrite bool_decide_eq_true_2 by done.
      apply project_with_archived_twice.
    + rewrite (bool_decide_eq_false_2 (project_id p ∈ projectIds)) by done.
      by rewrite bool_decide_eq_false_2.
Qed.

End BulkArchive.

(** ** Status, focus and comments *)

Section TaskFlags.

Lemma keeps_place_group_orders (f : Task -> Task) (l : list Task) :
  (forall t, task_id (f t) = task_id t /\ task_projectId (f t) = task_projectId t /\
             task_parentId (f t) = task_parentId t /\ task_order (f t) = task_order t) ->
  task_id <$> (f <$> l) = task_id <$> l /\
  forall p q, group_orders p q (f <$> l) = group_orders p q l.
Proof.
  intros Hf. split.
  - rewrite <- list_fmap_compose. apply list_fmap_ext. intros i t _. apply Hf.
  - intros p q. unfold group_orders. rewrite filter_fmap_stable.
    + rewrite <- list_fmap_compose. apply list_fmap_ext. intros i t _. apply Hf.
    + intros t _. unfold in_group. destruct (Hf t) as (_ & -> & -> & _). done.
Qed.

Lemma keeps_place_ordered (f : Task -> Task) (s s' : AppState) :
  (forall t, task_id (f t) = task_id t /\ task_projectId (f t) = task_projectId t /\
             task_parentId (f t) = task_parentId t /\ task_order (f t) = task_order t) ->
  tasks s' = f <$> tasks s -> ordered_state s -> ordered_state s'.
Proof.
  intros Hf Hts [Hnd Hdense].
  destruct (keeps_place_group_orders f (tasks s) Hf) as [Hids Hgroups].
  split; rewrite Hts.
  - by rewrite Hids.
  - intros p q. rewrite Hgroups. apply Hdense.
Qed.

Lemma find_task_some (l : list Task) (id : string) (t : Task) :
  List.find (fun t => String.eqb (task_id t) id) l = Some t ->
  t ∈ l /\ task_id t = id.
Proof.
  intros Hfind. apply find_some in Hfind as [Hin Heq].
  split; [by apply list_elem_of_In|]. by apply String.eqb_eq.
Qed.

Lemma find_task_first (l : list Task) (id : string) (t : Task) :
  NoDup (task_id <$> l) -> t ∈ l -> task_id t = id ->
  List.find (fun t => String.eqb (task_id t) id) l = Some t.
Proof.
  intros Hnd Hin Hid.
  destruct (List.find _ l) as [t'|] eqn:Hfind.
  - apply find_task_some in Hfind as [Hin' Hid'].
    f_equal. apply (NoDup_ids_inj l); [done..|]. simpl. congruence.
  - exfalso. apply list_elem_of_In in Hin.
    pose proof (find_none _ _ Hfind t Hin) as Hno. simpl in Hno.
    apply String.eqb_neq in Hno. done.
Qed.

(** Setting a task's status to the one it has, or the status of a task
    that is not there, does nothing at all: no task changes and no log entry
    is written. *)
Theorem update_status_noop (taskId : string) (status : TaskStatus) (now : nat -> Clock)
        (current : AppState) :
  (forall t, t ∈ tasks current -> task_id t = taskId -> task_status t = status) ->
  handleUpdateTaskStatus taskId status now current = current.
Proof.
  intros Hsame. unfold handleUpdateTaskStatus.
  destruct (List.find _ (tasks current)) as [task|] eqn:Hfind; [|done].
  apply find_task_some in Hfind as [Hin Hid].
  by rewrite bool_decide_eq_true_2 by by apply Hsame.
Qed.

(** A status change, task ids being unique, replaces the one task by
    itself with the new status: every other field of it, every other task,
    the projects and the comments stay, the sibling groups keep their
    orders, and the log of the task's project gains the "changed status"
    entry naming the new status. *)
Theorem update_status_changes_status_only (task : Task) (status : TaskStatus)
        (now : nat -> Clock) (current : AppState) :
  NoDup (task_id <$> tasks current) ->
  task ∈ tasks current ->
  task_status task <> status ->
  let next := handleUpdateTaskStatus (task_id task) status now current in
  tasks next =
    (fun t => if bool_decide (t = task) then task_with_status status task else t)
      <$> tasks current /\
  projects next = projects current /\ comments next = comments current /\
  (ordered_state current -> ordered_state next) /\
  exists entry,
    log_action entry = "changed status of task " +:+ dquote +:+ task_title task
                       +:+ dquote +:+ " to " +:+ status_text status +:+ "." /\
    activityLog next =
      <[task_projectId task :=
          default [] (activityLog current !! task_projectId task) ++ [entry]]>
        (activityLog current).
Proof.
  intros Hnd Hin Hne next.
  assert (Hnext : next =
            {| projects := projects current;
               tasks := (fun t => if bool_decide (task_id t = task_id task)
                                  then task_with_status status t else t)
                          <$> tasks current;
               comments := comments current;
               activityLog :=
                 append_log (task_projectId task)
                   (createActivityLog (task_projectId task)
                      ("changed status of task " +:+ dquote +:+ task_title task
                       +:+ dquote +:+ " to " +:+ status_text status +:+ ".")
                      (now 0%nat)) (activityLog current) |}).
  { unfold next, handleUpdateTaskStatus.
    rewrite (find_task_first _ _ task Hnd Hin eq_refl).
    by rewrite bool_decide_eq_false_2. }
  rewrite Hnext. cbn [projects tasks comments activityLog].
  split.
  { apply list_fmap_ext. intros i t Hi. apply list_elem_of_lookup_2 in Hi.
    destruct (decide (t = task)) as [->|Hnt].
    - by rewrite !bool_decide_eq_true_2.
    - rewrite !bool_decide_eq_false_2; [done|done|].
      intros Heq. apply Hnt. by apply (NoDup_ids_inj (tasks current)). }
  split; [done|]. split; [done|]. split.
  - apply (keeps_place_ordered
             (fun t => if bool_decide (task_id t = task_id task)
                       then task_with_status status t else t)); [|done].
    intros t. by case_bool_decide.
  - eexists (createActivityLog _ _ _). split; reflexivity.
Qed.

(** The focus toggle applied twice in a row gives back the state it
    started from, whole and exactly; a toggle writes no log entry, touches
    nothing but the flag and keeps the sibling orders; toggles of two tasks
    commute. *)
Theorem toggle_focus_involution (taskId taskId' : string) (current : AppState) :
  onToggleTaskFocus taskId (onToggleTaskFocus taskId current) = current /\
  activityLog (onToggleTaskFocus taskId current) = activityLog current /\
  (ordered_state current -> ordered_state (onToggleTaskFocus taskId current)) /\
  onToggleTaskFocus taskId (onToggleTaskFocus taskId' current)
  = onToggleTaskFocus taskId' (onToggleTaskFocus taskId current).
Proof.
  split; [|split; [done|split]].
  - unfold onToggleTaskFocus. destruct current as [ps ts cs al].
    cbn [projects tasks comments activityLog]. f_equal.
    rewrite <- list_fmap_compose. rewrite <- (list_fmap_id ts) at 2.
    apply list_fmap_ext. intros i t _. unfold compose, id.
    destruct (decide (task_id t = taskId)) as [Heq|Hne].
    + rewrite (bool_decide_eq_true_2 (task_id t = taskId)) by done.
      cbn [task_id task_toggle_focus]. rewrite bool_decide_eq_true_2 by done.
      destruct t. unfold task_toggle_focus. simpl. by rewrite negb_involutive.
    + rewrite (bool_decide_eq_false_2 (task_id t = taskId)) by done.
      by rewrite bool_decide_eq_false_2.
  - apply (keeps_place_ordered
             (fun t => if bool_decide (task_id t = taskId)
                       then task_toggle_focus t else t)); [|done].
    intros t. by case_bool_decide.
  - unfold onToggleTaskFocus. cbn [projects tasks comments activityLog]. f_equal.
    rewrite <- !list_fmap_compose. apply list_fmap_ext. intros i t _.
    unfold compose.
    destruct (decide (task_id t = taskId)) as [Heq|Hne];
      destruct (decide (task_id t = taskId')) as [Heq'|Hne'];
      rewrite ?(bool_decide_eq_true_2 (task_id t = taskId)),
              ?(bool_decide_eq_true_2 (task_id t = taskId')),
              ?(bool_decide_eq_false_2 (task_id t = taskId)),
              ?(bool_decide_eq_false_2 (task_id t = taskId')) by done;
      cbn [task_id task_toggle_focus];
      rewrite ?(bool_decide_eq_true_2 (task_id t = taskId)),
              ?(bool_decide_eq_true_2 (task_id t = taskId')),
              ?(bool_decide_eq_false_2 (task_id t = taskId)),
              ?(bool_decide_eq_false_2 (task_id t = taskId')) by done;
      done.
Qed.

(** A comment goes to the end of its project's thread, with the text
    given and the fixed author; the other threads, the projects and the
    tasks stay; the project's log gains "added a comment."; and no check is
    made that the project exists: a thread is opened for any id. *)
Theorem add_comment_appends (projectId content : string) (now : nat -> Clock)
        (current : AppState) :
  let next := handleAddComment projectId content now current in
  (exists c,
     comments next !! projectId
     = Some (default [] (comments current !! projectId) ++ [c]) /\
     comment_content c = content /\ comment_projectId c = projectId /\
     comment_authorName c = "You") /\
  (forall pid, pid <> projectId -> comments next !! pid = comments current !! pid) /\
  projects next = projects current /\ tasks next = tasks current /\
  (exists entry,
     log_action entry = "added a comment." /\
     activityLog next !! projectId
     = Some (default [] (activityLog current !! projectId) ++ [entry])) /\
  (forall pid, pid <> projectId -> activityLog next !! pid = activityLog current !! pid).
Proof.
  intros next. unfold next, handleAddComment, append_log.
  cbn [projects tasks comments activityLog].
  split; [eexists; split; [apply lookup_insert_eq|done]|].
  split; [intros pid Hne; by rewrite lookup_insert_ne|].
  split; [done|]. split; [done|].
  split; [eexists (createActivityLog _ _ _); split; [reflexivity|apply lookup_insert_eq]|].
  intros pid Hne. by rewrite lookup_insert_ne.
Qed.

End TaskFlags.

Lemma update_status_noop_witness :
  handleUpdateTaskStatus "task_b" ToDo sample_clock sample_state = sample_state /\
  handleUpdateTaskStatus "task_z" Done sample_clock sample_state = sample_state.
Proof.
  split; apply update_status_noop; intros t Ht Hid; simpl in Ht;
    repeat (apply elem_of_cons in Ht as [->|Ht]; [done|]);
    by apply elem_of_nil in Ht.
Defined.

Lemma update_status_changes_status_only_witness :
  tasks (handleUpdateTaskStatus "task_b" Done sample_clock sample_state)
  = [task_a; task_with_status Done task_b; task_c; task_a1; task_a2].
Proof.
  assert (Hne : task_status task_b <> Done) by done.
  assert (Hin : task_b ∈ tasks sample_state) by (simpl; right; left).
  destruct (update_status_changes_status_only task_b Done sample_clock sample_state
              sample_ids_NoDup Hin Hne) as [Hts _].
  simpl task_id in Hts. rewrite Hts. reflexivity.
Defined.

(** ** Sessions *)

Section Sessions.

Lemma same_tasks_ordered (s s' : AppState) :
  tasks s' = tasks s -> ordered_state s -> ordered_state s'.
Proof. unfold ordered_state. by intros ->. Qed.

Lemma bulkDelete_keeps_order (ids : list string) (s : AppState) :
  ordered_state s -> ordered_state (bulkDelete ids s).
Proof.
  revert s. induction ids as [|id ids IH]; intros s Hord.
  - by rewrite bulkDelete_nil.
  - rewrite bulkDelete_cons. by apply IH, deleteProject_keeps_order.
Qed.

Lemma handleBulkArchive_tasks (ids : list string) (now : nat -> Clock) (s : AppState) :
  tasks (handleBulkArchive ids now s) = tasks s /\
  comments (handleBulkArchive ids now s) = comments s.
Proof. unfold handleBulkArchive. by destruct (foldl _ _ _) as [[ps log] k]. Qed.

Lemma perform_keeps_order (i : Intent) (now : nat -> Clock) (s : AppState) :
  ordered_state s -> keeps_order_intent i now s -> ordered_state (perform i now s).
Proof.
  intros Hord Hok. destruct i; cbn [perform keeps_order_intent] in *.
  - apply (same_tasks_ordered s); [|done]. by destruct modalState.
  - destruct modalState; try done. by apply deleteProject_keeps_order.
  - apply (same_tasks_ordered s); [|done]. unfold handleToggleArchive.
    by destruct (List.find _ _).
  - by apply save_task_keeps_order.
  - done.
  - unfold handleUpdateTaskStatus.
    destruct (List.find _ _) as [task|]; [|done].
    case_bool_decide; [done|].
    apply (keeps_place_ordered
             (fun t => if bool_decide (task_id t = taskId)
                       then task_with_status status t else t) s); [|done|done].
    intros t. by case_bool_decide.
  - apply (keeps_place_ordered
             (fun t => if bool_decide (task_id t = taskId)
                       then task_toggle_focus t else t) s); [|done|done].
    intros t. by case_bool_decide.
  - by apply (same_tasks_ordered s).
  - by apply (same_tasks_ordered s).
  - destruct modalState; try done. by apply bulkDelete_keeps_order.
  - apply (same_tasks_ordered s); [|done]. apply handleBulkArchive_tasks.
Qed.

(** Whatever the user does, in any sequence and with any renders in
    between, short of deleting a task: task ids stay unique and every
    sibling group stays numbered [0 .. n-1]. In a dense group [max + 1] is
    the size of the group, which the length of an array bounds, so the sum
    is exact. *)
Theorem session_keeps_task_order (steps : list Step) (s : AppState) :
  ordered_state s -> all_along keeps_order_intent steps s ->
  ordered_state (run_session steps s).
Proof.
  revert s. induction steps as [|[i now|after] steps IH]; intros s Hord Hok; [done|..].
  - destruct Hok as [Hi Hrest]. apply IH; [|done]. by apply perform_keeps_order.
  - destruct Hok as [(_ & Hts & _) Hrest]. apply IH; [|done].
    by apply (same_tasks_ordered s).
Qed.

Lemma extends_refl {A} (m : gmap string (list A)) : extends m m.
Proof. by intros key. Qed.

Lemma extends_trans {A} (m1 m2 m3 : gmap string (list A)) :
  extends m1 m2 -> extends m2 m3 -> extends m1 m3.
Proof.
  intros H12 H23 key. destruct (H12 key) as [k1 H1], (H23 key) as [k2 H2].
  exists (k1 ++ k2). by rewrite H2, H1, app_assoc.
Qed.

Lemma extends_append_log (id : string) (e : ActivityLog)
      (log : gmap string (list ActivityLog)) :
  extends log (append_log id e log).
Proof. intros key. rewrite append_log_lookup. by apply prefix_app_r. Qed.

Lemma handleSaveTask_extends (modalState : ModalState) (data : TaskData)
      (projectId : string) (parentId : option string) (now : nat -> Clock)
      (s : AppState) :
  extends (activityLog s)
          (activityLog (handleSaveTask modalState data projectId parentId now s)) /\
  comments (handleSaveTask modalState data projectId parentId now s) = comments s.
Proof.
  destruct modalState; try (split; [apply extends_refl|done]).
  - split; [apply extends_append_log|done].
  - unfold handleSaveTask. case_bool_decide.
    + split; [|done]. cbn [activityLog].
      eapply extends_trans; [|apply extends_append_log].
      case_bool_decide; [apply extends_append_log|apply extends_refl].
    + split; [apply extends_append_log|done].
Qed.

Lemma perform_extends (i : Intent) (now : nat -> Clock) (s : AppState) :
  keeps_log_intent i now s ->
  extends (activityLog s) (activityLog (perform i now s)) /\
  extends (comments s) (comments (perform i now s)).
Proof.
  intros Hok. destruct i; cbn [perform keeps_log_intent] in *; try done.
  - destruct modalState; cbn [handleSaveProject activityLog comments];
      (split; [|apply extends_refl]);
      try apply extends_append_log;
      intros key; (destruct (decide (key = "proj_" +:+ pretty (now_ms (now 0%nat))))
                    as [->|Hne];
                   [rewrite Hok, lookup_insert_eq; apply prefix_nil
                   |by rewrite lookup_insert_ne]).
  - unfold handleToggleArchive. destruct (List.find _ _).
    + split; [apply extends_append_log|apply extends_refl].
    + split; apply extends_refl.
  - destruct (handleSaveTask_extends modalState taskData newProjectId newParentId now s)
      as [Hlog ->]. split; [done|apply extends_refl].
  - unfold handleDeleteTask. destruct (List.find _ _) as [target|].
    + destruct (collect_descendants _ _ _); simpl.
      * split; [apply extends_append_log|apply extends_refl].
      * split; apply extends_refl.
    + split; apply extends_refl.
  - unfold handleUpdateTaskStatus. destruct (List.find _ _) as [task|].
    + case_bool_decide; [split; apply extends_refl|].
      split; [apply extends_append_log|apply extends_refl].
    + split; apply extends_refl.
  - split; apply extends_refl.
  - split; apply extends_refl.
  - split; [apply extends_append_log|].
    intros key. cbn [handleAddComment comments].
    destruct (decide (key = projectId)) as [->|Hne].
    + rewrite lookup_insert_eq. by apply prefix_app_r.
    + by rewrite lookup_insert_ne.
  - split.
    + intros key. unfold handleBulkArchive.
      destruct (bulkArchive_fold (list_to_set projectIds) now (projects s) []
                  (activityLog s) 0%nat) as (log' & k' & Hfold & Hlog).
      rewrite Hfold. cbn [activityLog].
      destruct (Hlog key) as (entries & -> & _). by apply prefix_app_r.
    + destruct (handleBulkArchive_tasks projectIds now s) as [_ ->].
      apply extends_refl.
Qed.

Lemma extends_keeps_entries {A} (m1 m2 : gmap string (list A)) :
  extends m1 m2 -> keeps_entries m1 m2.
Proof.
  intros Hext key. destruct (Hext key) as [k ->]. by apply submseteq_inserts_r.
Qed.

(** Whatever the user does, in any sequence and with any renders in
    between, short of deleting a project: no entry of an activity log and
    no comment is ever lost or changed. A comment thread only grows at its
    end; so does a log thread as far as the handlers go, but a render may
    put its entries in another sequence. *)
Theorem session_keeps_logs (steps : list Step) (s : AppState) :
  all_along keeps_log_intent steps s ->
  keeps_entries (activityLog s) (activityLog (run_session steps s)) /\
  extends (comments s) (comments (run_session steps s)) /\
  (Forall is_call steps ->
   extends (activityLog s) (activityLog (run_session steps s))).
Proof.
  revert s. induction steps as [|[i now|after] steps IH]; intros s Hok.
  - split; [|split]; [by intros key|apply extends_refl|intros _; apply extends_refl].
  - destruct Hok as [Hi Hrest].
    destruct (perform_extends i now s Hi) as [Hlog Hcom].
    destruct (IH _ Hrest) as (Hlog' & Hcom' & Hcalls).
    split; [|split].
    + intros key. etrans; [by apply extends_keeps_entries|apply Hlog'].
    + by eapply extends_trans.
    + intros Hall. apply Forall_cons in Hall as [_ Hall].
      eapply extends_trans; [exact Hlog|]. by apply Hcalls.
  - destruct Hok as [(_ & _ & Hcs & Hperm) Hrest].
    destruct (IH _ Hrest) as (Hlog' & Hcom' & _).
    split; [|split].
    + intros key. etrans; [|apply Hlog']. cbn [step]. by rewrite Hperm.
    + cbn [run_session foldl step] in *. by rewrite <- Hcs.
    + intros Hall. apply Forall_cons in Hall as [[] _].
Qed.

End Sessions.

Lemma sample_state_ordered : ordered_state sample_state.
Proof.
  split; [exact sample_ids_NoDup|].
  apply dense_by_members. intros t Ht. simpl in Ht.
  repeat (apply elem_of_cons in Ht as [->|Ht]); [reflexivity..|].
  by apply elem_of_nil in Ht.
Qed.

Lemma rendered_refl (s : AppState) : rendered s s.
Proof. by repeat split. Qed.

Lemma session_keeps_task_order_witness :
  ordered_state
    (run_session
       [Handle (SaveTask (CREATE_TASK "proj_1" None) sample_data "proj_1" None) sample_clock;
        Handle (UpdateTaskStatus "task_a" Done) sample_clock;
        Handle (ToggleArchive "proj_1") sample_clock;
        Handle (SaveTask (EDIT_TASK task_a1) (form_data task_a1) "proj_1" None) sample_clock]
       sample_state).
Proof.
  apply session_keeps_task_order; [exact sample_state_ordered|].
  cbn [all_along keeps_order_intent].
  split; [|split; [exact I|split; [exact I|split; [|exact I]]]].
  - cbn [save_accepted]. apply (bool_decide_unpack _). vm_compute. exact I.
  - cbn [save_accepted]. apply (bool_decide_unpack _). vm_compute. exact I.
Defined.

Lemma session_keeps_logs_witness :
  keeps_entries (activityLog sample_state)
    (activityLog
       (run_session
          [Handle (AddComment "proj_1" "hello") sample_clock;
           Render (handleAddComment "proj_1" "hello" sample_clock sample_state);
           Handle (ToggleArchive "proj_1") sample_clock;
           Handle (DeleteTask "task_a") sample_clock]
          sample_state)) /\
  extends (comments sample_state)
    (comments
       (run_session
          [Handle (AddComment "proj_1" "hello") sample_clock;
           Render (handleAddComment "proj_1" "hello" sample_clock sample_state);
           Handle (ToggleArchive "proj_1") sample_clock;
           Handle (DeleteTask "task_a") sample_clock]
          sample_state)).
Proof.
  assert (Hok : all_along keeps_log_intent
                  [Handle (AddComment "proj_1" "hello") sample_clock;
                   Render (handleAddComment "proj_1" "hello" sample_clock sample_state);
                   Handle (ToggleArchive "proj_1") sample_clock;
                   Handle (DeleteTask "task_a") sample_clock]
                  sample_state).
  { cbn [all_along keeps_log_intent step perform].
    split; [exact I|]. split; [apply rendered_refl|]. split; [exact I|]. by split. }
  destruct (session_keeps_logs _ sample_state Hok) as (Hlog & Hcom & _).
  by split.
Defined.

(** ** Drag and drop in general *)

Section ReorderGeneral.
Context {T : Type} `{Ordered T}.

Lemma ordered_ids_inj (l : list T) (x y : T) :
  NoDup (item_id <$> l) -> x ∈ l -> y ∈ l -> item_id x = item_id y -> x = y.
Proof.
  induction l as [|z l IH]; intros Hnd Hx Hy Heq; [by apply elem_of_nil in Hx|].
  rewrite fmap_cons in Hnd. apply NoDup_cons in Hnd as [Hz Hnd].
  apply elem_of_cons in Hx as [->|Hx]; apply elem_of_cons in Hy as [->|Hy].
  - done.
  - exfalso. apply Hz. rewrite Heq. by apply list_elem_of_fmap_2.
  - exfalso. apply Hz. rewrite <- Heq. by apply list_elem_of_fmap_2.
  - by apply IH.
Qed.

Lemma find_item_some (l : list T) (id : string) (x : T) :
  List.find (fun p => String.eqb (item_id p) id) l = Some x ->
  x ∈ l /\ item_id x = id.
Proof.
  intros Hfind. apply find_some in Hfind as [Hin Heq].
  split; [by apply list_elem_of_In|]. by apply String.eqb_eq.
Qed.

Lemma find_item_first (l : list T) (x : T) :
  NoDup (item_id <$> l) -> x ∈ l ->
  List.find (fun p => String.eqb (item_id p) (item_id x)) l = Some x.
Proof.
  intros Hnd Hin.
  destruct (List.find _ l) as [x'|] eqn:Hfind.
  - apply find_item_some in Hfind as [Hin' Hid'].
    f_equal. by apply (ordered_ids_inj l).
  - exfalso. apply list_elem_of_In in Hin.
    pose proof (find_none _ _ Hfind x Hin) as Hno. simpl in Hno.
    apply String.eqb_neq in Hno. done.
Qed.

Lemma filter_all {A} (P : A -> Prop) `{!forall x, Decision (P x)} (l : list A) :
  (forall x, x ∈ l -> P x) -> filter P l = l.
Proof.
  induction l as [|x l IH]; intros Hall; [done|].
  rewrite filter_cons_True by (apply Hall; left).
  f_equal. apply IH. intros y Hy. apply Hall. by right.
Qed.

Lemma pull_out (l : list T) (d : T) :
  NoDup (item_id <$> l) -> d ∈ l ->
  d :: filter (fun p => item_id p <> item_id d) l ≡ₚ l.
Proof.
  induction l as [|x l IH]; intros Hnd Hin; [by apply elem_of_nil in Hin|].
  rewrite fmap_cons in Hnd. apply NoDup_cons in Hnd as [Hx Hnd].
  apply elem_of_cons in Hin as [->|Hin].
  - rewrite filter_cons_False by (intros Hne; by apply Hne).
    rewrite filter_all; [done|].
    intros y Hy Heq. apply Hx. rewrite <- Heq. by apply list_elem_of_fmap_2.
  - rewrite filter_cons_True.
    + rewrite Permutation_swap. by rewrite IH.
    + intros Heq. apply Hx. rewrite Heq. by apply list_elem_of_fmap_2.
Qed.

(** A drop that names an item that is not in the list, as dragged or as
    target, or that drops an item on itself, gives back the list
    untouched: nothing is renumbered. *)
Theorem handleReorder_noop (draggedId targetId : string) (items : list T)
        (position : DropPosition) :
  draggedId ∉ item_id <$> items \/ targetId ∉ item_id <$> items
  \/ draggedId = targetId ->
  handleReorder draggedId targetId items position = items.
Proof.
  intros Hcase. unfold handleReorder.
  destruct (List.find _ items) as [draggedItem|] eqn:Hfind; [|done].
  apply find_item_some in Hfind as [Hin Hid].
  destruct (list_find _ _) as [[targetIndex target]|] eqn:Htarget; [|done].
  exfalso. apply list_find_Some in Htarget as (Hlook & Htid & _).
  apply list_elem_of_lookup_2 in Hlook.
  rewrite sort_by_order_perm in Hlook.
  apply list_elem_of_filter in Hlook as [Hne Hmem].
  destruct Hcase as [Hd|[Ht|Heq]].
  - apply Hd. rewrite <- Hid. by apply list_elem_of_fmap_2.
  - apply Ht. rewrite <- Htid. by apply list_elem_of_fmap_2.
  - congruence.
Qed.

(** A drop of one item of the list on another, ids being unique: the
    result holds the same items, each with every field but [order] as it
    was, numbered [0 .. n-1] in sequence; the dragged item stands directly
    before the target (directly after it for position [bottom]); and the
    other items stand as the stable sort by their old [order] puts them. *)
Theorem handleReorder_places (draggedItem target : T) (items : list T)
        (position : DropPosition) :
  NoDup (item_id <$> items) ->
  draggedItem ∈ items -> target ∈ items ->
  item_id draggedItem <> item_id target ->
  let result := handleReorder (item_id draggedItem) (item_id target) items position in
  (exists l, l ≡ₚ items /\ result = renumber l) /\
  item_id <$> result ≡ₚ item_id <$> items /\
  item_order <$> result = Z.of_nat <$> seq 0 (length items) /\
  (exists i,
     match position with
     | top => (item_id <$> result) !! i = Some (item_id draggedItem) /\
              (item_id <$> result) !! S i = Some (item_id target)
     | bottom => (item_id <$> result) !! i = Some (item_id target) /\
                 (item_id <$> result) !! S i = Some (item_id draggedItem)
     end) /\
  filter (fun id => id <> item_id draggedItem) (item_id <$> result)
  = item_id <$> sort_by_order
                  (filter (fun p => item_id p <> item_id draggedItem) items).
Proof.
  intros Hnd Hd Ht Hne result.
  set (rest := sort_by_order (filter (fun p => item_id p <> item_id draggedItem) items)).
  assert (Hrest : rest ≡ₚ filter (fun p => item_id p <> item_id draggedItem) items)
    by apply sort_by_order_perm.
  assert (Hrest_in : forall x, x ∈ rest -> x ∈ items /\ item_id x <> item_id draggedItem).
  { intros x Hx. rewrite Hrest in Hx. apply list_elem_of_filter in Hx. tauto. }
  assert (Htarget_in : target ∈ rest).
  { rewrite Hrest. apply list_elem_of_filter. split; [congruence|done]. }
  destruct (list_find (fun p => item_id p = item_id target) rest)
    as [[i x]|] eqn:Hfind.
  2: { exfalso. apply list_find_None in Hfind.
       rewrite Forall_forall in Hfind. by apply (Hfind target). }
  pose proof Hfind as Hfound.
  apply list_find_Some in Hfound as (Hlook & Hxid & _).
  assert (x = target) as ->.
  { apply (ordered_ids_inj items); [done| |done|done].
    apply Hrest_in. by apply list_elem_of_lookup_2 in Hlook. }
  assert (Hi : (i < length rest)%nat) by by apply lookup_lt_Some in Hlook.
  set (j := match position with bottom => S i | top => i end).
  assert (Hj : (j <= length rest)%nat) by (unfold j; destruct position; lia).
  set (l := take j rest ++ draggedItem :: drop j rest).
  assert (Hresult : result = renumber l).
  { unfold result, handleReorder. rewrite (find_item_first items draggedItem Hnd Hd).
    fold rest. by rewrite Hfind. }
  assert (Hl : l ≡ₚ items).
  { unfold l. rewrite <- Permutation_middle, take_drop, Hrest. by apply pull_out. }
  assert (Hids : item_id <$> result
                 = (item_id <$> take j rest) ++ item_id draggedItem
                     :: (item_id <$> drop j rest)).
  { rewrite Hresult, renumber_ids. unfold l. by rewrite fmap_app, fmap_cons. }
  assert (Hlen_take : length (item_id <$> take j rest) = j).
  { rewrite length_fmap, length_take. lia. }
  split; [by exists l|]. split; [by rewrite Hresult, renumber_ids, Hl|].
  split.
  { rewrite Hresult, renumber_orders. by rewrite Hl. }
  split.
  - exists i. rewrite Hids. unfold j in *. destruct position.
    + split.
      * rewrite lookup_app_r by lia. by rewrite Hlen_take, Nat.sub_diag.
      * rewrite lookup_app_r by lia. rewrite Hlen_take.
        replace (S i - i)%nat with 1%nat by lia. simpl.
        rewrite list_lookup_fmap, lookup_drop, Nat.add_0_r, Hlook. done.
    + split.
      * rewrite lookup_app_l by lia.
        rewrite list_lookup_fmap, lookup_take_lt by lia. by rewrite Hlook.
      * rewrite lookup_app_r by lia. by rewrite Hlen_take, Nat.sub_diag.
  - rewrite Hids, filter_app, filter_cons_False by (intros Hno; by apply Hno).
    rewrite !filter_all.
    + by rewrite <- fmap_app, take_drop.
    + intros id Hid. apply list_elem_of_fmap in Hid as (y & -> & Hy).
      apply Hrest_in. eapply elem_of_sublist; [exact Hy|apply sublist_drop].
    + intros id Hid. apply list_elem_of_fmap in Hid as (y & -> & Hy).
      apply Hrest_in. eapply elem_of_sublist; [exact Hy|apply sublist_take].
Qed.

End ReorderGeneral.

Lemma handleReorder_noop_witness :
  handleReorder "proj_9" "proj_1" [sample_project] top = [sample_project] /\
  handleReorder "task_a" "task_a" [task_a; task_b; task_c] bottom
  = [task_a; task_b; task_c].
Proof.
  split.
  - apply handleReorder_noop. left. simpl. apply (bool_decide_unpack _).
    vm_compute. exact I.
  - apply handleReorder_noop. right. right. reflexivity.
Defined.

Lemma handleReorder_places_witness :
  item_id <$> handleReorder "task_c" "task_a" [task_a; task_b; task_c] bottom
  ≡ₚ item_id <$> [task_a; task_b; task_c].
Proof.
  assert (Hnd : NoDup (item_id <$> [task_a; task_b; task_c])).
  { simpl. repeat (apply NoDup_cons; split; [set_solver|]). apply NoDup_nil_2. }
  assert (Hd : task_c ∈ [task_a; task_b; task_c]) by (right; right; left).
  assert (Ht : task_a ∈ [task_a; task_b; task_c]) by left.
  assert (Hne : item_id task_c <> item_id task_a) by done.
  exact (proj1 (proj2 (handleReorder_places task_c task_a [task_a; task_b; task_c]
                         bottom Hnd Hd Ht Hne))).
Defined.

(** ** What a delete and a move leave behind *)

Section Aftermath.

Lemma find_task_none (l : list Task) (id : string) :
  id ∉ task_id <$> l ->
  List.find (fun t => String.eqb (task_id t) id) l = None.
Proof.
  induction l as [|u l IH]; intros Hid; simpl; [done|].
  rewrite fmap_cons in Hid. apply not_elem_of_cons in Hid as [Hne Hid].
  destruct (String.eqb (task_id u) id) eqn:Heq; [|by apply IH].
  by apply String.eqb_eq in Heq.
Qed.

Lemma doomed_child (all : list Task) (root p : string) (t : Task) :
  t ∈ all -> parent_link t = Some p -> doomed all root p ->
  doomed all root (task_id t).
Proof.
  intros Ht Hlink [->|Hdesc]; right.
  - by apply desc_child.
  - by eapply desc_deeper.
Qed.

(** After a delete no task is left hanging: a remaining task whose
    parent was in the state still finds it there. The deleted id is gone,
    so a second delete of it does nothing and writes no log entry; unique
    ids stay unique. *)
Theorem delete_leaves_no_orphans (fuel : nat) (taskId : string)
        (now now' : nat -> Clock) (current : AppState) :
  taskId ∈ task_id <$> tasks current ->
  (length (tasks current) < fuel)%nat ->
  exists next,
    handleDeleteTask fuel taskId now current = Some next /\
    (forall t p, t ∈ tasks next -> parent_link t = Some p ->
                 p ∈ task_id <$> tasks current -> p ∈ task_id <$> tasks next) /\
    (taskId ∉ task_id <$> tasks next) /\
    handleDeleteTask fuel taskId now' next = Some next /\
    (NoDup (task_id <$> tasks current) -> NoDup (task_id <$> tasks next)).
Proof.
  intros Hpresent Hfuel.
  destruct (handleDeleteTask_unfold fuel taskId now current Hpresent Hfuel)
    as (target & D & Hin & Hid & HD & Hrun).
  eexists. split; [exact Hrun|]. cbn [tasks].
  assert (Hgone : taskId ∉ task_id <$> filter (fun t => task_id t ∉ D) (tasks current)).
  { intros Hmem. apply list_elem_of_fmap in Hmem as (t & Heq & Ht).
    apply list_elem_of_filter in Ht as [Hout _]. apply Hout, HD. by left. }
  split; [|split; [exact Hgone|split]].
  - intros t p Ht Hlink Hp.
    apply list_elem_of_filter in Ht as [Hout Ht].
    apply list_elem_of_fmap in Hp as (u & -> & Hu).
    apply list_elem_of_fmap_2, list_elem_of_filter. split; [|done].
    intros Hdoomed. apply Hout, HD. eapply doomed_child; [done|done|]. by apply HD.
  - unfold handleDeleteTask. cbn [tasks]. by rewrite find_task_none.
  - intros Hnd. eapply sublist_NoDup; [exact Hnd|].
    apply fmap_sublist, sublist_filter.
Qed.


End Aftermath.

Lemma delete_leaves_no_orphans_witness :
  exists next,
    handleDeleteTask 6 "task_a" sample_clock sample_state = Some next /\
    (forall t p, t ∈ tasks next -> parent_link t = Some p ->
                 p ∈ task_id <$> tasks sample_state -> p ∈ task_id <$> tasks next) /\
    ("task_a" ∉ task_id <$> tasks next) /\
    handleDeleteTask 6 "task_a" sample_clock next = Some next /\
    (NoDup (task_id <$> tasks sample_state) -> NoDup (task_id <$> tasks next)).
Proof.
  apply (delete_leaves_no_orphans 6 "task_a" sample_clock sample_clock sample_state).
  - simpl. left.
  - simpl. lia.
Defined.


(** ** The parents the task form offers *)

Section TaskFormFacts.

Lemma visit_children_spec (children : list Task) (D : gset string) (Q : list string) :
  exists new,
    visit_children children (D, Q) = (D ∪ list_to_set new, Q ++ new) /\
    NoDup new /\
    forall x, x ∈ new <-> x ∈ task_id <$> children /\ x ∉ D.
Proof.
  revert D Q. induction children as [|c cs IH]; intros D Q.
  - exists []. split; [|split].
    + simpl. f_equal; [set_solver|by rewrite app_nil_r].
    + apply NoDup_nil_2.
    + intros x. set_solver.
  - unfold visit_children. cbn [foldl fst snd]. case_bool_decide as Hc.
    + destruct (IH D Q) as (new & Hrun & Hnd & Hnew).
      exists new. split; [exact Hrun|]. split; [done|].
      intros x. rewrite Hnew, fmap_cons, elem_of_cons. set_solver.
    + destruct (IH ({[task_id c]} ∪ D) (Q ++ [task_id c])) as (new & Hrun & Hnd & Hnew).
      exists (task_id c :: new). split; [|split].
      * unfold visit_children in Hrun. rewrite Hrun. f_equal.
        -- set_solver.
        -- by rewrite <- app_assoc.
      * apply NoDup_cons. split; [|done]. rewrite Hnew. set_solver.
      * intros x. rewrite elem_of_cons, Hnew, fmap_cons, elem_of_cons.
        destruct (decide (x = task_id c)); set_solver.
Qed.

Lemma getDescendants_loop_terminates (all : list Task) (fuel : nat) :
  forall (D : gset string) (Q : list string),
    D ⊆ list_to_set (task_id <$> all) ->
    (length Q + (size (list_to_set (task_id <$> all) : gset string) - size D) < fuel)%nat ->
    is_Some (getDescendants_loop fuel all D Q).
Proof.
  induction fuel as [|fuel IH]; intros D Q HD Hfuel; [lia|].
  destruct Q as [|c Q]; [by eexists|]. cbn [getDescendants_loop].
  destruct (visit_children_spec (filter (fun t => task_parentId t = Some c) all) D Q)
    as (new & -> & Hnd & Hnew). cbn [fst snd].
  set (I := list_to_set (task_id <$> all) : gset string) in *.
  assert (Hsub : list_to_set new ⊆ I).
  { intros x Hx. apply elem_of_list_to_set, Hnew in Hx as [Hx _].
    apply elem_of_list_to_set.
    apply list_elem_of_fmap in Hx as (t & -> & Ht).
    apply list_elem_of_filter in Ht as [_ Ht]. by apply list_elem_of_fmap_2. }
  assert (Hdisj : D ## list_to_set new).
  { intros x HxD Hx. apply elem_of_list_to_set, Hnew in Hx as [_ Hx]. done. }
  assert (Hsize : size (D ∪ list_to_set new) = (size D + length new)%nat).
  { rewrite size_union by done. by rewrite size_list_to_set. }
  assert (Hle : (size (D ∪ list_to_set new) <= size I)%nat).
  { apply subseteq_size. set_solver. }
  apply IH; [set_solver|]. rewrite length_app. simpl in Hfuel. lia.
Qed.

(** What the loop maintains: the set holds only ids under [root]; the
    queue holds [root] or ids of the set; and an id that is [root] or in the
    set and no longer queued has all its children in the set. *)
Lemma getDescendants_loop_sound (all : list Task) (root : string) (fuel : nat) :
  forall (D : gset string) (Q : list string) (R : gset string),
    getDescendants_loop fuel all D Q = Some R ->
    (forall x, x ∈ D -> under all root x) ->
    (forall x, x ∈ Q -> x = root \/ x ∈ D) ->
    (forall x t, x = root \/ x ∈ D -> x ∉ Q -> t ∈ all ->
                 task_parentId t = Some x -> task_id t ∈ D) ->
    forall x, x ∈ R <-> under all root x.
Proof.
  induction fuel as [|fuel IH]; intros D Q R Hrun Hsound Hqueue Hdone; [done|].
  destruct Q as [|c Q]; cbn [getDescendants_loop] in Hrun.
  - injection Hrun as <-. intros x. split; [apply Hsound|].
    induction 1 as [t Ht Hp|t p Ht Hp Hup IHup].
    + apply (Hdone root t); [by left|apply not_elem_of_nil|done|done].
    + apply (Hdone p t); [by right|apply not_elem_of_nil|done|done].
  - destruct (visit_children_spec (filter (fun t => task_parentId t = Some c) all) D Q)
      as (new & Hvisit & Hnd & Hnew). rewrite Hvisit in Hrun. cbn [fst snd] in Hrun.
    assert (Hc : c = root \/ c ∈ D) by (apply Hqueue; left).
    apply (IH _ _ _ Hrun).
    + intros x Hx. apply elem_of_union in Hx as [Hx|Hx]; [by apply Hsound|].
      apply elem_of_list_to_set, Hnew in Hx as [Hx _].
      apply list_elem_of_fmap in Hx as (t & -> & Ht).
      apply list_elem_of_filter in Ht as [Hp Ht].
      destruct Hc as [->|Hc]; [by apply under_child|].
      eapply under_deeper; [done|done|]. by apply Hsound.
    + intros x Hx. apply elem_of_app in Hx as [Hx|Hx].
      * destruct (Hqueue x) as [->|HxD]; [by right|by left|].
        right. set_solver.
      * right. apply elem_of_union. right. by apply elem_of_list_to_set.
    + intros x t Hx HxQ Ht Hp.
      rewrite not_elem_of_app in HxQ. destruct HxQ as [HxQ Hxnew].
      destruct (decide (x = c)) as [->|Hxc].
      * destruct (decide (task_id t ∈ D)) as [HtD|HtD]; [set_solver|].
        apply elem_of_union. right. apply elem_of_list_to_set, Hnew.
        split; [|done]. apply list_elem_of_fmap_2, list_elem_of_filter. by split.
      * assert (Hx' : x = root \/ x ∈ D).
        { destruct Hx as [->|Hx]; [by left|].
          apply elem_of_union in Hx as [Hx|Hx]; [by right|].
          exfalso. apply elem_of_list_to_set in Hx. by apply Hxnew. }
        apply elem_of_union. left. apply (Hdone x t); [done| |done|done].
        apply not_elem_of_cons. by split.
Qed.

Lemma getDescendants_sound (fuel : nat) (taskId : string) (all : list Task)
      (D : gset string) :
  getDescendants fuel taskId all = Some D ->
  forall x, x ∈ D <-> under all taskId x.
Proof.
  intros HD.
  apply (getDescendants_loop_sound all taskId fuel ∅ [taskId] D HD).
  - set_solver.
  - intros x Hx. apply list_elem_of_singleton in Hx. by left.
  - intros x t [->|Hx] HxQ; [|set_solver]. exfalso. apply HxQ. left.
Qed.

Lemma getDescendants_returns (fuel : nat) (taskId : string) (all : list Task) :
  (length all + 1 < fuel)%nat -> is_Some (getDescendants fuel taskId all).
Proof.
  intros Hfuel. unfold getDescendants.
  apply getDescendants_loop_terminates; [set_solver|].
  pose proof (size_ids_le (task_id <$> all)) as Hsize.
  rewrite length_fmap in Hsize. rewrite size_empty. simpl. lia.
Qed.

(** [getDescendants] returns (the loop ends as soon as the fuel exceeds
    the number of tasks by two), and what it returns is the set of the ids
    below the task: the children, their children and so on, the task's own
    id only if the parent links run in a circle through it. *)
Theorem getDescendants_spec (fuel : nat) (taskId : string) (all : list Task) :
  (length all + 1 < fuel)%nat ->
  exists D, getDescendants fuel taskId all = Some D /\
            forall x, x ∈ D <-> under all taskId x.
Proof.
  intros Hfuel.
  destruct (getDescendants_returns fuel taskId all Hfuel) as [D HD].
  exists D. split; [done|]. by apply (getDescendants_sound fuel).
Qed.

Lemma possibleParentTasks_sound (fuel : nat) (task : Task) (newProjectId : string)
      (all offered : list Task) :
  possibleParentTasks fuel (Some task) newProjectId all = Some offered ->
  forall t, t ∈ offered <->
            t ∈ all /\ task_projectId t = newProjectId /\
            task_id t <> task_id task /\ ~ under all (task_id task) (task_id t).
Proof.
  unfold possibleParentTasks. intros Hrun t.
  destruct (getDescendants fuel (task_id task) all) as [D|] eqn:HD; [|done].
  simpl in Hrun. injection Hrun as <-.
  rewrite list_elem_of_filter, (getDescendants_sound fuel _ _ D HD). tauto.
Qed.

(** The parents offered for a task are exactly the tasks of the selected
    project other than the task itself and the tasks below it, in the
    sequence of the task list; without a task to edit none is offered. *)
Theorem possibleParentTasks_spec (fuel : nat) (task : Task) (newProjectId : string)
        (all : list Task) :
  (length all + 1 < fuel)%nat ->
  possibleParentTasks fuel None newProjectId all = Some [] /\
  exists offered,
    possibleParentTasks fuel (Some task) newProjectId all = Some offered /\
    offered `sublist_of` all /\
    forall t, t ∈ offered <->
              t ∈ all /\ task_projectId t = newProjectId /\
              task_id t <> task_id task /\ ~ under all (task_id task) (task_id t).
Proof.
  intros Hfuel. split; [done|].
  destruct (getDescendants_returns fuel (task_id task) all Hfuel) as [D HD].
  assert (Hrun : possibleParentTasks fuel (Some task) newProjectId all
                 = Some (filter (fun t => task_projectId t = newProjectId
                                          /\ task_id t <> task_id task
                                          /\ task_id t ∉ D) all)).
  { unfold possibleParentTasks. by rewrite HD. }
  eexists. split; [exact Hrun|]. split; [apply sublist_filter|].
  by apply (possibleParentTasks_sound fuel).
Qed.

Lemma under_is_task (all : list Task) (root x : string) :
  under all root x -> x ∈ task_id <$> all.
Proof. destruct 1; by apply list_elem_of_fmap_2. Qed.

Lemma under_trans (all : list Task) (r p x : string) :
  under all r p -> under all p x -> under all r x.
Proof.
  intros Hrp. induction 1 as [t Ht Hp|t q Ht Hp Hpq IH].
  - by eapply under_deeper.
  - by eapply under_deeper.
Qed.

(** Two task lists where each task of the second has the id and the
    parent of a task of the first, but for tasks with id [o], which have
    the parent [np]. *)
Lemma under_rerouted_from (l l' : list Task) (o : string) (np : option string) :
  (forall t', t' ∈ l' ->
     (exists t, t ∈ l /\ task_id t = task_id t' /\ task_parentId t = task_parentId t')
     \/ (task_id t' = o /\ task_parentId t' = np)) ->
  (forall pid, np = Some pid -> pid <> o /\ ~ under l o pid) ->
  forall x, under l' o x -> under l o x.
Proof.
  intros Hlinks Hnp x. induction 1 as [t' Ht' Hp|t' q Ht' Hp Hq IH].
  - destruct (Hlinks t' Ht') as [(t & Ht & <- & Hpar)|[Hid Hpar]].
    + apply under_child; [done|congruence].
    + exfalso. rewrite Hp in Hpar. symmetry in Hpar.
      by destruct (Hnp o Hpar).
  - destruct (Hlinks t' Ht') as [(t & Ht & <- & Hpar)|[Hid Hpar]].
    + eapply under_deeper; [done| |exact IH]. congruence.
    + exfalso. rewrite Hp in Hpar. symmetry in Hpar.
      destruct (Hnp q Hpar) as [_ Hno]. by apply Hno.
Qed.

Lemma under_rerouted (l l' : list Task) (o : string) (np : option string) :
  (forall t', t' ∈ l' ->
     (exists t, t ∈ l /\ task_id t = task_id t' /\ task_parentId t = task_parentId t')
     \/ (task_id t' = o /\ task_parentId t' = np)) ->
  forall r x, under l' r x ->
    under l r x \/
    exists pid, np = Some pid /\ (pid = r \/ under l r pid) /\ (x = o \/ under l' o x).
Proof.
  intros Hlinks r x. induction 1 as [t' Ht' Hp|t' q Ht' Hp Hq IH].
  - destruct (Hlinks t' Ht') as [(t & Ht & Heq & Hpar)|[Hid Hpar]].
    + left. rewrite <- Heq. apply under_child; [done|congruence].
    + right. exists r. split; [congruence|]. split; [by left|by left].
  - destruct (Hlinks t' Ht') as [(t & Ht & Heq & Hpar)|[Hid Hpar]].
    + destruct IH as [IH|(pid & Hpid & Hup & Hdown)].
      * left. rewrite <- Heq. eapply under_deeper; [done| |exact IH]. congruence.
      * right. exists pid. split; [done|]. split; [done|]. right.
        destruct Hdown as [->|Hdown].
        -- by apply under_child.
        -- by eapply under_deeper.
    + destruct IH as [IH|(pid & Hpid & Hup & Hdown)].
      * right. exists q. split; [congruence|]. split; [by right|by left].
      * right. exists pid. split; [done|]. split; [done|]. by left.
Qed.

Lemma rerouted_keeps_forest (l l' : list Task) (o : string) (np : option string) :
  (forall t', t' ∈ l' ->
     (exists t, t ∈ l /\ task_id t = task_id t' /\ task_parentId t = task_parentId t')
     \/ (task_id t' = o /\ task_parentId t' = np)) ->
  (forall pid, np = Some pid -> pid <> o /\ ~ under l o pid) ->
  (forall r, ~ under l r r) -> forall r, ~ under l' r r.
Proof.
  intros Hlinks Hnp Hforest r Hcycle.
  destruct (under_rerouted l l' o np Hlinks r r Hcycle)
    as [Hold|(pid & Hpid & Hup & Hdown)]; [by apply (Hforest r)|].
  destruct (Hnp pid Hpid) as [Hne Hno].
  destruct Hdown as [->|Hdown].
  - destruct Hup as [->|Hup]; done.
  - apply (under_rerouted_from l l' o np Hlinks Hnp) in Hdown.
    apply Hno. destruct Hup as [->|Hup]; [done|]. by eapply under_trans.
Qed.

(** Saving an edit whose parent is one the form offers (or none, or the
    parent and project the task had) never closes a circle of parent
    links: if no task of the state is below itself, none is afterwards. *)
Theorem offered_parent_keeps_forest (fuel : nat) (orig : Task) (data : TaskData)
        (newProjectId : string) (newParentId : option string) (now : nat -> Clock)
        (current : AppState) (offered : list Task) :
  NoDup (task_id <$> tasks current) ->
  orig ∈ tasks current ->
  possibleParentTasks fuel (Some orig) newProjectId (tasks current) = Some offered ->
  offered_parent offered newParentId
  \/ (newProjectId = task_projectId orig /\ newParentId = task_parentId orig) ->
  (forall r, ~ under (tasks current) r r) ->
  forall r,
    ~ under (tasks (handleSaveTask (EDIT_TASK orig) data newProjectId newParentId
                      now current)) r r.
Proof.
  intros Hnd Horig Hoffered Hpick Hforest.
  destruct (decide (task_projectId orig <> newProjectId
                    \/ task_parentId orig <> newParentId)) as [Hmoved|Hstay].
  - destruct Hpick as [Hpick|[-> ->]]; [|by destruct Hmoved].
    apply (rerouted_keeps_forest (tasks current) _ (task_id orig) newParentId);
      [| |done].
    + rewrite handleSaveTask_move_tasks by done.
      assert (Hnd' : NoDup (task_id <$> filter (fun t => task_id t <> task_id orig)
                                          (tasks current))).
      { eapply sublist_NoDup; [exact Hnd|]. apply fmap_sublist, sublist_filter. }
      intros t' Ht'. apply elem_of_app in Ht' as [Ht'|Ht'].
      * left. apply list_elem_of_fmap in Ht' as (t & -> & Ht).
        destruct (relabel_cases (task_projectId orig) (task_parentId orig) _ t Hnd' Ht)
          as [n ->].
        exists t. apply list_elem_of_filter in Ht as [_ Ht]. done.
      * right. apply list_elem_of_singleton in Ht' as ->. done.
    + intros pid ->. simpl in Hpick.
      apply list_elem_of_fmap in Hpick as (p & -> & Hp).
      apply (possibleParentTasks_sound fuel orig newProjectId _ _ Hoffered) in Hp.
      tauto.
  - apply (rerouted_keeps_forest (tasks current) _ (task_id orig) None);
      [|done|done].
    unfold handleSaveTask. rewrite bool_decide_eq_false_2 by done. cbn [tasks].
    intros t' Ht'. left. apply list_elem_of_fmap in Ht' as (t & -> & Ht).
    exists t. split; [done|]. case_bool_decide as Hid; [|done].
    assert (t = orig) as -> by by apply (NoDup_ids_inj (tasks current)).
    done.
Qed.

End TaskFormFacts.

Lemma getDescendants_spec_witness :
  exists D, getDescendants 7 "task_a" (tasks sample_state) = Some D /\
            forall x, x ∈ D <-> under (tasks sample_state) "task_a" x.
Proof. apply getDescendants_spec. simpl. lia. Defined.

Lemma possibleParentTasks_spec_witness :
  possibleParentTasks 7 None "proj_1" (tasks sample_state) = Some [] /\
  exists offered,
    possibleParentTasks 7 (Some task_a) "proj_1" (tasks sample_state) = Some offered /\
    offered `sublist_of` tasks sample_state /\
    forall t, t ∈ offered <->
              t ∈ tasks sample_state /\ task_projectId t = "proj_1" /\
              task_id t <> task_id task_a /\
              ~ under (tasks sample_state) (task_id task_a) (task_id t).
Proof. apply possibleParentTasks_spec. simpl. lia. Defined.

Lemma sample_state_forest (r : string) : ~ under (tasks sample_state) r r.
Proof.
  intros Hr. pose proof (under_is_task _ _ _ Hr) as Hid. simpl in Hid.
  repeat (apply elem_of_cons in Hid as [->|Hid]);
    [..|by apply elem_of_nil in Hid];
    match type of Hr with
    | under _ ?id _ =>
        destruct (getDescendants 7 id (tasks sample_state)) as [D|] eqn:HD;
          [|by vm_compute in HD];
          apply (getDescendants_sound 7 _ _ D HD) in Hr;
          vm_compute in HD; injection HD as <-;
          revert Hr; apply (bool_decide_unpack _); vm_compute; exact I
    end.
Qed.

Lemma offered_parent_keeps_forest_witness :
  possibleParentTasks 7 (Some task_a2) "proj_1" (tasks sample_state)
  = Some [task_a; task_b; task_c; task_a1] /\
  ~ under (tasks (handleSaveTask (EDIT_TASK task_a2) (form_data task_a2) "proj_1"
                    (Some "task_b") sample_clock sample_state)) "task_a2" "task_a2".
Proof.
  assert (Hin : task_a2 ∈ tasks sample_state) by (simpl; do 4 right; left).
  assert (Hoffered : possibleParentTasks 7 (Some task_a2) "proj_1" (tasks sample_state)
                     = Some [task_a; task_b; task_c; task_a1]) by (vm_compute; reflexivity).
  assert (Hpick : offered_parent [task_a; task_b; task_c; task_a1] (Some "task_b")
                  \/ ("proj_1" = task_projectId task_a2
                      /\ Some "task_b" = task_parentId task_a2)).
  { left. simpl. right. left. }
  split; [exact Hoffered|].
  exact (offered_parent_keeps_forest 7 task_a2 (form_data task_a2) "proj_1"
           (Some "task_b") sample_clock sample_state _ sample_ids_NoDup Hin Hoffered
           Hpick sample_state_forest "task_a2").
Defined.

(** ** Importing a backup *)

Section ImportFile.

Lemma migrate_task_is_Some (t : value) :
  is_Some (migrate_task t) <-> nullish t = false.
Proof.
  unfold migrate_task. destruct t; simpl; split; intros Hs;
    try done; try (by eexists); by destruct Hs.
Qed.

Lemma handleImportData_arrays (data : value) (ps ts : list value) :
  get data "projects" = Some (VArr ps) ->
  get data "tasks" = Some (VArr ts) ->
  (Forall (fun t => nullish t = false) ts ->
   exists projects tasks c a,
     handleImportData data
     = Some (VObj [("projects", VArr projects); ("tasks", VArr tasks);
                   ("comments", or_else c (VObj []));
                   ("activityLog", or_else a (VObj []))]) /\
     get data "comments" = Some c /\ get data "activityLog" = Some a /\
     length projects = length ps /\ length tasks = length ts) /\
  (is_Some (handleImportData data) -> Forall (fun t => nullish t = false) ts).
Proof.
  intros Hps Hts. unfold handleImportData. rewrite Hps, Hts. simpl.
  destruct data; try done.
  split.
  - intros Hall.
    destruct (mapM import_project ps) as [projects|] eqn:Hprojects.
    2: { exfalso. assert (Hs : is_Some (mapM import_project ps)).
         { apply mapM_is_Some, Forall_forall. intros x _. by eexists. }
         rewrite Hprojects in Hs. by destruct Hs. }
    destruct (mapM migrate_task ts) as [tasks|] eqn:Htasks.
    2: { exfalso. assert (Hs : is_Some (mapM migrate_task ts)).
         { apply mapM_is_Some. eapply Forall_impl; [exact Hall|].
           intros t Ht. by apply migrate_task_is_Some. }
         rewrite Htasks in Hs. by destruct Hs. }
    simpl. eexists projects, tasks, _, _. split; [reflexivity|].
    split; [reflexivity|]. split; [reflexivity|].
    apply length_mapM in Hprojects. apply length_mapM in Htasks. done.
  - intros Hs.
    destruct (mapM import_project ps) as [projects|]; [|by destruct Hs].
    simpl in Hs.
    destruct (mapM migrate_task ts) as [tasks|] eqn:Htasks; [|by destruct Hs].
    assert (Hsome : is_Some (mapM migrate_task ts)) by (rewrite Htasks; by eexists).
    apply mapM_is_Some in Hsome. eapply Forall_impl; [exact Hsome|].
    intros t Ht. by apply migrate_task_is_Some.
Qed.

(** An import is all or nothing. Unless it ends in success the store,
    history included, is exactly what it was. It succeeds when, and only
    when, the parsed file has arrays under [projects] and [tasks], no task
    entry is [null], and the user confirms; the store then holds the
    migrated data as its only history entry, with nothing to undo or redo.
    Without the confirmation nothing is attempted. *)
Theorem import_all_or_nothing (parsed : option value) (confirmed : bool)
        (u : Undoable value) :
  let result := handleFileChange parsed confirmed u in
  (result.2 <> Imported -> result.1 = u) /\
  (result.2 = Imported ->
   exists data migratedData,
     parsed = Some data /\ handleImportData data = Some migratedData /\
     result.1 = useUndoableState migratedData /\
     canUndo result.1 = false /\ canRedo result.1 = false) /\
  (result.2 = Imported <->
   exists data ps ts,
     parsed = Some data /\ get data "projects" = Some (VArr ps) /\
     get data "tasks" = Some (VArr ts) /\
     Forall (fun t => nullish t = false) ts /\ confirmed = true) /\
  (result.2 = Declined <->
   exists data ps ts,
     parsed = Some data /\ get data "projects" = Some (VArr ps) /\
     get data "tasks" = Some (VArr ts) /\ confirmed = false).
Proof.
  intros result. unfold result, handleFileChange.
  destruct parsed as [data|].
  2: { cbn [fst snd]. repeat split; try done.
       - by intros (? & ? & ? & ? & _).
       - by intros (? & ? & ? & ? & _). }
  destruct (get data "projects") as [ps|] eqn:Hps.
  2: { cbn [fst snd]. repeat split; try done.
       - by intros (? & ? & ? & [= <-] & ? & _); congruence.
       - by intros (? & ? & ? & [= <-] & ? & _); congruence. }
  destruct ps as [| | | | |ps|]; cbn [Array_isArray];
    try (cbn [fst snd]; repeat split; try done;
         by intros (? & ? & ? & [= <-] & ? & _); congruence).
  destruct (get data "tasks") as [ts|] eqn:Hts.
  2: { cbn [fst snd]. repeat split; try done.
       - by intros (? & ? & ? & [= <-] & ? & ? & _); congruence.
       - by intros (? & ? & ? & [= <-] & ? & ? & _); congruence. }
  destruct ts as [| | | | |ts|]; cbn [Array_isArray];
    try (cbn [fst snd]; repeat split; try done;
         by intros (? & ? & ? & [= <-] & ? & ? & _); congruence).
  destruct (handleImportData_arrays data ps ts Hps Hts) as [Hgood Hbad].
  destruct confirmed.
  - destruct (handleImportData data) as [migratedData|] eqn:Himport; cbn [fst snd].
    + split; [done|]. split; [|split].
      * intros _. by exists data, migratedData.
      * split; [|done]. intros _. exists data, ps, ts.
        repeat split; try done. apply Hbad. by eexists.
      * split; [done|]. by intros (? & ? & ? & _ & _ & _ & ?).
    + split; [done|]. split; [done|]. split.
      * split; [done|]. intros (d & ps' & ts' & [= <-] & Hps' & Hts' & Hall & _).
        rewrite Hts in Hts'. injection Hts' as <-.
        destruct (Hgood Hall) as (? & ? & ? & ? & ? & _). congruence.
      * split; [done|]. by intros (? & ? & ? & _ & _ & _ & ?).
  - cbn [fst snd]. split; [done|]. split; [done|]. split.
    + split; [done|]. by intros (? & ? & ? & _ & _ & _ & _ & ?).
    + split; [|done]. intros _. by exists data, ps, ts.
Qed.

(** A backup as [handleExport] writes it has the two keys [projects] and
    [tasks]; importing it (no task entry being [null]) succeeds, keeps as
    many projects and tasks as the file has, and leaves the comments and
    the activity log empty: these two are not part of a backup. *)
Theorem backup_drops_comments_and_log (ps ts : list value) (u : Undoable value) :
  Forall (fun t => nullish t = false) ts ->
  exists projects tasks,
    handleFileChange (Some (handleExport_data (VArr ps) (VArr ts))) true u
    = (useUndoableState
         (VObj [("projects", VArr projects); ("tasks", VArr tasks);
                ("comments", VObj []); ("activityLog", VObj [])]),
       Imported) /\
    length projects = length ps /\ length tasks = length ts.
Proof.
  intros Hall.
  destruct (handleImportData_arrays (handleExport_data (VArr ps) (VArr ts)) ps ts
              eq_refl eq_refl) as [Hgood _].
  destruct (Hgood Hall) as (projects & tasks & c & a & Himport & Hc & Ha & Hlp & Hlt).
  exists projects, tasks. split; [|done].
  unfold handleFileChange.
  change (get (handleExport_data (VArr ps) (VArr ts)) "projects") with (Some (VArr ps)).
  change (get (handleExport_data (VArr ps) (VArr ts)) "tasks") with (Some (VArr ts)).
  cbn [Array_isArray]. rewrite Himport.
  injection Hc as <-. injection Ha as <-. reflexivity.
Qed.

End ImportFile.

Lemma backup_drops_comments_and_log_witness :
  exists projects tasks,
    handleFileChange (Some (handleExport_data (VArr [raw_project]) (VArr [raw_task VNull])))
      true (useUndoableState current_state_null_start)
    = (useUndoableState
         (VObj [("projects", VArr projects); ("tasks", VArr tasks);
                ("comments", VObj []); ("activityLog", VObj [])]),
       Imported) /\
    length projects = length [raw_project] /\ length tasks = length [raw_task VNull].
Proof.
  apply backup_drops_comments_and_log. repeat constructor.
Defined.

(** ** Persistence and reload *)

Section Persistence.
Variable parse : string -> option value.

(** The write effect settles: run again on the storage it left, which
    [App] makes it do at every render, it changes nothing. It never touches
    another key; it writes nothing while the key is absent and the value
    serialises as the initial value does; in every other case, the key
    being there already or the value serialising differently, it sets the
    key to the text of the value, creating it if need be. Reading falls
    back to the initial value when the item is missing, empty or not
    JSON. *)
Theorem useLocalStorage_effect_settles (key : string) (initialValue storedValue : value)
        (storage : gmap string string) :
  let storage' := useLocalStorage_effect key initialValue storedValue storage in
  useLocalStorage_effect key initialValue storedValue storage' = storage' /\
  (forall k, k <> key -> storage' !! k = storage !! k) /\
  (storage !! key = None ->
   JSON_stringify storedValue = JSON_stringify initialValue -> storage' = storage) /\
  (is_Some (storage !! key)
   \/ JSON_stringify storedValue <> JSON_stringify initialValue ->
   storage' = <[key := default "undefined" (JSON_stringify storedValue)]> storage /\
   storage' !! key = Some (default "undefined" (JSON_stringify storedValue))) /\
  (storage !! key = None \/ storage !! key = Some EmptyString
   \/ (exists item, storage !! key = Some item /\ parse item = None) ->
   useLocalStorage_init parse storage key initialValue = initialValue).
Proof.
  intros storage'. unfold storage', useLocalStorage_effect.
  assert (Hread : storage !! key = None \/ storage !! key = Some EmptyString
                  \/ (exists item, storage !! key = Some item /\ parse item = None) ->
                  useLocalStorage_init parse storage key initialValue = initialValue).
  { unfold useLocalStorage_init. intros [->|[->|(item & -> & ->)]]; try done.
    by destruct (String.eqb item EmptyString). }
  destruct (bool_decide (storage !! key = None)
            && bool_decide (JSON_stringify storedValue = JSON_stringify initialValue))
    eqn:Hcond.
  - rewrite Hcond. apply andb_prop in Hcond as [Hnone Hsame].
    apply bool_decide_eq_true in Hnone, Hsame.
    split; [done|]. split; [done|]. split; [done|]. split; [|done].
    intros [[x Hx]|Hdiffers]; [congruence|done].
  - rewrite (bool_decide_eq_false_2 (<[key:=_]> storage !! key = None))
      by by rewrite lookup_insert_eq.
    cbn [andb]. rewrite insert_insert_eq.
    split; [done|]. split; [|split; [|split; [|done]]].
    + intros k Hk. by rewrite lookup_insert_ne.
    + intros Hnone Hsame. exfalso.
      rewrite !bool_decide_eq_true_2 in Hcond by done. done.
    + intros _. split; [done|]. apply lookup_insert_eq.
Qed.








End Persistence.

Lemma useLocalStorage_effect_settles_witness :
  useLocalStorage_effect "focusflow_data" empty_state current_state_null_start ∅
    !! "focusflow_data"
  = Some (default "undefined" (JSON_stringify current_state_null_start)).
Proof.
  destruct (useLocalStorage_effect_settles (fun _ => None) "focusflow_data" empty_state
              current_state_null_start ∅) as (_ & _ & _ & Hwrite & _).
  apply Hwrite. right. intros Hsame. vm_compute in Hsame. discriminate Hsame.
Defined.


(** ** Calls that miss *)

Section Misses.
Variable stringify : AppState -> option string.

Lemma setStateWith_fixed (updater : AppState -> AppState) (u : Undoable AppState)
      (s : AppState) :
  state u = Some s -> updater s = s -> setStateWith stringify updater u = u.
Proof.
  intros Hs Hfix. unfold setStateWith, setState, same_serialization.
  rewrite Hs, Hfix. simpl. by rewrite bool_decide_eq_true_2.
Qed.

Lemma fmap_untouched {A} (f : A -> A) (l : list A) :
  (forall x, x ∈ l -> f x = x) -> f <$> l = l.
Proof.
  intros Hf. rewrite <- (list_fmap_id l) at 2.
  apply list_fmap_ext. intros i x Hi. apply Hf. by apply list_elem_of_lookup_2 in Hi.
Qed.

(** A call that names a task or a project the state does not have (a
    status change, a focus toggle, a task deletion, an archive toggle, a
    drag or a drop of a project) and a drop of a project on itself return
    the state as it is, and the store with it: the history gains no entry,
    so there is no empty undo step. *)
Theorem unknown_ids_are_ignored (u : Undoable AppState) (s : AppState)
        (now : nat -> Clock) (taskId projectId other : string) (status : TaskStatus) :
  state u = Some s ->
  taskId ∉ task_id <$> tasks s ->
  projectId ∉ project_id <$> projects s ->
  Forall (fun i => perform i now s = s /\
                   setStateWith stringify (perform i now) u = u)
         [UpdateTaskStatus taskId status; ToggleTaskFocus taskId; DeleteTask taskId;
          ToggleArchive projectId; ReorderProjects projectId other;
          ReorderProjects other projectId; ReorderProjects other other].
Proof.
  intros Hs Htask Hproject.
  assert (Hlift : forall i, perform i now s = s ->
                    perform i now s = s /\ setStateWith stringify (perform i now) u = u).
  { intros i Hi. split; [done|]. by apply (setStateWith_fixed _ u s). }
  assert (Hreorder : forall d t,
            (forall p, p ∈ projects s -> project_id p = t -> project_id p = d) ->
            handleReorderProjects d t s = s).
  { intros d t Hmiss. unfold handleReorderProjects.
    assert (Hsame : handleReorder d t (projects s) top = projects s);
      [|rewrite Hsame; by destruct s].
    unfold handleReorder.
    destruct (List.find _ (projects s)) as [draggedItem|]; [|done].
    destruct (list_find _ _) as [[i target]|] eqn:Hfind; [|done].
    exfalso. apply list_find_Some in Hfind as (Hlook & Htid & _).
    apply list_elem_of_lookup_2 in Hlook. rewrite sort_by_order_perm in Hlook.
    apply list_elem_of_filter in Hlook as [Hne Hmem]. apply Hne.
    by apply (Hmiss target). }
  repeat apply Forall_cons_2; [..|apply Forall_nil_2]; apply Hlift; cbn [perform].
  - unfold handleUpdateTaskStatus. by rewrite find_task_none.
  - unfold onToggleTaskFocus. rewrite fmap_untouched; [by destruct s|].
    intros t Ht. rewrite bool_decide_eq_false_2; [done|].
    intros Heq. apply Htask. rewrite <- Heq. by apply list_elem_of_fmap_2.
  - unfold handleDeleteTask. by rewrite find_task_none.
  - unfold handleToggleArchive. by rewrite find_project_none.
  - unfold handleReorderProjects.
    assert (Hsame : handleReorder projectId other (projects s) top = projects s);
      [|rewrite Hsame; by destruct s].
    unfold handleReorder.
    change (fun p : Project => String.eqb (item_id p) projectId)
      with (fun p : Project => String.eqb (project_id p) projectId).
    by rewrite find_project_none.
  - apply Hreorder. intros p Hp Hid. exfalso. apply Hproject.
    rewrite <- Hid. by apply list_elem_of_fmap_2.
  - apply Hreorder. by intros p _ Hid.
Qed.

End Misses.

Lemma unknown_ids_are_ignored_witness :
  Forall (fun i => perform i sample_clock sample_state = sample_state /\
                   setStateWith (fun _ => Some "state") (perform i sample_clock)
                     (useUndoableState sample_state)
                   = useUndoableState sample_state)
         [UpdateTaskStatus "task_z" Done; ToggleTaskFocus "task_z"; DeleteTask "task_z";
          ToggleArchive "proj_9"; ReorderProjects "proj_9" "proj_1";
          ReorderProjects "proj_1" "proj_9"; ReorderProjects "proj_1" "proj_1"].
Proof.
  apply unknown_ids_are_ignored.
  - reflexivity.
  - apply (bool_decide_unpack _). vm_compute. exact I.
  - apply (bool_decide_unpack _). vm_compute. exact I.
Defined.

(** ** Selecting projects *)

Section Selection.

(** A toggle flips whether the one id is selected and nothing else; it
    keeps the selection free of repeats, and selecting and deselecting an
    id gives back the selection as it was. "Select all" goes by counts
    alone: with as many ids selected as projects are shown it clears the
    selection, whichever ids those are, and otherwise selects exactly the
    projects shown; pressed twice while projects are shown it ends on the
    other of the two. *)
Theorem selection_toggles (projectId : string) (prev : list string)
        (shown : list Project) :
  (forall id, id ∈ handleToggleSelect projectId prev <->
              (id ∈ prev /\ id <> projectId) \/ (id = projectId /\ projectId ∉ prev)) /\
  (NoDup prev -> NoDup (handleToggleSelect projectId prev)) /\
  (projectId ∉ prev ->
   handleToggleSelect projectId (handleToggleSelect projectId prev) = prev) /\
  (length prev = length shown -> handleSelectAll prev shown = []) /\
  (length prev <> length shown -> handleSelectAll prev shown = project_id <$> shown) /\
  (shown <> [] ->
   handleSelectAll (handleSelectAll prev shown) shown
   = if bool_decide (length prev = length shown) then project_id <$> shown else []).
Proof.
  split; [|split; [|split; [|split; [|split]]]].
  - intros id. unfold handleToggleSelect. case_bool_decide as Hin.
    + rewrite list_elem_of_filter. split.
      * intros [Hne Hid]. by left.
      * intros [[Hid Hne]|[-> Hout]]; [done|]. by destruct Hout.
    + rewrite elem_of_app, list_elem_of_singleton. split.
      * intros [Hid| ->]; [|by right]. left. split; [done|]. by intros ->.
      * intros [[Hid _]|[-> _]]; [by left|by right].
  - intros Hnd. unfold handleToggleSelect. case_bool_decide as Hin.
    + by apply NoDup_filter.
    + apply NoDup_app. split; [done|]. split; [|apply NoDup_singleton].
      intros x Hx Hx'. apply list_elem_of_singleton in Hx' as ->. done.
  - intros Hout. unfold handleToggleSelect at 2.
    rewrite bool_decide_eq_false_2 by done. unfold handleToggleSelect.
    rewrite bool_decide_eq_true_2 by (apply elem_of_app; right; left).
    rewrite filter_app, filter_cons_False by (intros Hne; by apply Hne).
    rewrite filter_nil, app_nil_r. apply filter_all. by intros x Hx ->.
  - intros Hlen. unfold handleSelectAll. by rewrite bool_decide_eq_true_2.
  - intros Hlen. unfold handleSelectAll. by rewrite bool_decide_eq_false_2.
  - intros Hshown. unfold handleSelectAll at 2. case_bool_decide as Hlen.
    + unfold handleSelectAll. rewrite bool_decide_eq_false_2; [done|].
      destruct shown; [done|]. simpl. lia.
    + unfold handleSelectAll. by rewrite bool_decide_eq_true_2 by by rewrite length_fmap.
Qed.

End Selection.

(** ** Projects stay apart *)

Section ProjectsApart.

Lemma handleReorder_shape {T} `{Ordered T} (draggedId targetId : string)
      (items : list T) (position : DropPosition) :
  NoDup (item_id <$> items) ->
  handleReorder draggedId targetId items position = items \/
  exists l, l ≡ₚ items /\ handleReorder draggedId targetId items position = renumber l.
Proof.
  intros Hnd. unfold handleReorder.
  destruct (List.find _ items) as [draggedItem|] eqn:Hfind; [|by left].
  apply find_item_some in Hfind as [Hin Hid].
  destruct (list_find _ _) as [[i target]|]; [|by left].
  right. eexists. split; [|reflexivity].
  rewrite <- Permutation_middle, take_drop, sort_by_order_perm.
  rewrite <- Hid. by apply pull_out.
Qed.

Lemma renumber_apart {T} `{Ordered T} (l : list T) :
  NoDup (item_order <$> renumber l).
Proof.
  rewrite renumber_orders. apply NoDup_fmap_2; [|apply NoDup_seq].
  intros a b Hab. lia.
Qed.

Lemma handleSaveProject_create_apart (modalState : ModalState) (data : ProjectData)
      (now : nat -> Clock) (s : AppState) :
  (forall project, modalState <> EDIT_PROJECT project) ->
  "proj_" +:+ pretty (now_ms (now 0%nat)) ∉ project_id <$> projects s ->
  (forall q, q ∈ projects s -> project_order q < 9007199254740992) ->
  projects_apart s ->
  projects_apart (handleSaveProject modalState data now s).
Proof.
  intros Hmodal Hfresh Hsafe [Hids Hords].
  assert (Hnext : handleSaveProject modalState data now s
                  = handleSaveProject CREATE_PROJECT data now s).
  { destruct modalState; try reflexivity. by destruct (Hmodal project). }
  rewrite Hnext. unfold projects_apart. cbn [handleSaveProject projects].
  destruct (next_order_spec (projects s)) as (_ & _ & Habove & _).
  rewrite !fmap_app. split.
  - apply NoDup_app. split; [done|]. split; [|apply NoDup_singleton].
    intros x Hx Hx'. apply list_elem_of_singleton in Hx'. simpl in Hx'. congruence.
  - apply NoDup_app. split; [done|]. split; [|apply NoDup_singleton].
    intros x Hx Hx'. apply list_elem_of_singleton in Hx'. simpl in Hx'.
    apply list_elem_of_fmap in Hx as (q & -> & Hq).
    pose proof (Habove Hsafe q Hq) as Hlt. simpl in Hlt. lia.
Qed.

Lemma handleSaveTask_projects (modalState : ModalState) (data : TaskData)
      (projectId : string) (parentId : option string) (now : nat -> Clock)
      (s : AppState) :
  projects (handleSaveTask modalState data projectId parentId now s) = projects s.
Proof.
  destruct modalState; try done. unfold handleSaveTask. by case_bool_decide.
Qed.

Lemma perform_keeps_projects_apart (i : Intent) (now : nat -> Clock) (s : AppState) :
  projects_apart s -> keeps_projects_intent i now s -> projects_apart (perform i now s).
Proof.
  intros [Hids Hords] Hok.
  assert (Hsub : forall l, l `sublist_of` projects s ->
            NoDup (project_id <$> l) /\ NoDup (project_order <$> l)).
  { intros l Hl. split; (eapply sublist_NoDup; [|by apply fmap_sublist]); done. }
  assert (Hmap : forall f : Project -> Project,
            (forall p, p ∈ projects s ->
                       project_id (f p) = project_id p /\
                       project_order (f p) = project_order p) ->
            NoDup (project_id <$> (f <$> projects s)) /\
            NoDup (project_order <$> (f <$> projects s))).
  { intros f Hf. rewrite <- !list_fmap_compose.
    rewrite (list_fmap_ext (project_id ∘ f) project_id (projects s)),
            (list_fmap_ext (project_order ∘ f) project_order (projects s)); [done|..];
      intros k p Hp; apply list_elem_of_lookup_2 in Hp; simpl; by apply Hf. }
  destruct i; cbn [perform keeps_projects_intent] in *; unfold projects_apart.
  - destruct modalState as [| |project| | | |].
    1-2,4-7: destruct Hok as [Hfresh Hsafe];
      by apply handleSaveProject_create_apart.
    cbn [handleSaveProject projects]. apply Hmap. intros q Hq.
    case_bool_decide as Hid; [|done].
    assert (q = project) as -> by by apply (NoDup_project_ids_inj (projects s)).
    done.
  - destruct modalState; try done. cbn [confirmDeleteProject deleteProject projects].
    apply Hsub, sublist_filter.
  - unfold handleToggleArchive. destruct (List.find _ _) as [found|]; [|done].
    cbn [projects]. apply Hmap. intros q _. by case_bool_decide.
  - by rewrite handleSaveTask_projects.
  - unfold handleDeleteTask. destruct (List.find _ _); [|done].
    by destruct (collect_descendants _ _ _).
  - unfold handleUpdateTaskStatus. destruct (List.find _ _); [|done].
    by case_bool_decide.
  - done.
  - cbn [handleReorderProjects projects].
    assert (Hitems : NoDup (item_id <$> projects s)) by exact Hids.
    destruct (handleReorder_shape draggedId targetId (projects s) top Hitems)
      as [->|(l & Hl & ->)]; [done|].
    split; [|exact (renumber_apart (T := Project) l)].
    change (NoDup (item_id <$> renumber l)). rewrite renumber_ids.
    change (NoDup (project_id <$> l)). by rewrite Hl.
  - done.
  - destruct modalState; try done. cbn [confirmBulkDelete bulkDelete projects].
    apply Hsub, sublist_filter.
  - unfold handleBulkArchive.
    destruct (bulkArchive_fold (list_to_set projectIds) now (projects s) []
                (activityLog s) 0%nat) as (log' & k' & -> & _).
    cbn [projects app]. apply Hmap. intros q _. by case_bool_decide.
Qed.

(** Whatever the user does, in any sequence and with any renders in
    between (project saves being ones the form can make, and projects
    being created while the orders in the state are below [2^53]): no two
    projects ever share an id or an [order], so the dashboard's sort by
    priority and order never meets a tie. From [2^53] on a created
    project takes the order of the last one. *)
Theorem session_keeps_projects_apart (steps : list Step) (s : AppState) :
  projects_apart s -> all_along keeps_projects_intent steps s ->
  projects_apart (run_session steps s).
Proof.
  revert s. induction steps as [|[i now|after] steps IH]; intros s Hapart Hok; [done|..].
  - destruct Hok as [Hi Hrest]. apply IH; [|done].
    by apply perform_keeps_projects_apart.
  - destruct Hok as [(Hps & _) Hrest]. apply IH; [|done].
    unfold projects_apart in *. cbn [step]. by rewrite Hps.
Qed.

End ProjectsApart.

Lemma session_keeps_projects_apart_witness :
  projects_apart
    (run_session
       [Handle (SaveProject CREATE_PROJECT
                  (mkProjectData "two" EmptyString [] High "#be123c" [] [] []))
               sample_clock;
        Handle (ReorderProjects "proj_1700000000000" "proj_1") sample_clock;
        Handle (SaveProject (EDIT_PROJECT (project_with_order 1 sample_project))
                  (mkProjectData "renamed" EmptyString [] Low "#334155" [] [] []))
               sample_clock]
       sample_state).
Proof.
  apply session_keeps_projects_apart.
  - split; simpl; apply NoDup_singleton.
  - cbn [all_along keeps_projects_intent].
    split; [split|split; [exact I|split; [|exact I]]].
    + apply (bool_decide_unpack _). vm_compute. exact I.
    + apply (proj1 (Forall_forall (fun q => project_order q < 9007199254740992)
                      (projects sample_state))).
      apply (bool_decide_unpack _). vm_compute. exact I.
    + apply (bool_decide_unpack _). vm_compute. exact I.
Defined.

(** ** Starting on a damaged store *)

Section DamagedStore.
Variable parse : string -> option value.

(** A start of [App] on a stored item that is not a state. An item that
    is missing, empty or not JSON gives the empty state: it is rendered,
    needs no migration and becomes the only entry of the history. An item
    that parses to anything but an object ([null], a number, a string, a
    boolean, an array) stops the start in the first render, before any
    effect: [null] in [App], the others in the tag list of [Dashboard],
    which calls [forEach] on [undefined]. So does an object whose
    [projects] or [tasks] is not an array, whatever else it holds. *)
Theorem startup_on_damaged_store (storage : gmap string string) :
  (storage !! "focusflow_data" = None
   \/ storage !! "focusflow_data" = Some EmptyString
   \/ (exists item, storage !! "focusflow_data" = Some item /\ parse item = None) ->
   App_start parse storage
   = RenderReaches empty_state (Some (empty_state, useUndoableState empty_state))) /\
  (forall item v,
     storage !! "focusflow_data" = Some item -> item <> EmptyString ->
     parse item = Some v ->
     match v with VObj _ => False | _ => True end ->
     App_start parse storage = RenderThrows) /\
  (forall item props,
     storage !! "focusflow_data" = Some item -> item <> EmptyString ->
     parse item = Some (VObj props) ->
     (forall items, prop_lookup "projects" props <> Some (VArr items))
     \/ (forall items, prop_lookup "tasks" props <> Some (VArr items)) ->
     App_start parse storage = RenderThrows).
Proof.
  assert (Hread : forall item, storage !! "focusflow_data" = Some item ->
                    item <> EmptyString ->
                    useLocalStorage_init parse storage "focusflow_data" empty_state
                    = default empty_state (parse item)).
  { intros item Hitem Hne. unfold useLocalStorage_init. rewrite Hitem.
    destruct (String.eqb item EmptyString) eqn:Heq; [|done].
    by apply String.eqb_eq in Heq. }
  split; [|split].
  - intros Hfresh.
    assert (Hinit : useLocalStorage_init parse storage "focusflow_data" empty_state
                    = empty_state).
    { unfold useLocalStorage_init.
      destruct Hfresh as [->|[->|(item & -> & ->)]]; try done.
      by destruct (String.eqb item EmptyString). }
    unfold App_start. by rewrite Hinit.
  - intros item v Hitem Hne Hv Hshape. unfold App_start.
    rewrite (Hread item Hitem Hne), Hv. by destruct v.
  - intros item props Hitem Hne Hv Hshape. unfold App_start.
    rewrite (Hread item Hitem Hne), Hv. cbn [default]. unfold id.
    unfold App_render. rewrite !get_obj. cbn [mbind option_bind].
    destruct Hshape as [Hps|Hts].
    + destruct (prop_lookup "projects" props) as [[| | | | |items|]|]; try done.
      by destruct (Hps items).
    + destruct (array_forEach add_tags (default VUndef (prop_lookup "projects" props)));
        [|done].
      destruct (prop_lookup "tasks" props) as [[| | | | |items|]|]; try done.
      by destruct (Hts items).
Qed.

End DamagedStore.

Lemma startup_on_damaged_store_witness :
  App_start (fun _ => None) {["focusflow_data" := "not json"]}
  = RenderReaches empty_state (Some (empty_state, useUndoableState empty_state)) /\
  App_start (fun _ => Some (VNum 5)) {["focusflow_data" := "5"]} = RenderThrows /\
  App_start (fun _ => Some (VObj [("projects", VArr [])]))
    {["focusflow_data" := "{ projects: [] }"]} = RenderThrows.
Proof.
  split; [|split].
  - apply (proj1 (startup_on_damaged_store (fun _ => None)
                    {["focusflow_data" := "not json"]})).
    right. right. exists "not json". split; [apply lookup_singleton_eq|done].
  - apply (proj1 (proj2 (startup_on_damaged_store (fun _ => Some (VNum 5))
                           {["focusflow_data" := "5"]})) "5" (VNum 5)).
    + apply lookup_singleton_eq.
    + done.
    + done.
    + exact I.
  - apply (proj2 (proj2 (startup_on_damaged_store
                           (fun _ => Some (VObj [("projects", VArr [])]))
                           {["focusflow_data" := "{ projects: [] }"]}))
             "{ projects: [] }" [("projects", VArr [])]).
    + apply lookup_singleton_eq.
    + done.
    + done.
    + right. intros items. done.
Defined.
